(** * Keyspace event watcher (go/vt/discovery/keyspace_events.go)

    A shallow embedding of the keyspace event watcher of vtgate and the
    properties of its state machine.

    Go maps are stdpp [gmap]s and [for ... range] over a map visits the
    entries in an order chosen by the run ([MapRange]); nullable pointers
    are [option]s; [int64] timestamps are [Z], since the code only compares
    them.  A method that mutates its receiver returns the new receiver; a
    shard state or keyspace state that the code mutates through a pointer
    held in a map is written back under its key.  A method that calls
    [broadcast] returns the event, and the methods of the watcher return
    the events in the order of the calls; the subscriber channels, the
    locks (every method runs as one step) and the log are not modelled.
    The messages and packages that the file imports are modelled from the
    specification, each in a module named after its Go package. *)

From Stdlib Require Import ZArith Ascii String List.
From stdpp Require Import base decidable option list strings gmap fin_maps.

Local Open Scope string_scope.

(** ** Protobuf messages (package topodatapb, querypb, vschemapb) *)

Module topodatapb.

(** Modelled from the spec: the [TabletType] enum of the topology protobuf
    schema; only [PRIMARY] is distinguished by the watcher. *)
Inductive TabletType :=
| UNKNOWN | PRIMARY | REPLICA | RDONLY | SPARE
| EXPERIMENTAL | BACKUP | RESTORE | DRAINED.

#[global] Instance TabletType_eq_dec : EqDecision TabletType.
Proof. solve_decision. Defined.

(** Modelled from the spec: identity of a tablet (cell and uid). *)
Record TabletAlias := { Cell : string; Uid : Z }.

#[global] Instance TabletAlias_eq_dec : EqDecision TabletAlias.
Proof. solve_decision. Defined.

(** Modelled from the spec: a tablet record, of which the watcher reads the
    alias only. *)
Record Tablet := { Alias : option TabletAlias }.

(** Modelled from the spec: a half-open interval [[Start, End)] of keys;
    an empty bound is unbounded. *)
Record KeyRange := { Start : list N; End : list N }.

#[global] Instance KeyRange_eq_dec : EqDecision KeyRange.
Proof. solve_decision. Defined.

(** Modelled from the spec: [ShardReference{name, keyRange}]. *)
Record ShardReference := { Name : string; KeyRange_ : option KeyRange }.

#[global] Instance ShardReference_eq_dec : EqDecision ShardReference.
Proof. solve_decision. Defined.

(** Modelled from the spec: a [ShardTabletControl] entry of a partition,
    present while a topology change is in progress. *)
Record ShardTabletControl :=
  { stcName : string;
    stcKeyRange : option KeyRange;
    QueryServiceDisabled : bool }.

#[global] Instance ShardTabletControl_eq_dec : EqDecision ShardTabletControl.
Proof. solve_decision. Defined.

(** Modelled from the spec: one partition of a [SrvKeyspace]. *)
Record SrvKeyspace_KeyspacePartition :=
  { ServedType : TabletType;
    ShardReferences : list ShardReference;
    ShardTabletControls : list ShardTabletControl }.

#[global] Instance KeyspacePartition_eq_dec :
  EqDecision SrvKeyspace_KeyspacePartition.
Proof. solve_decision. Defined.

(** Modelled from the spec: the topology snapshot of a keyspace. *)
Record SrvKeyspace := { Partitions : list SrvKeyspace_KeyspacePartition }.

#[global] Instance SrvKeyspace_eq_dec : EqDecision SrvKeyspace.
Proof. solve_decision. Defined.

(** Modelled from the spec: the per-shard [TabletControl] record carrying
    the denied tables of a MoveTables cut-over. *)
Record Shard_TabletControl :=
  { tcTabletType : TabletType;
    tcCells : list string;
    DeniedTables : list string;
    Frozen : bool }.

End topodatapb.

Module querypb.
(** Modelled from the spec: [target = (keyspace, shard-name, tablet-type)]. *)
Record Target :=
  { Keyspace : string;
    Shard : string;
    TabletType : topodatapb.TabletType;
    Cell : string }.
End querypb.

Module vschemapb.
(** Modelled from the spec: table-level routing rules,
    [table → [qualified-table]]. *)
Record RoutingRule := { FromTable : string; ToTables : list string }.
Record RoutingRules := { Rules : list RoutingRule }.

(** Modelled from the spec: shard routing rules,
    [(keyspace, shard) → qualified-shard]. *)
Record ShardRoutingRule :=
  { FromKeyspace : string; ToKeyspace : string; Shard : string }.
Record ShardRoutingRules := { ShardRules : list ShardRoutingRule }.

Record SrvVSchema :=
  { RoutingRules_ : option RoutingRules;
    ShardRoutingRules_ : option ShardRoutingRules }.

(** The generated getters are nil-safe. *)
Definition GetRoutingRules (vs : SrvVSchema) : option RoutingRules :=
  RoutingRules_ vs.
Definition GetShardRoutingRules (vs : SrvVSchema) : option ShardRoutingRules :=
  ShardRoutingRules_ vs.
Definition GetRules (r : option RoutingRules) : list RoutingRule :=
  match r with Some r => Rules r | None => [] end.
Definition GetShardRules (r : option ShardRoutingRules) : list ShardRoutingRule :=
  match r with Some r => ShardRules r | None => [] end.
End vschemapb.


(** ** Key ranges (package key) *)

Module key.
Import topodatapb.

(** Lexicographic order on byte strings, as Go's [bytes.Compare]. *)
Fixpoint bytes_lt (a b : list N) : bool :=
  match a, b with
  | _, [] => false
  | [], _ :: _ => true
  | x :: a', y :: b' =>
      if (x <? y)%N then true
      else if (y <? x)%N then false
      else bytes_lt a' b'
  end.

Definition hex_digit (c : ascii) : option N :=
  let n := N_of_ascii c in
  if ((48 <=? n) && (n <=? 57))%N then Some (n - 48)%N
  else if ((97 <=? n) && (n <=? 102))%N then Some (n - 87)%N
  else if ((65 <=? n) && (n <=? 70))%N then Some (n - 55)%N
  else None.

(** [hex.DecodeString]: pairs of hexadecimal digits; an odd length or a
    character that is no digit is an error ([None]). *)
Fixpoint hex_decode (s : string) : option (list N) :=
  match s with
  | EmptyString => Some []
  | String _ EmptyString => None
  | String c1 (String c2 rest) =>
      match hex_digit c1, hex_digit c2, hex_decode rest with
      | Some h, Some l, Some bs => Some ((16 * h + l)%N :: bs)
      | _, _, _ => None
      end
  end.

(** Modelled from the spec: [key.ParseKeyRangeParts], which turns the two
    sides of a shard name into the bounds of a key range. *)
Definition ParseKeyRangeParts (start end_ : string) : option KeyRange :=
  match hex_decode start, hex_decode end_ with
  | Some s, Some e => Some {| Start := s; End := e |}
  | _, _ => None
  end.

(** Modelled from the spec: [key.KeyRangeIntersect].  Key ranges are
    half-open intervals [[start, end)]; an empty end is unbounded above and
    an empty start unbounded below; two ranges overlap iff they intersect. *)
Definition KeyRangeIntersect (a b : KeyRange) : bool :=
  (bool_decide (End a = []) || bytes_lt (Start b) (End a))
  && (bool_decide (End b = []) || bytes_lt (Start a) (End b)).

End key.

(** ** The topology server (packages topo, topotools, srvtopo) *)

Module topo.
Import topodatapb.

(** Modelled from the spec: errors of the topology server; the watcher only
    tells [NoNode] (the node was deleted) from every other error. *)
Inductive ErrorCode :=
| NodeExists | NoNode | NodeNotEmpty | Timeout | Interrupted | BadVersion
| PartialResult | NoUpdateNeeded | NoImplementation.

#[global] Instance ErrorCode_eq_dec : EqDecision ErrorCode.
Proof. solve_decision. Defined.

Inductive error :=
| TopoError (code : ErrorCode) (msg : string)
| OtherError (msg : string).

#[global] Instance error_eq_dec : EqDecision error.
Proof. solve_decision. Defined.

Definition IsErrType (err : option error) (code : ErrorCode) : bool :=
  match err with
  | Some (TopoError c _) => bool_decide (c = code)
  | _ => false
  end.

(** Modelled from the spec: a shard record of the topology server, with the
    per-shard tablet controls that carry the denied tables. *)
Record ShardInfo :=
  { keyspace : string;
    shardName : string;
    TabletControls : list Shard_TabletControl }.

Definition ShardName (si : ShardInfo) : string := shardName si.

(** Modelled from the spec: the part of [topo.Server] the watcher uses, the
    fetch of one shard record (a value or an error). *)
Record Server := { GetShard : string → string → error + ShardInfo }.

Fixpoint contains_char (c : ascii) (s : string) : bool :=
  match s with
  | EmptyString => false
  | String d rest => if Ascii.eqb c d then true else contains_char c rest
  end.

(** [strings.Split] on a one-character separator. *)
Fixpoint split_char (c : ascii) (s : string) : list string :=
  match s with
  | EmptyString => [EmptyString]
  | String d rest =>
      if Ascii.eqb c d then EmptyString :: split_char c rest
      else match split_char c rest with
           | p :: ps => String d p :: ps
           | [] => [String d EmptyString]
           end
  end.

(** Modelled from the spec: [topo.ValidateShardName].  A shard is named by
    a key-range string (["-80"], ["80-c0"], ["c0-"]) or by a plain name
    (["0"]) for an unsharded keyspace.  The result is the parsed key range
    ([None] for a plain name) and the error: a name with a slash, with more
    than one dash, with bounds that are no hexadecimal strings or with an
    end that is not above the start is invalid. *)
Definition ValidateShardName (shard : string) : option KeyRange * option error :=
  if contains_char "/" shard then
    (None, Some (OtherError "invalid shardId, may not contain '/'"))
  else if negb (contains_char "-" shard) then (None, None)
  else
    match split_char "-" shard with
    | [start; end_] =>
        match key.ParseKeyRangeParts start end_ with
        | None => (None, Some (OtherError "invalid shardId"))
        | Some kr =>
            if negb (bool_decide (End kr = []))
               && negb (key.bytes_lt (Start kr) (End kr))
            then (None, Some (OtherError "out of order keys"))
            else (Some kr, None)
        end
    | _ => (None, Some (OtherError "invalid shardId, can only contain one '-'"))
    end.

End topo.

Module topoproto.
Import topodatapb.

(** Modelled from the spec: [topoproto.SrvKeyspaceGetPartition], the
    partition of the snapshot that serves the given tablet type, absent
    when there is no snapshot or no such partition. *)
Definition SrvKeyspaceGetPartition (sk : option SrvKeyspace) (tabletType : TabletType)
  : option SrvKeyspace_KeyspacePartition :=
  match sk with
  | None => None
  | Some sk =>
      List.find (λ p, bool_decide (ServedType p = tabletType)) (Partitions sk)
  end.

End topoproto.

Module topotools.
Import vschemapb.

(** Modelled from the spec: [topotools.GetRoutingRulesMap], the table-level
    routing rules as a map [table → [qualified-table]] ([None] for a nil
    message; a later rule for the same table replaces an earlier one). *)
Definition GetRoutingRulesMap (rules : option RoutingRules)
  : option (gmap string (list string)) :=
  match rules with
  | None => None
  | Some r =>
      Some (foldl (λ m rr, <[FromTable rr := ToTables rr]> m) ∅ (Rules r))
  end.

(** Modelled from the spec: the key of a shard routing rule,
    ["<keyspace>.<shard>"]. *)
Definition GetShardRoutingRuleKey (fromKeyspace shard : string) : string :=
  fromKeyspace ++ "." ++ shard.

(** Modelled from the spec: [topotools.GetShardRoutingRulesMap], the shard
    routing rules as a map [(keyspace, shard) → qualified-shard]. *)
Definition GetShardRoutingRulesMap (rules : option ShardRoutingRules)
  : option (gmap string string) :=
  match rules with
  | None => None
  | Some r =>
      Some (foldl (λ m rr,
                    <[GetShardRoutingRuleKey (FromKeyspace rr) (Shard rr)
                      := ToKeyspace rr]> m) ∅ (ShardRules r))
  end.

End topotools.

Module srvtopo.
Import topodatapb vschemapb.

(** The [srvtopo.Server] interface as the watcher uses it.  A watch hands
    the callback the deliveries the server makes before the registration
    returns (the test double of the repository delivers the current
    snapshot at once); every later delivery is an event of its own. *)
Record Server :=
  { GetTopoServer : topo.error + topo.Server;
    GetSrvKeyspaceNames : string → bool → topo.error + list string;
    WatchSrvKeyspace :
      string → string → list (option SrvKeyspace * option topo.error);
    WatchSrvVSchema :
      string → list (option SrvVSchema * option topo.error) }.

End srvtopo.

(** ** The watcher (package discovery) *)

Module discovery.

(** Go visits the entries of a map in an order it does not specify.
    [range_order] is the order of one run: some permutation of the entries. *)
Class MapRange :=
  { range_order : ∀ A : Type, list (string * A) → list (string * A);
    range_order_perm : ∀ (A : Type) (l : list (string * A)), range_order A l ≡ₚ l }.

(** [for k, v := range m]. *)
Definition rangeMap `{MapRange} {A : Type} (m : gmap string A) : list (string * A) :=
  range_order A (map_to_list m).

(** Modelled from the spec: [TabletHealth{target, serving, tablet,
    primaryTermStartTime}], one record of the health stream. *)
Record TabletHealth :=
  { Tablet : topodatapb.Tablet;
    Target : querypb.Target;
    Serving : bool;
    PrimaryTermStartTime : Z }.

Record shardState :=
  { target : querypb.Target;
    serving : bool;
    waitForReparent : bool;
    externallyReparented : Z;
    currentPrimary : option topodatapb.TabletAlias }.

Inductive MoveTablesStatus :=
| MoveTablesUnknown | MoveTablesSwitching | MoveTablesSwitched.

Inductive MoveTablesType :=
| MoveTablesNone | MoveTablesRegular | MoveTablesShardByShard.

#[global] Instance MoveTablesStatus_eq_dec : EqDecision MoveTablesStatus.
Proof. solve_decision. Defined.

#[global] Instance MoveTablesType_eq_dec : EqDecision MoveTablesType.
Proof. solve_decision. Defined.

Record MoveTablesState := { Typ : MoveTablesType; State : MoveTablesStatus }.

(** The fields of [ShardEvent] are [Tablet], [Target] and [Serving]. *)
Record ShardEvent :=
  { evTablet : option topodatapb.TabletAlias;
    evTarget : querypb.Target;
    evServing : bool }.

(** The fields of [KeyspaceEvent] are [Cell], [Keyspace], [Shards] and
    [MoveTablesState]. *)
Record KeyspaceEvent :=
  { Cell : string;
    Keyspace : string;
    Shards : list ShardEvent;
    evMoveTablesState : MoveTablesState }.

(** [keyspaceState] without its lock and its back pointer to the watcher:
    the methods below take the cell name and the topology server, the two
    things they read through that pointer, and return the event they
    broadcast through it. *)
Record keyspaceState :=
  { keyspace : string;
    deleted : bool;
    consistent : bool;
    lastError : option topo.error;
    lastKeyspace : option topodatapb.SrvKeyspace;
    shards : gmap string shardState;
    moveTablesState : option MoveTablesState }.

Definition set_consistent (b : bool) (kss : keyspaceState) : keyspaceState :=
  {| keyspace := keyspace kss; deleted := deleted kss; consistent := b;
     lastError := lastError kss; lastKeyspace := lastKeyspace kss;
     shards := shards kss; moveTablesState := moveTablesState kss |}.

Definition set_deleted (b : bool) (kss : keyspaceState) : keyspaceState :=
  {| keyspace := keyspace kss; deleted := b; consistent := consistent kss;
     lastError := lastError kss; lastKeyspace := lastKeyspace kss;
     shards := shards kss; moveTablesState := moveTablesState kss |}.

Definition set_lastError (e : option topo.error) (kss : keyspaceState) : keyspaceState :=
  {| keyspace := keyspace kss; deleted := deleted kss; consistent := consistent kss;
     lastError := e; lastKeyspace := lastKeyspace kss;
     shards := shards kss; moveTablesState := moveTablesState kss |}.

Definition set_lastKeyspace (k : option topodatapb.SrvKeyspace) (kss : keyspaceState)
  : keyspaceState :=
  {| keyspace := keyspace kss; deleted := deleted kss; consistent := consistent kss;
     lastError := lastError kss; lastKeyspace := k;
     shards := shards kss; moveTablesState := moveTablesState kss |}.

Definition set_shards (m : gmap string shardState) (kss : keyspaceState) : keyspaceState :=
  {| keyspace := keyspace kss; deleted := deleted kss; consistent := consistent kss;
     lastError := lastError kss; lastKeyspace := lastKeyspace kss;
     shards := m; moveTablesState := moveTablesState kss |}.

Definition set_moveTablesState (mts : option MoveTablesState) (kss : keyspaceState)
  : keyspaceState :=
  {| keyspace := keyspace kss; deleted := deleted kss; consistent := consistent kss;
     lastError := lastError kss; lastKeyspace := lastKeyspace kss;
     shards := shards kss; moveTablesState := mts |}.

Definition set_serving (b : bool) (ss : shardState) : shardState :=
  {| target := target ss; serving := b; waitForReparent := waitForReparent ss;
     externallyReparented := externallyReparented ss;
     currentPrimary := currentPrimary ss |}.

Definition set_waitForReparent (b : bool) (ss : shardState) : shardState :=
  {| target := target ss; serving := serving ss; waitForReparent := b;
     externallyReparented := externallyReparented ss;
     currentPrimary := currentPrimary ss |}.

Definition set_reparented (t : Z) (p : option topodatapb.TabletAlias) (ss : shardState)
  : shardState :=
  {| target := target ss; serving := serving ss;
     waitForReparent := waitForReparent ss;
     externallyReparented := t; currentPrimary := p |}.

(** [isConsistent] (lines 123-127). *)
Definition isConsistent (kss : keyspaceState) : bool := consistent kss.

(** [_, kr, err := topo.ValidateShardName(shard)] followed by the test
    [err != nil || kr == nil]: the key range when the test fails, [None]
    when it holds. *)
Definition validKeyRange (shard : string) : option topodatapb.KeyRange :=
  match topo.ValidateShardName shard with
  | (Some kr, None) => Some kr
  | _ => None
  end.

(** The gate at the head of [beingResharded]. *)
Definition moveTablesInProgress (kss : keyspaceState) : bool :=
  match moveTablesState kss with
  | Some mts => negb (bool_decide (Typ mts = MoveTablesNone))
  | None => false
  end.

(** The loop of [beingResharded] (lines 165-176) over the shards in
    visiting order. *)
Fixpoint beingResharded_loop (currentShard : string) (ckr : topodatapb.KeyRange)
    (entries : list (string * shardState)) : bool :=
  match entries with
  | [] => false
  | (shard, sstate) :: rest =>
      if negb (serving sstate) || bool_decide (shard = currentShard)
      then beingResharded_loop currentShard ckr rest
      else match validKeyRange shard with
           | Some skr =>
               if key.KeyRangeIntersect ckr skr then true
               else beingResharded_loop currentShard ckr rest
           | None => false
           end
  end.

(** [beingResharded] (lines 149-179). *)
Definition beingResharded `{MapRange} (kss : keyspaceState) (currentShard : string) : bool :=
  if deleted kss || consistent kss || moveTablesInProgress kss then false
  else match validKeyRange currentShard with
       | Some ckr => beingResharded_loop currentShard ckr (rangeMap (shards kss))
       | None => false
       end.

(** [isServing] (lines 607-616): some shard is serving. *)
Fixpoint isServing_loop (entries : list (string * shardState)) : bool :=
  match entries with
  | [] => false
  | (_, state) :: rest => if serving state then true else isServing_loop rest
  end.

Definition isServing `{MapRange} (kss : keyspaceState) : bool :=
  isServing_loop (rangeMap (shards kss)).

(** *** ensureConsistentLocked *)

(** The move-tables gate: a workflow is known, is not of type None and has
    not switched yet. *)
Definition moveTablesPending (kss : keyspaceState) : bool :=
  match moveTablesState kss with
  | Some mts =>
      negb (bool_decide (Typ mts = MoveTablesNone))
      && negb (bool_decide (State mts = MoveTablesSwitched))
  | None => false
  end.

(** The loop over [primary.ShardReferences]: [None] is the early return,
    otherwise the filled [activeShardsInPartition]. *)
Fixpoint activeShards (shards : gmap string shardState)
    (refs : list topodatapb.ShardReference) (activeShardsInPartition : gmap string bool)
  : option (gmap string bool) :=
  match refs with
  | [] => Some activeShardsInPartition
  | shard :: rest =>
      match shards !! topodatapb.Name shard with
      | Some sstate =>
          if serving sstate
          then activeShards shards rest
                 (<[topodatapb.Name shard := true]> activeShardsInPartition)
          else None
      | None => None
      end
  end.

(** The loop over the shards of the health stream: [true] is the early
    return, a serving shard that the partition does not name. *)
Fixpoint servingOutsidePartition (activeShardsInPartition : gmap string bool)
    (entries : list (string * shardState)) : bool :=
  match entries with
  | [] => false
  | (shard, sstate) :: rest =>
      if serving sstate && negb (default false (activeShardsInPartition !! shard))
      then true
      else servingOutsidePartition activeShardsInPartition rest
  end.

(** The last loop: it appends one [ShardEvent] per shard and deletes the
    shards that are not serving. *)
Fixpoint resolveShards (entries : list (string * shardState))
    (events : list ShardEvent) (shards : gmap string shardState)
  : list ShardEvent * gmap string shardState :=
  match entries with
  | [] => (events, shards)
  | (shard, sstate) :: rest =>
      resolveShards rest
        (events ++ [{| evTablet := currentPrimary sstate;
                       evTarget := target sstate;
                       evServing := serving sstate |}])%list
        (if negb (serving sstate) then delete shard shards else shards)
  end.

(** [ensureConsistentLocked] (lines 260-344). *)
Definition ensureConsistentLocked `{MapRange} (localCell : string) (kss : keyspaceState)
  : keyspaceState * option KeyspaceEvent :=
  if consistent kss then (kss, None)
  else if moveTablesPending kss then (kss, None)
  else
    match topoproto.SrvKeyspaceGetPartition (lastKeyspace kss) topodatapb.PRIMARY with
    | None => (kss, None)
    | Some primary =>
        if (0 <? length (topodatapb.ShardTabletControls primary))%nat then (kss, None)
        else
          match activeShards (shards kss) (topodatapb.ShardReferences primary) ∅ with
          | None => (kss, None)
          | Some activeShardsInPartition =>
              if servingOutsidePartition activeShardsInPartition (rangeMap (shards kss))
              then (kss, None)
              else
                let moveTablesState_ :=
                  match moveTablesState kss with
                  | Some mts => mts
                  | None => {| Typ := MoveTablesNone; State := MoveTablesUnknown |}
                  end in
                let '(evs, shards') :=
                  resolveShards (rangeMap (shards kss)) [] (shards kss) in
                let ksevent :=
                  {| Cell := localCell; Keyspace := keyspace kss;
                     Shards := evs; evMoveTablesState := moveTablesState_ |} in
                (set_shards shards'
                   (set_moveTablesState None (set_consistent true kss)),
                 Some ksevent)
          end
    end.

(** *** onHealthCheck *)

(** The update of the shard state and of the [consistent] bit between the
    lookup of the shard and the call of [ensureConsistentLocked]
    (lines 376-414). *)
Definition updateShard (th : TabletHealth) (sstate : shardState) (consistent : bool)
  : shardState * bool :=
  let '(sstate, consistent) :=
    if negb (bool_decide (serving sstate = Serving th)) then
      (if Serving th && waitForReparent sstate then
         if (PrimaryTermStartTime th >? externallyReparented sstate)%Z
         then set_serving true (set_waitForReparent false sstate)
         else sstate
       else if Serving th && negb (waitForReparent sstate) then
         set_serving true sstate
       else set_serving false sstate,
       false)
    else (sstate, consistent) in
  let sstate :=
    if negb (Serving th) then set_waitForReparent false sstate else sstate in
  if negb (bool_decide (PrimaryTermStartTime th = 0%Z))
     && (PrimaryTermStartTime th >? externallyReparented sstate)%Z
  then (set_reparented (PrimaryTermStartTime th)
          (topodatapb.Alias (Tablet th)) sstate, false)
  else (sstate, consistent).

(** [onHealthCheck] (lines 350-417). *)
Definition onHealthCheck `{MapRange} (localCell : string) (kss : keyspaceState)
    (th : TabletHealth) : keyspaceState * option KeyspaceEvent :=
  if negb (bool_decide (querypb.TabletType (Target th) = topodatapb.PRIMARY))
  then (kss, None)
  else
    let shard := querypb.Shard (Target th) in
    let tracked :=
      match shards kss !! shard with
      | Some sstate => Some sstate
      | None =>
          if negb (Serving th) then None
          else Some {| target := Target th; serving := false;
                       waitForReparent := false; externallyReparented := 0;
                       currentPrimary := None |}
      end in
    match tracked with
    | None => (kss, None)
    | Some sstate =>
        let '(sstate', consistent') := updateShard th sstate (consistent kss) in
        ensureConsistentLocked localCell
          (set_consistent consistent'
             (set_shards (<[shard := sstate']> (shards kss)) kss))
    end.

(** *** getMoveTablesStatus *)

(** The parallel fetch of the shard records (lines 482-499): the records
    in the order in which the fetches finish, or the first error.  The
    order of the fetches is that of the visit of the shards, which is
    arbitrary. *)
Fixpoint fetchShards (ts : topo.Server) (keyspace : string)
    (entries : list (string * shardState)) : topo.error + list topo.ShardInfo :=
  match entries with
  | [] => inr []
  | (_, sstate) :: rest =>
      match topo.GetShard ts keyspace (querypb.Shard (target sstate)) with
      | inl err => inl err
      | inr si =>
          match fetchShards ts keyspace rest with
          | inl err => inl err
          | inr sis => inr (si :: sis)
          end
      end
  end.

(** The scan for denied tables; the state is [shardsWithDeniedTables] and
    [oneDeniedTable]. *)
Fixpoint deniedInControls (name : string) (tcs : list topodatapb.Shard_TabletControl)
    (acc : list string * string) : list string * string :=
  match tcs with
  | [] => acc
  | tc :: rest =>
      deniedInControls name rest
        match topodatapb.DeniedTables tc with
        | t :: _ => ((acc.1 ++ [name])%list, t)
        | [] => acc
        end
  end.

Fixpoint deniedInShards (shardInfos : list topo.ShardInfo) (acc : list string * string)
  : list string * string :=
  match shardInfos with
  | [] => acc
  | si :: rest =>
      deniedInShards rest
        (deniedInControls (topo.ShardName si) (topo.TabletControls si) acc)
  end.

(** The loop of the shard-by-shard branch, with its [break]. *)
Fixpoint partialState (keyspace : string) (srr : gmap string string)
    (shardsWithDeniedTables : list string) : MoveTablesStatus :=
  match shardsWithDeniedTables with
  | [] => MoveTablesSwitched
  | shard :: rest =>
      match srr !! topotools.GetShardRoutingRuleKey keyspace shard with
      | Some _ => MoveTablesSwitching
      | None => partialState keyspace srr rest
      end
  end.

(** The part of [getMoveTablesStatus] after the fetch (lines 501-551). *)
Definition classifyMoveTables (keyspace : string) (vs : vschemapb.SrvVSchema)
    (shardInfos : list topo.ShardInfo) : MoveTablesState :=
  let '(shardsWithDeniedTables, oneDeniedTable) := deniedInShards shardInfos ([], "") in
  if bool_decide (length shardsWithDeniedTables = 0%nat) then
    {| Typ := MoveTablesNone; State := MoveTablesUnknown |}
  else
    let isPartialTables :=
      bool_decide (vschemapb.GetShardRoutingRules vs ≠ None)
      && (0 <? length (vschemapb.GetShardRules (vschemapb.GetShardRoutingRules vs)))%nat in
    if isPartialTables then
      let srr :=
        default ∅ (topotools.GetShardRoutingRulesMap (vschemapb.GetShardRoutingRules vs)) in
      {| Typ := MoveTablesShardByShard;
         State := partialState keyspace srr shardsWithDeniedTables |}
    else
      {| Typ := MoveTablesRegular;
         State :=
           match topotools.GetRoutingRulesMap (vschemapb.GetRoutingRules vs) with
           | Some rr =>
               match rr !! oneDeniedTable with
               | Some (r0 :: _) =>
                   if negb (bool_decide (r0 = keyspace ++ "." ++ oneDeniedTable))
                   then MoveTablesSwitched
                   else MoveTablesSwitching
               | _ => MoveTablesSwitching
               end
           | None => MoveTablesSwitching
           end |}.

(** [getMoveTablesStatus] (lines 464-552); the state returned is never
    nil. *)
Definition getMoveTablesStatus `{MapRange} (ts : srvtopo.Server) (kss : keyspaceState)
    (vs : vschemapb.SrvVSchema) : MoveTablesState * option topo.error :=
  let mtState := {| Typ := MoveTablesNone; State := MoveTablesUnknown |} in
  if bool_decide (length (vschemapb.GetRules (vschemapb.GetRoutingRules vs)) = 0%nat)
     && bool_decide
          (length (vschemapb.GetShardRules (vschemapb.GetShardRoutingRules vs)) = 0%nat)
  then (mtState, None)
  else
    match srvtopo.GetTopoServer ts with
    | inl err => (mtState, Some err)
    | inr ts =>
        match fetchShards ts (keyspace kss) (rangeMap (shards kss)) with
        | inl err => (mtState, Some err)
        | inr shardInfos => (classifyMoveTables (keyspace kss) vs shardInfos, None)
        end
    end.

(** *** The topology callbacks *)

(** [onSrvKeyspace] (lines 558-604).  [proto.Equal] on snapshots and
    partitions is structural equality of the messages (two nil messages are
    equal, a nil and a non-nil one are not). *)
Definition onSrvKeyspace `{MapRange} (localCell : string) (kss : keyspaceState)
    (newKeyspace : option topodatapb.SrvKeyspace) (newError : option topo.error)
  : keyspaceState * option KeyspaceEvent * bool :=
  if topo.IsErrType newError topo.NoNode then (set_deleted true kss, None, false)
  else
    match newError with
    | Some err => (set_lastError (Some err) kss, None, true)
    | None =>
        if bool_decide (lastKeyspace kss = newKeyspace) then (kss, None, true)
        else
          let oldPrimary :=
            match lastKeyspace kss with
            | Some _ =>
                topoproto.SrvKeyspaceGetPartition (lastKeyspace kss) topodatapb.PRIMARY
            | None => None
            end in
          let newPrimary :=
            match newKeyspace with
            | Some _ => topoproto.SrvKeyspaceGetPartition newKeyspace topodatapb.PRIMARY
            | None => None
            end in
          let kss :=
            if negb (bool_decide (oldPrimary = newPrimary))
            then set_consistent false kss else kss in
          let '(kss, ev) :=
            ensureConsistentLocked localCell (set_lastKeyspace newKeyspace kss) in
          (kss, ev, true)
    end.

(** [onSrvVSchema] (lines 622-642).  The error of the detector and the
    error of the watch only decide what is logged. *)
Definition onSrvVSchema `{MapRange} (ts : srvtopo.Server) (localCell : string)
    (kss : keyspaceState) (vs : option vschemapb.SrvVSchema) (err : option topo.error)
  : keyspaceState * option KeyspaceEvent * bool :=
  match vs with
  | None => (kss, None, true)
  | Some vs =>
      let '(mtState, kerr) := getMoveTablesStatus ts kss vs in
      let kss := set_moveTablesState (Some mtState) kss in
      if negb (bool_decide (Typ mtState = MoveTablesNone)) then
        let '(kss, ev) := ensureConsistentLocked localCell (set_consistent false kss) in
        (kss, ev, true)
      else (kss, None, true)
  end.

(** A watcher hands its deliveries to the callback one after the other and
    stops once the callback returns [false]. *)
Fixpoint deliver {V : Type}
    (callback : keyspaceState → V → keyspaceState * option KeyspaceEvent * bool)
    (kss : keyspaceState) (deliveries : list V)
  : keyspaceState * list KeyspaceEvent :=
  match deliveries with
  | [] => (kss, [])
  | d :: rest =>
      let '(kss, ev, continue) := callback kss d in
      if continue then
        let '(kss, evs) := deliver callback kss rest in
        (kss, (option_list ev ++ evs)%list)
      else (kss, option_list ev)
  end.

(** The struct literal of [newKeyspaceState]. *)
Definition emptyKeyspaceState (keyspace_ : string) : keyspaceState :=
  {| keyspace := keyspace_; deleted := false; consistent := false;
     lastError := None; lastKeyspace := None; shards := ∅;
     moveTablesState := None |}.

(** [newKeyspaceState] (lines 647-657): the fresh state after the
    deliveries that the two watches make while they are started. *)
Definition newKeyspaceState `{MapRange} (ts : srvtopo.Server) (cell keyspace_ : string)
  : keyspaceState * list KeyspaceEvent :=
  let kss := emptyKeyspaceState keyspace_ in
  let '(kss, evs1) :=
    deliver (λ kss d, onSrvKeyspace cell kss d.1 d.2) kss
      (srvtopo.WatchSrvKeyspace ts cell keyspace_) in
  let '(kss, evs2) :=
    deliver (λ kss d, onSrvVSchema ts cell kss d.1 d.2) kss
      (srvtopo.WatchSrvVSchema ts cell) in
  (kss, (evs1 ++ evs2)%list).

(** *** The watcher *)

(** [KeyspaceEventWatcher]: the cell and the map of the keyspaces.  The
    methods take the topology server of the moment as an argument and
    return, next to their result, the new watcher and the events they
    broadcast, oldest first.  The sidecar identifier cache is outside the
    watcher and is left out. *)
Record KeyspaceEventWatcher :=
  { localCell : string;
    keyspaces : gmap string keyspaceState }.

Definition set_keyspaces (m : gmap string keyspaceState) (kew : KeyspaceEventWatcher)
  : KeyspaceEventWatcher :=
  {| localCell := localCell kew; keyspaces := m |}.

(** [getKeyspaceStatus] (lines 673-693). *)
Definition getKeyspaceStatus `{MapRange} (ts : srvtopo.Server)
    (kew : KeyspaceEventWatcher) (keyspace_ : string)
  : option keyspaceState * KeyspaceEventWatcher * list KeyspaceEvent :=
  let '(kss, kew, evs) :=
    match keyspaces kew !! keyspace_ with
    | Some kss => (kss, kew, [])
    | None =>
        let '(kss, evs) := newKeyspaceState ts (localCell kew) keyspace_ in
        (kss, set_keyspaces (<[keyspace_ := kss]> (keyspaces kew)) kew, evs)
    end in
  if deleted kss
  then (None, set_keyspaces (delete keyspace_ (keyspaces kew)) kew, evs)
  else (Some kss, kew, evs).

(** [processHealthCheck] (lines 662-669). *)
Definition processHealthCheck `{MapRange} (ts : srvtopo.Server)
    (kew : KeyspaceEventWatcher) (th : TabletHealth)
  : KeyspaceEventWatcher * list KeyspaceEvent :=
  let ks := querypb.Keyspace (Target th) in
  match getKeyspaceStatus ts kew ks with
  | (None, kew, evs) => (kew, evs)
  | (Some kss, kew, evs) =>
      let '(kss, ev) := onHealthCheck (localCell kew) kss th in
      (set_keyspaces (<[ks := kss]> (keyspaces kew)) kew, (evs ++ option_list ev)%list)
  end.

(** [TargetIsBeingResharded] (lines 700-709). *)
Definition TargetIsBeingResharded `{MapRange} (ts : srvtopo.Server)
    (kew : KeyspaceEventWatcher) (target_ : querypb.Target)
  : bool * KeyspaceEventWatcher * list KeyspaceEvent :=
  if negb (bool_decide (querypb.TabletType target_ = topodatapb.PRIMARY))
  then (false, kew, [])
  else
    match getKeyspaceStatus ts kew (querypb.Keyspace target_) with
    | (None, kew, evs) => (false, kew, evs)
    | (Some ks, kew, evs) => (beingResharded ks (querypb.Shard target_), kew, evs)
    end.

(** [ShouldStartBufferingForTarget] (lines 730-761). *)
Definition ShouldStartBufferingForTarget `{MapRange} (ts : srvtopo.Server)
    (kew : KeyspaceEventWatcher) (target_ : querypb.Target)
  : (option topodatapb.TabletAlias * bool) * KeyspaceEventWatcher * list KeyspaceEvent :=
  if negb (bool_decide (querypb.TabletType target_ = topodatapb.PRIMARY))
  then ((None, false), kew, [])
  else
    match getKeyspaceStatus ts kew (querypb.Keyspace target_) with
    | (None, kew, evs) => ((None, false), kew, evs)
    | (Some ks, kew, evs) =>
        match shards ks !! querypb.Shard target_ with
        | Some state =>
            ((currentPrimary state,
              negb (serving state) && negb (consistent ks)
              && negb (bool_decide (externallyReparented state = 0%Z))
              && bool_decide (currentPrimary state ≠ None)),
             kew, evs)
        | None => ((None, false), kew, evs)
        end
    end.

(** [GetServingKeyspaces] (lines 764-775). *)
Fixpoint servingKeyspaces_loop `{MapRange} (entries : list (string * keyspaceState))
  : list string :=
  match entries with
  | [] => []
  | (ksName, state) :: rest =>
      if isServing state then ksName :: servingKeyspaces_loop rest
      else servingKeyspaces_loop rest
  end.

Definition GetServingKeyspaces `{MapRange} (kew : KeyspaceEventWatcher) : list string :=
  servingKeyspaces_loop (rangeMap (keyspaces kew)).

(** The writes of [MarkShardNotServing] once the shard state is found
    (lines 840-849). *)
Definition markNotServing (kss : keyspaceState) (shard : string) (sstate : shardState)
    (isReparentErr : bool) : keyspaceState :=
  let sstate := set_serving false sstate in
  let sstate :=
    if isReparentErr then set_waitForReparent true sstate else sstate in
  set_shards (<[shard := sstate]> (shards kss)) (set_consistent false kss).

(** [MarkShardNotServing] (lines 826-851). *)
Definition MarkShardNotServing `{MapRange} (ts : srvtopo.Server)
    (kew : KeyspaceEventWatcher) (keyspace_ shard : string) (isReparentErr : bool)
  : bool * KeyspaceEventWatcher * list KeyspaceEvent :=
  match getKeyspaceStatus ts kew keyspace_ with
  | (None, kew, evs) => (false, kew, evs)
  | (Some kss, kew, evs) =>
      match shards kss !! shard with
      | None => (false, kew, evs)
      | Some sstate =>
          let kss := markNotServing kss shard sstate isReparentErr in
          (true, set_keyspaces (<[keyspace_ := kss]> (keyspaces kew)) kew, evs)
      end
  end.

(** *** Runs of the watcher *)

(** What reaches the watcher from outside: a record of the health stream, a
    delivery of one of the two topology watches of a keyspace, a call of
    the query surface, or the seeding of a keyspace at startup. *)
Inductive Op :=
| OpHealthCheck (th : TabletHealth)
| OpSrvKeyspace (keyspace_ : string) (newKeyspace : option topodatapb.SrvKeyspace)
    (newError : option topo.error)
| OpSrvVSchema (keyspace_ : string) (vs : option vschemapb.SrvVSchema)
    (err : option topo.error)
| OpMarkShardNotServing (keyspace_ shard : string) (isReparentErr : bool)
| OpTargetIsBeingResharded (target_ : querypb.Target)
| OpShouldStartBufferingForTarget (target_ : querypb.Target)
| OpGetKeyspaceStatus (keyspace_ : string).

(** A delivery of a topology watch reaches the state the watch was started
    for, as long as the map holds that state. *)
Definition callback `{MapRange} (kew : KeyspaceEventWatcher) (keyspace_ : string)
    (cb : keyspaceState → keyspaceState * option KeyspaceEvent * bool)
  : KeyspaceEventWatcher * list KeyspaceEvent :=
  match keyspaces kew !! keyspace_ with
  | None => (kew, [])
  | Some kss =>
      let '(kss, ev, _) := cb kss in
      (set_keyspaces (<[keyspace_ := kss]> (keyspaces kew)) kew, option_list ev)
  end.

Definition step `{MapRange} (ts : srvtopo.Server) (kew : KeyspaceEventWatcher) (op : Op)
  : KeyspaceEventWatcher * list KeyspaceEvent :=
  match op with
  | OpHealthCheck th => processHealthCheck ts kew th
  | OpSrvKeyspace ks newKeyspace newError =>
      callback kew ks (λ kss, onSrvKeyspace (localCell kew) kss newKeyspace newError)
  | OpSrvVSchema ks vs err =>
      callback kew ks (λ kss, onSrvVSchema ts (localCell kew) kss vs err)
  | OpMarkShardNotServing ks shard isReparentErr =>
      let '(_, kew, evs) := MarkShardNotServing ts kew ks shard isReparentErr in
      (kew, evs)
  | OpTargetIsBeingResharded target_ =>
      let '(_, kew, evs) := TargetIsBeingResharded ts kew target_ in (kew, evs)
  | OpShouldStartBufferingForTarget target_ =>
      let '(_, kew, evs) := ShouldStartBufferingForTarget ts kew target_ in (kew, evs)
  | OpGetKeyspaceStatus ks =>
      let '(_, kew, evs) := getKeyspaceStatus ts kew ks in (kew, evs)
  end.

Fixpoint run `{MapRange} (kew : KeyspaceEventWatcher) (ops : list (srvtopo.Server * Op))
  : KeyspaceEventWatcher * list KeyspaceEvent :=
  match ops with
  | [] => (kew, [])
  | (ts, op) :: rest =>
      let '(kew, evs1) := step ts kew op in
      let '(kew, evs2) := run kew rest in
      (kew, (evs1 ++ evs2)%list)
  end.

(** The watcher before the run and after each of its operations. *)
Fixpoint states `{MapRange} (kew : KeyspaceEventWatcher)
    (ops : list (srvtopo.Server * Op)) : list KeyspaceEventWatcher :=
  kew :: match ops with
         | [] => []
         | (ts, op) :: rest => states (step ts kew op).1 rest
         end.

(** The state of shard [s] of keyspace [k], when the watcher tracks it. *)
Definition shardAt (kew : KeyspaceEventWatcher) (k s : string) : option shardState :=
  match keyspaces kew !! k with
  | Some kss => shards kss !! s
  | None => None
  end.

(** [NewKeyspaceEventWatcher], before any event. *)
Definition NewKeyspaceEventWatcher (localCell_ : string) : KeyspaceEventWatcher :=
  {| localCell := localCell_; keyspaces := ∅ |}.

(** *** WaitForConsistentKeyspaces *)

(** One pass of the inner loop of [WaitForConsistentKeyspaces]
    (lines 784-799): the list with the consistent keyspaces emptied, and
    [allConsistent]. *)
Fixpoint checkKeyspaces `{MapRange} (ts : srvtopo.Server) (kew : KeyspaceEventWatcher)
    (keyspaces_ : list string)
  : (list string * bool) * KeyspaceEventWatcher * list KeyspaceEvent :=
  match keyspaces_ with
  | [] => (([], true), kew, [])
  | ks :: rest =>
      if bool_decide (ks = "") then
        let '((rest, allConsistent), kew, evs) := checkKeyspaces ts kew rest in
        ((ks :: rest, allConsistent), kew, evs)
      else
        let '(kss, kew, evs1) := getKeyspaceStatus ts kew ks in
        let resolved :=
          match kss with
          | None => true
          | Some kss => isConsistent kss
          end in
        let '((rest, allConsistent), kew, evs2) := checkKeyspaces ts kew rest in
        (((if resolved then "" else ks) :: rest, resolved && allConsistent),
         kew, (evs1 ++ evs2)%list)
  end.

(** The error of a context that is done. *)
Inductive ctxError := Canceled | DeadlineExceeded.

(** What the [select] at the end of a pass yields: the context is done, or
    the timer fires after the other goroutines have run [concurrent]. *)
Inductive Select :=
| CtxDone (err : ctxError)
| TimerFired (concurrent : list (srvtopo.Server * Op)).

(** The polling loop along a schedule of its [select]s.  The result is
    [Some None] for a nil error, [Some (Some err)] for the error of the
    context, and [None] while the call still blocks at the end of the
    schedule. *)
Fixpoint waitLoop `{MapRange} (ts : srvtopo.Server) (kew : KeyspaceEventWatcher)
    (keyspaces_ : list string) (schedule : list Select)
  : option (option ctxError) * KeyspaceEventWatcher * list KeyspaceEvent :=
  let '((keyspaces_, allConsistent), kew, evs1) := checkKeyspaces ts kew keyspaces_ in
  if allConsistent then (Some None, kew, evs1)
  else
    match schedule with
    | [] => (None, kew, evs1)
    | CtxDone err :: _ => (Some (Some err), kew, evs1)
    | TimerFired concurrent :: schedule =>
        let '(kew, evs2) := run kew concurrent in
        let '(r, kew, evs3) := waitLoop ts kew keyspaces_ schedule in
        (r, kew, (evs1 ++ evs2 ++ evs3)%list)
    end.

(** [WaitForConsistentKeyspaces] (lines 778-818). *)
Definition WaitForConsistentKeyspaces `{MapRange} (ts : srvtopo.Server)
    (kew : KeyspaceEventWatcher) (ksList : list string) (schedule : list Select)
  : option (option ctxError) * KeyspaceEventWatcher * list KeyspaceEvent :=
  waitLoop ts kew ksList schedule.

End discovery.

(** ** Orders of visit and servers used in the examples *)

Module examples.
Import discovery.

(** A run in which a map is visited in the order of its key list. *)
Definition forwardRange : MapRange :=
  {| range_order := λ _ l, l;
     range_order_perm := λ _ l, reflexivity l |}.

(** A run in which a map is visited in the opposite order. *)
Definition backwardRange : MapRange :=
  {| range_order := λ _ l, reverse l;
     range_order_perm := λ _ l, reverse_Permutation l |}.

Definition primaryTarget (ks shard : string) : querypb.Target :=
  {| querypb.Keyspace := ks; querypb.Shard := shard;
     querypb.TabletType := topodatapb.PRIMARY; querypb.Cell := "aa" |}.

Definition replicaTarget (ks shard : string) : querypb.Target :=
  {| querypb.Keyspace := ks; querypb.Shard := shard;
     querypb.TabletType := topodatapb.REPLICA; querypb.Cell := "aa" |}.

Definition alias (uid : Z) : topodatapb.TabletAlias :=
  {| topodatapb.Cell := "aa"; topodatapb.Uid := uid |}.

(** A shard of keyspace ["ks"] with primary [uid] since term start 100. *)
Definition shardOf (shard : string) (uid : Z) (serving_ waiting : bool) : shardState :=
  {| target := primaryTarget "ks" shard; serving := serving_;
     waitForReparent := waiting; externallyReparented := 100;
     currentPrimary := Some (alias uid) |}.

(** A keyspace in which shard ["-80"] is being split while the shard ["0"]
    of its unsharded past still serves: ["0"], ["-80"] and the new shard
    ["-40"] all report a serving primary. *)
Definition splittingKeyspace : keyspaceState :=
  {| keyspace := "ks"; deleted := false; consistent := false;
     lastError := None; lastKeyspace := None;
     shards := <["0" := shardOf "0" 1 true false]>
                 (<["-80" := shardOf "-80" 2 true false]>
                    (<["-40" := shardOf "-40" 3 true false]> ∅));
     moveTablesState := None |}.

(** The snapshot of a keyspace with the shards ["-80"] and ["80-"]. *)
Definition twoShards : topodatapb.SrvKeyspace :=
  {| topodatapb.Partitions :=
       [{| topodatapb.ServedType := topodatapb.PRIMARY;
           topodatapb.ShardReferences :=
             [{| topodatapb.Name := "-80";
                 topodatapb.KeyRange_ :=
                   Some {| topodatapb.Start := []; topodatapb.End := [128%N] |} |};
              {| topodatapb.Name := "80-";
                 topodatapb.KeyRange_ :=
                   Some {| topodatapb.Start := [128%N]; topodatapb.End := [] |} |}];
           topodatapb.ShardTabletControls := [] |}] |}.

(** A topology server that hands [twoShards] to a new watch at once, as the
    test double of the repository does, and serves the shard records
    [records]. *)
Definition staticServer (records : string → string → topo.error + topo.ShardInfo)
  : srvtopo.Server :=
  {| srvtopo.GetTopoServer := inr {| topo.GetShard := records |};
     srvtopo.GetSrvKeyspaceNames := λ _ _, inr ["ks"];
     srvtopo.WatchSrvKeyspace := λ _ _, [(Some twoShards, None)];
     srvtopo.WatchSrvVSchema := λ _, [] |}.

(** Shard records without tablet controls. *)
Definition plainRecords (ks shard : string) : topo.error + topo.ShardInfo :=
  inr {| topo.keyspace := ks; topo.shardName := shard; topo.TabletControls := [] |}.

(** Shard records that cannot be read. *)
Definition noRecords (ks shard : string) : topo.error + topo.ShardInfo :=
  inl (topo.TopoError topo.Timeout "deadline exceeded").

(** Shard records in which table ["t"] is denied on shard ["-80"]. *)
Definition deniedRecords (ks shard : string) : topo.error + topo.ShardInfo :=
  inr {| topo.keyspace := ks; topo.shardName := shard;
         topo.TabletControls :=
           if bool_decide (shard = "-80") then
             [{| topodatapb.tcTabletType := topodatapb.PRIMARY;
                 topodatapb.tcCells := [];
                 topodatapb.DeniedTables := ["t"];
                 topodatapb.Frozen := false |}]
           else [] |}.

Definition deniedInfo (shard : string) : topo.ShardInfo :=
  {| topo.keyspace := "ks"; topo.shardName := shard;
     topo.TabletControls :=
       if bool_decide (shard = "-80") then
         [{| topodatapb.tcTabletType := topodatapb.PRIMARY;
             topodatapb.tcCells := [];
             topodatapb.DeniedTables := ["t"];
             topodatapb.Frozen := false |}]
       else [] |}.

(** The records of the two shards of ["ks"] as they are fetched. *)
Definition deniedInfos : list topo.ShardInfo :=
  [deniedInfo "-80"; deniedInfo "80-"].

(** A record of the health stream for a shard of keyspace ["ks"]. *)
Definition health (shard : string) (uid : Z) (serving_ : bool) (termStart : Z)
  : TabletHealth :=
  {| Tablet := {| topodatapb.Alias := Some (alias uid) |};
     Target := primaryTarget "ks" shard;
     Serving := serving_;
     PrimaryTermStartTime := termStart |}.

Definition noRules : vschemapb.SrvVSchema :=
  {| vschemapb.RoutingRules_ := None; vschemapb.ShardRoutingRules_ := None |}.

(** The routing rule [t → target]. *)
Definition routeTable (target_ : string) : vschemapb.SrvVSchema :=
  {| vschemapb.RoutingRules_ :=
       Some {| vschemapb.Rules :=
                 [{| vschemapb.FromTable := "t";
                     vschemapb.ToTables := [target_] |}] |};
     vschemapb.ShardRoutingRules_ := None |}.

(** Both shards report a serving primary. *)
Definition bothServing : list (srvtopo.Server * Op) :=
  [(staticServer plainRecords, OpHealthCheck (health "-80" 1 true 100));
   (staticServer plainRecords, OpHealthCheck (health "80-" 2 true 100))].

(** Keyspace ["ks"] during a planned reparent of shard ["-80"]: the shard
    was marked not serving and waits for the new primary. *)
Definition failoverKeyspace : keyspaceState :=
  {| keyspace := "ks"; deleted := false; consistent := false;
     lastError := None; lastKeyspace := Some twoShards;
     shards := <["-80" := shardOf "-80" 1 false true]>
                 (<["80-" := shardOf "80-" 2 true false]> ∅);
     moveTablesState := None |}.

Definition failoverWatcher : KeyspaceEventWatcher :=
  {| localCell := "aa"; keyspaces := <["ks" := failoverKeyspace]> ∅ |}.

(** Keyspace ["ks"] in the middle of a regular MoveTables. *)
Definition migratingKeyspace : keyspaceState :=
  {| keyspace := "ks"; deleted := false; consistent := false;
     lastError := None; lastKeyspace := Some twoShards;
     shards := <["-80" := shardOf "-80" 1 true false]>
                 (<["80-" := shardOf "80-" 2 true false]> ∅);
     moveTablesState :=
       Some {| Typ := MoveTablesRegular; State := MoveTablesSwitching |} |}.

(** Keyspace ["ks"] while its only shard ["-"] is split: the target shard
    ["-80"] already serves next to it. *)
Definition reshardingKeyspace : keyspaceState :=
  {| keyspace := "ks"; deleted := false; consistent := false;
     lastError := None; lastKeyspace := None;
     shards := <["-" := shardOf "-" 1 true false]>
                 (<["-80" := shardOf "-80" 2 true false]> ∅);
     moveTablesState := None |}.


(** Keyspace ["ks"] once the writes of its MoveTables have switched: both
    shards serve and the keyspace waits to be found consistent. *)
Definition switchedKeyspace : keyspaceState :=
  {| keyspace := "ks"; deleted := false; consistent := false;
     lastError := None; lastKeyspace := Some twoShards;
     shards := <["-80" := shardOf "-80" 1 true false]>
                 (<["80-" := shardOf "80-" 2 true false]> ∅);
     moveTablesState :=
       Some {| Typ := MoveTablesRegular; State := MoveTablesSwitched |} |}.

(** Both shards serve, then the routing layer marks ["-80"] not serving
    because a reparent has started. *)
Definition reparentStarted : list (srvtopo.Server * Op) :=
  (bothServing
     ++ [(staticServer plainRecords, OpMarkShardNotServing "ks" "-80" true)])%list.

End examples.

(** * Properties *)

Import discovery.

(** ** Visiting a map *)

Lemma elem_of_rangeMap `{MapRange} {A : Type} (m : gmap string A) k v :
  (k, v) ∈ rangeMap m ↔ m !! k = Some v.
Proof.
  unfold rangeMap. rewrite (range_order_perm A (map_to_list m)).
  apply elem_of_map_to_list.
Qed.

Lemma rangeMap_empty `{MapRange} {A : Type} : rangeMap (∅ : gmap string A) = [].
Proof.
  unfold rangeMap. rewrite map_to_list_empty.
  apply Permutation_nil_r. apply range_order_perm.
Qed.

(** ** beingResharded *)

(** Another shard of the keyspace serves a key range that overlaps [ckr]. *)
Definition overlappingShard (kss : keyspaceState) (currentShard : string)
    (ckr : topodatapb.KeyRange) : Prop :=
  ∃ shard sstate skr,
    shards kss !! shard = Some sstate ∧ shard ≠ currentShard
    ∧ serving sstate = true ∧ validKeyRange shard = Some skr
    ∧ key.KeyRangeIntersect ckr skr = true.

Lemma beingResharded_loop_sound currentShard ckr entries :
  beingResharded_loop currentShard ckr entries = true →
  ∃ shard sstate skr,
    (shard, sstate) ∈ entries ∧ shard ≠ currentShard ∧ serving sstate = true
    ∧ validKeyRange shard = Some skr ∧ key.KeyRangeIntersect ckr skr = true.
Proof.
  induction entries as [|[shard sstate] rest IH]; simpl; [done|].
  assert (Hrest : beingResharded_loop currentShard ckr rest = true →
    ∃ s ss skr, (s, ss) ∈ (shard, sstate) :: rest ∧ s ≠ currentShard
      ∧ serving ss = true ∧ validKeyRange s = Some skr
      ∧ key.KeyRangeIntersect ckr skr = true).
  { intros (s & ss & skr & Hin & Hmore)%IH. exists s, ss, skr.
    split; [by right|done]. }
  destruct (serving sstate) eqn:Hs; simpl; [|done].
  case_bool_decide as Hne; simpl; [done|].
  destruct (validKeyRange shard) as [skr|] eqn:Hv; [|done].
  destruct (key.KeyRangeIntersect ckr skr) eqn:Hi; [|done].
  intros _. exists shard, sstate, skr. split_and!; [by left|done..].
Qed.

Lemma beingResharded_loop_complete currentShard ckr entries :
  (∀ shard sstate, (shard, sstate) ∈ entries → shard ≠ currentShard →
     serving sstate = true → is_Some (validKeyRange shard)) →
  (∃ shard sstate skr,
     (shard, sstate) ∈ entries ∧ shard ≠ currentShard ∧ serving sstate = true
     ∧ validKeyRange shard = Some skr ∧ key.KeyRangeIntersect ckr skr = true) →
  beingResharded_loop currentShard ckr entries = true.
Proof.
  induction entries as [|[shard sstate] rest IH]; intros Hvalid Hex.
  { destruct Hex as (? & ? & ? & Hin & _). by apply elem_of_nil in Hin. }
  assert (Hrest : (∃ s ss skr, (s, ss) ∈ rest ∧ s ≠ currentShard
            ∧ serving ss = true ∧ validKeyRange s = Some skr
            ∧ key.KeyRangeIntersect ckr skr = true) →
          beingResharded_loop currentShard ckr rest = true).
  { apply IH. intros s ss Hin. apply Hvalid. by right. }
  simpl. destruct (serving sstate) eqn:Hs; simpl.
  - case_bool_decide as Heq; simpl.
    + apply Hrest. destruct Hex as (s & ss & skr & Hin & Hne & ?).
      apply elem_of_cons in Hin as [[= -> ->]|Hin]; [done|].
      by exists s, ss, skr.
    + destruct (Hvalid shard sstate) as [skr Hv]; [by left|done|done|].
      rewrite Hv. destruct (key.KeyRangeIntersect ckr skr) eqn:Hi; [done|].
      apply Hrest. destruct Hex as (s & ss & skr' & Hin & Hne & Hsv & Hv' & Hi').
      apply elem_of_cons in Hin as [[= -> ->]|Hin]; [congruence|].
      by exists s, ss, skr'.
  - apply Hrest. destruct Hex as (s & ss & skr & Hin & Hne & Hsv & ?).
    apply elem_of_cons in Hin as [[= -> ->]|Hin]; [congruence|].
    by exists s, ss, skr.
Qed.

(** The claim on [beingResharded] as the specification words it. *)
Definition beingResharded_as_specified : Prop :=
  ∀ (R : MapRange) (kss : keyspaceState) (currentShard : string),
    (deleted kss = true ∨ consistent kss = true ∨ moveTablesInProgress kss = true
     ∨ validKeyRange currentShard = None →
     beingResharded kss currentShard = false)
    ∧ (∀ ckr, deleted kss = false → consistent kss = false →
         moveTablesInProgress kss = false →
         validKeyRange currentShard = Some ckr →
         beingResharded kss currentShard = true
         ↔ overlappingShard kss currentShard ckr).

(** C6, as stated, fails: with the shards ["0"], ["-80"] and ["-40"] all
    serving, [beingResharded "-80"] answers [false] in a run that visits
    ["0"] first, although ["-40"] serves and overlaps ["-80"]. *)
Lemma beingResharded_as_specified_fails : ¬ beingResharded_as_specified.
Proof.
  intros Hclaim.
  destruct (Hclaim examples.backwardRange examples.splittingKeyspace "-80")
    as [_ Hiff].
  assert (Hcode : @beingResharded examples.backwardRange
                    examples.splittingKeyspace "-80" = false)
    by (vm_compute; reflexivity).
  rewrite Hcode in Hiff.
  assert (Hfalse : false = true); [|discriminate Hfalse].
  eapply Hiff; [reflexivity..|].
  exists "-40", (examples.shardOf "-40" 3 true false),
    {| topodatapb.Start := []; topodatapb.End := [64%N] |}.
  split_and!; [vm_compute; reflexivity|discriminate|reflexivity..].
Qed.

(** C6 (amended): [beingResharded] answers [false] when the keyspace is
    deleted or consistent, when a MoveTables of a type other than None is in
    progress, or when the key range of [currentShard] does not parse.
    Otherwise a [true] answer always comes from another serving shard whose
    key range overlaps that of [currentShard]; and when the key range of
    every other serving shard parses, the answer is [true] iff there is such
    a shard. *)
Theorem beingResharded_spec `{MapRange} (kss : keyspaceState) (currentShard : string) :
  (deleted kss = true ∨ consistent kss = true ∨ moveTablesInProgress kss = true
   ∨ validKeyRange currentShard = None →
   beingResharded kss currentShard = false)
  ∧ (∀ ckr, deleted kss = false → consistent kss = false →
       moveTablesInProgress kss = false →
       validKeyRange currentShard = Some ckr →
       (beingResharded kss currentShard = true →
        overlappingShard kss currentShard ckr)
       ∧ ((∀ shard sstate, shards kss !! shard = Some sstate →
             shard ≠ currentShard → serving sstate = true →
             is_Some (validKeyRange shard)) →
          beingResharded kss currentShard = true
          ↔ overlappingShard kss currentShard ckr)).
Proof.
  unfold beingResharded, overlappingShard. split.
  - intros [ -> | [ -> | [ -> | -> ] ] ]; [done| by rewrite orb_true_r ..|].
    by destruct (_ || _).
  - intros ckr -> -> -> ->. simpl.
    assert (Hsound : beingResharded_loop currentShard ckr (rangeMap (shards kss)) = true →
      ∃ shard sstate skr, shards kss !! shard = Some sstate ∧ shard ≠ currentShard
        ∧ serving sstate = true ∧ validKeyRange shard = Some skr
        ∧ key.KeyRangeIntersect ckr skr = true).
    { intros (s & ss & skr & Hin & Hmore)%beingResharded_loop_sound.
      exists s, ss, skr. by rewrite <-elem_of_rangeMap. }
    split; [done|]. intros Hvalid. split; [done|].
    intros (s & ss & skr & Hin & Hmore). apply beingResharded_loop_complete.
    + intros s' ss' Hin'%elem_of_rangeMap. by apply Hvalid.
    + exists s, ss, skr. by rewrite elem_of_rangeMap.
Qed.

Lemma beingResharded_spec_witness :
  deleted examples.reshardingKeyspace = false
  ∧ consistent examples.reshardingKeyspace = false
  ∧ moveTablesInProgress examples.reshardingKeyspace = false
  ∧ validKeyRange "-80"
    = Some {| topodatapb.Start := []; topodatapb.End := [128%N] |}
  ∧ (∀ shard sstate, shards examples.reshardingKeyspace !! shard = Some sstate →
       shard ≠ "-80" → serving sstate = true → is_Some (validKeyRange shard))
  ∧ (@beingResharded examples.forwardRange examples.reshardingKeyspace "-80" = true
     ↔ overlappingShard examples.reshardingKeyspace "-80"
         {| topodatapb.Start := []; topodatapb.End := [128%N] |}).
Proof.
  assert (Hvalid : ∀ shard sstate,
    shards examples.reshardingKeyspace !! shard = Some sstate →
    shard ≠ "-80" → serving sstate = true → is_Some (validKeyRange shard)).
  { intros shard sstate Hl Hne _. simpl in Hl.
    apply lookup_insert_Some in Hl as [[<- _]|[_ Hl]]; [by eexists|].
    apply lookup_insert_Some in Hl as [[<- _]|[_ Hl]]; [done|].
    by rewrite lookup_empty in Hl. }
  split_and!; [reflexivity..|exact Hvalid|].
  apply (proj2 (@beingResharded_spec examples.forwardRange
                  examples.reshardingKeyspace "-80")
           {| topodatapb.Start := []; topodatapb.End := [128%N] |});
    [reflexivity..|exact Hvalid].
Defined.

(** ** ensureConsistentLocked *)

Lemma activeShards_spec shards_ refs acc active :
  activeShards shards_ refs acc = Some active →
  (∀ r, r ∈ refs →
     ∃ sstate, shards_ !! topodatapb.Name r = Some sstate ∧ serving sstate = true)
  ∧ (∀ s, default false (active !! s) = true
          ↔ default false (acc !! s) = true ∨ s ∈ topodatapb.Name <$> refs).
Proof.
  revert acc. induction refs as [|r rest IH]; intros acc; simpl.
  - intros [= ->]. split; [by intros r Hr%elem_of_nil|].
    intros s. split; [by left|]. intros [?|Hin%elem_of_nil]; done.
  - destruct (shards_ !! topodatapb.Name r) as [sstate|] eqn:Hl; [|done].
    destruct (serving sstate) eqn:Hs; [|done].
    intros [Hrefs Hact]%IH. split.
    + intros r' [->|Hin]%elem_of_cons; [by exists sstate|by apply Hrefs].
    + intros s. rewrite Hact, elem_of_cons.
      destruct (decide (s = topodatapb.Name r)) as [->|Hne].
      * rewrite lookup_insert_eq. simpl. tauto.
      * rewrite lookup_insert_ne by done. intuition congruence.
Qed.

Lemma servingOutsidePartition_false active entries :
  servingOutsidePartition active entries = false →
  ∀ s sstate, (s, sstate) ∈ entries → serving sstate = true →
    default false (active !! s) = true.
Proof.
  induction entries as [|[s' ss'] rest IH]; simpl.
  - by intros _ s sstate Hin%elem_of_nil.
  - destruct (serving ss' && negb (default false (active !! s'))) eqn:Hc; [done|].
    intros Hrest s sstate [[= -> ->]|Hin]%elem_of_cons Hs.
    + rewrite Hs in Hc. simpl in Hc. by apply negb_false_iff in Hc.
    + by eapply IH.
Qed.

Lemma resolveShards_lookup entries events shards_ s sstate :
  (resolveShards entries events shards_).2 !! s = Some sstate
  ↔ shards_ !! s = Some sstate
    ∧ ∀ sstate', (s, sstate') ∈ entries → serving sstate' = true.
Proof.
  revert events shards_. induction entries as [|[s' ss'] rest IH];
    intros events shards_; simpl.
  - split; [|by intros [? _]]. intros ?. split; [done|].
    by intros ? ?%elem_of_nil.
  - rewrite IH. destruct (serving ss') eqn:Hs; simpl.
    + split; intros [Hl Hall]; (split; [done|]).
      * intros sstate' [[= -> ->]|Hin]%elem_of_cons; [done|by apply Hall].
      * intros sstate' Hin. apply Hall. by right.
    + split.
      * intros [Hl Hall]. apply lookup_delete_Some in Hl as [Hne Hl].
        split; [done|].
        intros sstate' [[= -> ->]|Hin]%elem_of_cons; [done|by apply Hall].
      * intros [Hl Hall]. split.
        -- apply lookup_delete_Some. split; [|done]. intros ->.
           specialize (Hall ss'). rewrite Hs in Hall.
           by discriminate Hall; left.
        -- intros sstate' Hin. apply Hall. by right.
Qed.

(** The shards that are left once a keyspace is found consistent are the
    serving ones. *)
Lemma resolveShards_rangeMap `{MapRange} events (shards_ : gmap string shardState)
    s sstate :
  (resolveShards (rangeMap shards_) events shards_).2 !! s = Some sstate
  ↔ shards_ !! s = Some sstate ∧ serving sstate = true.
Proof.
  rewrite resolveShards_lookup. split; intros [Hl Hall]; (split; [done|]).
  - apply Hall. by apply elem_of_rangeMap.
  - intros sstate' Hin%elem_of_rangeMap. congruence.
Qed.

(** The outcome of [ensureConsistentLocked]: the state is either left as it
    is, or the keyspace is found consistent and an event is broadcast. *)
Inductive ensured `{MapRange} (localCell : string) (kss : keyspaceState)
  : keyspaceState * option KeyspaceEvent → Prop :=
| ensured_same : ensured localCell kss (kss, None)
| ensured_resolved primary active evs shards' :
    consistent kss = false →
    moveTablesPending kss = false →
    topoproto.SrvKeyspaceGetPartition (lastKeyspace kss) topodatapb.PRIMARY
      = Some primary →
    topodatapb.ShardTabletControls primary = [] →
    activeShards (shards kss) (topodatapb.ShardReferences primary) ∅ = Some active →
    servingOutsidePartition active (rangeMap (shards kss)) = false →
    resolveShards (rangeMap (shards kss)) [] (shards kss) = (evs, shards') →
    ensured localCell kss
      (set_shards shards' (set_moveTablesState None (set_consistent true kss)),
       Some {| Cell := localCell; Keyspace := keyspace kss; Shards := evs;
               evMoveTablesState :=
                 match moveTablesState kss with
                 | Some mts => mts
                 | None => {| Typ := MoveTablesNone; State := MoveTablesUnknown |}
                 end |}).

Lemma ensureConsistentLocked_ensured `{MapRange} localCell kss :
  ensured localCell kss (ensureConsistentLocked localCell kss).
Proof.
  unfold ensureConsistentLocked.
  destruct (consistent kss) eqn:Hc; [constructor|].
  destruct (moveTablesPending kss) eqn:Hp; [constructor|].
  destruct (topoproto.SrvKeyspaceGetPartition _ _) as [primary|] eqn:Hprim;
    [|constructor].
  destruct (topodatapb.ShardTabletControls primary) as [|stc stcs] eqn:Hstc;
    simpl; [|constructor].
  destruct (activeShards _ _ _) as [active|] eqn:Hact; [|constructor].
  destruct (servingOutsidePartition _ _) eqn:Hout; [constructor|].
  destruct (resolveShards _ _ _) as [evs shards'] eqn:Hres.
  by eapply ensured_resolved.
Qed.

Lemma ensureConsistentLocked_consistent `{MapRange} localCell kss :
  consistent kss = true → ensureConsistentLocked localCell kss = (kss, None).
Proof. unfold ensureConsistentLocked. by intros ->. Qed.

(** [ensureConsistentLocked] changes no shard state; it only drops shards
    that are not serving. *)
Lemma ensureConsistentLocked_shards `{MapRange} localCell kss s sstate :
  shards (ensureConsistentLocked localCell kss).1 !! s = Some sstate →
  shards kss !! s = Some sstate.
Proof.
  destruct (ensureConsistentLocked_ensured localCell kss)
    as [|primary active evs shards' _ _ _ _ _ _ Hres]; [done|].
  simpl. intros Hl.
  pose proof (resolveShards_rangeMap [] (shards kss) s sstate) as Hiff.
  rewrite Hres in Hiff. by apply Hiff in Hl as [? _].
Qed.

Lemma ensureConsistentLocked_serving `{MapRange} localCell kss s sstate :
  shards kss !! s = Some sstate → serving sstate = true →
  shards (ensureConsistentLocked localCell kss).1 !! s = Some sstate.
Proof.
  destruct (ensureConsistentLocked_ensured localCell kss)
    as [|primary active evs shards' _ _ _ _ _ _ Hres]; [done|].
  simpl. intros Hl Hs.
  pose proof (resolveShards_rangeMap [] (shards kss) s sstate) as Hiff.
  rewrite Hres in Hiff. by apply Hiff.
Qed.

Lemma ensureConsistentLocked_frame `{MapRange} localCell kss :
  keyspace (ensureConsistentLocked localCell kss).1 = keyspace kss
  ∧ deleted (ensureConsistentLocked localCell kss).1 = deleted kss
  ∧ lastError (ensureConsistentLocked localCell kss).1 = lastError kss
  ∧ lastKeyspace (ensureConsistentLocked localCell kss).1 = lastKeyspace kss.
Proof. by destruct (ensureConsistentLocked_ensured localCell kss). Qed.

(** ** Properties of a keyspace state that every operation keeps *)

Section lifting.
Context `{MapRange}.
Variable P : keyspaceState → Prop.
Hypothesis P_empty : ∀ k, P (emptyKeyspaceState k).
Hypothesis P_onHealthCheck :
  ∀ cell kss th, P kss → P (onHealthCheck cell kss th).1.
Hypothesis P_onSrvKeyspace :
  ∀ cell kss newKeyspace newError,
    P kss → P (onSrvKeyspace cell kss newKeyspace newError).1.1.
Hypothesis P_onSrvVSchema :
  ∀ ts cell kss vs err, P kss → P (onSrvVSchema ts cell kss vs err).1.1.
Hypothesis P_markNotServing :
  ∀ kss shard sstate isReparentErr,
    P kss → shards kss !! shard = Some sstate →
    P (markNotServing kss shard sstate isReparentErr).

Definition allKeyspaces (kew : KeyspaceEventWatcher) : Prop :=
  ∀ k kss, keyspaces kew !! k = Some kss → P kss.

Lemma deliver_keeps {V : Type}
    (cb : keyspaceState → V → keyspaceState * option KeyspaceEvent * bool) ds kss :
  (∀ kss d, P kss → P (cb kss d).1.1) → P kss → P (deliver cb kss ds).1.
Proof.
  intros Hcb. revert kss. induction ds as [|d rest IH]; intros kss HP; [done|].
  simpl. specialize (Hcb kss d HP).
  destruct (cb kss d) as [[kss1 ev] continue]. simpl in Hcb.
  destruct continue; [|done].
  specialize (IH kss1 Hcb). by destruct (deliver cb kss1 rest).
Qed.

Lemma newKeyspaceState_keeps ts cell k : P (newKeyspaceState ts cell k).1.
Proof.
  unfold newKeyspaceState.
  pose proof (deliver_keeps (λ kss d, onSrvKeyspace cell kss d.1 d.2)
                (srvtopo.WatchSrvKeyspace ts cell k) (emptyKeyspaceState k)) as H1.
  destruct (deliver _ (emptyKeyspaceState k) _) as [kss1 evs1].
  pose proof (deliver_keeps (λ kss d, onSrvVSchema ts cell kss d.1 d.2)
                (srvtopo.WatchSrvVSchema ts cell) kss1) as H2.
  destruct (deliver _ kss1 _) as [kss2 evs2]. simpl in *.
  apply H2; [intros; by apply P_onSrvVSchema|].
  apply H1; [intros; by apply P_onSrvKeyspace|]. apply P_empty.
Qed.

Lemma allKeyspaces_insert kew k kss :
  allKeyspaces kew → P kss →
  allKeyspaces (set_keyspaces (<[k := kss]> (keyspaces kew)) kew).
Proof.
  intros Hall HP k' kss'. simpl.
  destruct (decide (k = k')) as [->|Hne].
  - rewrite lookup_insert_eq. by intros [= <-].
  - rewrite lookup_insert_ne by done. apply Hall.
Qed.

Lemma allKeyspaces_delete kew k :
  allKeyspaces kew → allKeyspaces (set_keyspaces (delete k (keyspaces kew)) kew).
Proof.
  intros Hall k' kss'. simpl. intros [_ Hl]%lookup_delete_Some. by eapply Hall.
Qed.

Lemma getKeyspaceStatus_keeps ts kew k :
  allKeyspaces kew →
  allKeyspaces (getKeyspaceStatus ts kew k).1.2
  ∧ ∀ kss, (getKeyspaceStatus ts kew k).1.1 = Some kss → P kss.
Proof.
  intros Hall. unfold getKeyspaceStatus.
  destruct (keyspaces kew !! k) as [kss|] eqn:Hl.
  - destruct (deleted kss); simpl.
    + split; [by apply allKeyspaces_delete|done].
    + split; [done|]. intros ? [= <-]. by eapply Hall.
  - pose proof (newKeyspaceState_keeps ts (localCell kew) k) as Hnew.
    destruct (newKeyspaceState ts (localCell kew) k) as [kss evs]. simpl in Hnew.
    destruct (deleted kss); simpl.
    + split; [|done]. apply (allKeyspaces_delete (set_keyspaces _ kew)).
      by apply allKeyspaces_insert.
    + split; [by apply allKeyspaces_insert|]. by intros ? [= <-].
Qed.

Lemma callback_keeps kew k cb :
  (∀ kss, P kss → P (cb kss).1.1) →
  allKeyspaces kew → allKeyspaces (callback kew k cb).1.
Proof.
  intros Hcb Hall. unfold callback.
  destruct (keyspaces kew !! k) as [kss|] eqn:Hl; [|done].
  specialize (Hcb kss (Hall _ _ Hl)).
  destruct (cb kss) as [[kss' ev] b]. simpl in *. by apply allKeyspaces_insert.
Qed.

Lemma step_keeps ts kew op : allKeyspaces kew → allKeyspaces (step ts kew op).1.
Proof.
  intros Hall. destruct op as [th|k nk ne|k vs err|k shard b|t|t|k]; simpl.
  - unfold processHealthCheck.
    destruct (getKeyspaceStatus_keeps ts kew (querypb.Keyspace (Target th)) Hall)
      as [Hall' Hkss].
    destruct (getKeyspaceStatus _ _ _) as [[[kss|] kew'] evs]; simpl in *; [|done].
    pose proof (P_onHealthCheck (localCell kew') kss th (Hkss _ eq_refl)) as HP.
    destruct (onHealthCheck _ kss th) as [kss' ev]. simpl in *.
    by apply allKeyspaces_insert.
  - apply callback_keeps; [|done]. intros. by apply P_onSrvKeyspace.
  - apply callback_keeps; [|done]. intros. by apply P_onSrvVSchema.
  - unfold MarkShardNotServing.
    destruct (getKeyspaceStatus_keeps ts kew k Hall) as [Hall' Hkss].
    destruct (getKeyspaceStatus _ _ _) as [[[kss|] kew'] evs]; simpl in *; [|done].
    destruct (shards kss !! shard) as [sstate|] eqn:Hl; simpl; [|done].
    apply allKeyspaces_insert; [done|]. apply P_markNotServing; [|done].
    by apply Hkss.
  - unfold TargetIsBeingResharded. case_bool_decide; simpl; [|done].
    destruct (getKeyspaceStatus_keeps ts kew (querypb.Keyspace t) Hall) as [Hall' _].
    by destruct (getKeyspaceStatus _ _ _) as [[[kss|] kew'] evs].
  - unfold ShouldStartBufferingForTarget. case_bool_decide; simpl; [|done].
    destruct (getKeyspaceStatus_keeps ts kew (querypb.Keyspace t) Hall) as [Hall' _].
    destruct (getKeyspaceStatus _ _ _) as [[[kss|] kew'] evs]; simpl in *; [|done].
    by destruct (shards kss !! _).
  - destruct (getKeyspaceStatus_keeps ts kew k Hall) as [Hall' _].
    by destruct (getKeyspaceStatus _ _ _) as [[? kew'] evs].
Qed.

Lemma run_keeps kew ops : allKeyspaces kew → allKeyspaces (run kew ops).1.
Proof.
  revert kew. induction ops as [|[ts op] rest IH]; intros kew Hall; [done|].
  simpl. pose proof (step_keeps ts kew op Hall) as Hstep.
  destruct (step ts kew op) as [kew1 evs1]. simpl in Hstep.
  specialize (IH kew1 Hstep). by destruct (run kew1 rest).
Qed.

Lemma allKeyspaces_new cell : allKeyspaces (NewKeyspaceEventWatcher cell).
Proof. intros k kss. simpl. by rewrite lookup_empty. Qed.

End lifting.

(** ** The consistency invariant *)

(** What holds of a keyspace that is marked consistent: the PRIMARY
    partition of the last snapshot names exactly the serving shards, carries
    no [ShardTabletControls], and no MoveTables of a type other than None is
    recorded. *)
Definition consistencyInv (kss : keyspaceState) : Prop :=
  consistent kss = true →
  ∃ primary,
    topoproto.SrvKeyspaceGetPartition (lastKeyspace kss) topodatapb.PRIMARY
      = Some primary
    ∧ (∀ s, s ∈ topodatapb.Name <$> topodatapb.ShardReferences primary
            ↔ ∃ sstate, shards kss !! s = Some sstate ∧ serving sstate = true)
    ∧ topodatapb.ShardTabletControls primary = []
    ∧ moveTablesInProgress kss = false.

Lemma ensureConsistentLocked_inv `{MapRange} localCell kss :
  consistencyInv kss → consistencyInv (ensureConsistentLocked localCell kss).1.
Proof.
  intros Hinv.
  destruct (ensureConsistentLocked_ensured localCell kss)
    as [|primary active evs shards' Hc Hp Hprim Hstc Hact Hout Hres]; [done|].
  intros _. exists primary. simpl. split_and!; [done| |done..].
  apply activeShards_spec in Hact as [Hrefs Hact].
  pose proof (servingOutsidePartition_false _ _ Hout) as Hin.
  intros s.
  pose proof (λ sstate, resolveShards_rangeMap [] (shards kss) s sstate) as Hiff.
  rewrite Hres in Hiff. simpl in Hiff. split.
  - intros (r & -> & Hr)%list_elem_of_fmap.
    destruct (Hrefs r Hr) as (sstate & Hl & Hs).
    exists sstate. split; [|done]. by apply Hiff.
  - intros (sstate & [Hl Hs]%Hiff & _).
    specialize (Hin s sstate). rewrite elem_of_rangeMap in Hin.
    apply Hact in Hin as [Hemp|?]; [|done..].
    by rewrite lookup_empty in Hemp.
Qed.

(** A health report that leaves the [consistent] bit set has changed neither
    the serving bit nor the reparent timestamp of the shard. *)
Lemma updateShard_consistent th sstate c :
  (updateShard th sstate c).2 = true →
  c = true ∧ Serving th = serving sstate
  ∧ serving (updateShard th sstate c).1 = serving sstate
  ∧ externallyReparented (updateShard th sstate c).1 = externallyReparented sstate.
Proof.
  unfold updateShard.
  destruct sstate as [tg sv wfr ext cp], th as [tb tgt thsv term]; simpl.
  destruct sv, thsv, wfr; simpl;
    repeat (case_bool_decide; simpl); try done;
    repeat (destruct (_ >? _)%Z; simpl); try done.
  all: try (intros ->; done).
Qed.

Lemma consistencyInv_inconsistent kss : consistent kss = false → consistencyInv kss.
Proof. intros Hc. unfold consistencyInv. by rewrite Hc. Qed.

Lemma onHealthCheck_inv `{MapRange} localCell kss th :
  consistencyInv kss → consistencyInv (onHealthCheck localCell kss th).1.
Proof.
  intros Hinv. unfold onHealthCheck. case_bool_decide as Hprim; simpl; [|done].
  set (shard := querypb.Shard (Target th)).
  destruct (shards kss !! shard) as [sstate|] eqn:Hl.
  - pose proof (updateShard_consistent th sstate (consistent kss)) as Hupd.
    destruct (updateShard th sstate (consistent kss)) as [sstate' c'].
    simpl in Hupd. apply ensureConsistentLocked_inv.
    destruct c'; [|by apply consistencyInv_inconsistent].
    destruct Hupd as (Hc & _ & Hs & _); [done|].
    intros _. destruct (Hinv Hc) as (primary & Hp & Hnames & Hstc & Hmt).
    exists primary. simpl. split_and!; [done| |done..].
    intros s. rewrite Hnames. destruct (decide (s = shard)) as [->|Hne].
    + rewrite lookup_insert_eq. split.
      * intros (ss & Hl' & Hs'). exists sstate'. split; [done|]. congruence.
      * intros (ss & [= <-] & Hs'). exists sstate. split; [done|]. congruence.
    + by rewrite lookup_insert_ne.
  - destruct (Serving th) eqn:Hserving; simpl; [|done].
    match goal with
    | |- context [updateShard th ?fresh ?c] =>
        pose proof (updateShard_consistent th fresh c) as Hupd;
        destruct (updateShard th fresh c) as [sstate' c']
    end.
    simpl in Hupd. apply ensureConsistentLocked_inv.
    destruct c'; [|by apply consistencyInv_inconsistent].
    destruct Hupd as (_ & Hsv & _); [done|]. simpl in Hsv. congruence.
Qed.

Lemma onSrvKeyspace_inv `{MapRange} localCell kss newKeyspace newError :
  consistencyInv kss →
  consistencyInv (onSrvKeyspace localCell kss newKeyspace newError).1.1.
Proof.
  intros Hinv. unfold onSrvKeyspace.
  destruct (topo.IsErrType newError topo.NoNode); [done|].
  destruct newError as [err|]; [done|].
  case_bool_decide as Heq; [done|].
  match goal with
  | |- context [ensureConsistentLocked localCell ?k] =>
      pose proof (ensureConsistentLocked_inv localCell k) as Hens;
      destruct (ensureConsistentLocked localCell k) as [kss' ev]
  end.
  simpl in *. apply Hens. clear Hens.
  case_bool_decide as Hprim; simpl; [|by apply consistencyInv_inconsistent].
  intros Hc. destruct (Hinv Hc) as (primary & Hp & Hrest).
  exists primary. split; [|done]. simpl.
  destruct (lastKeyspace kss) as [old|]; [|done].
  rewrite Hp in Hprim. by destruct newKeyspace.
Qed.

Lemma getMoveTablesStatus_error `{MapRange} ts kss vs mt err :
  getMoveTablesStatus ts kss vs = (mt, Some err) →
  mt = {| Typ := MoveTablesNone; State := MoveTablesUnknown |}.
Proof.
  unfold getMoveTablesStatus. destruct (_ && _); [done|].
  destruct (srvtopo.GetTopoServer ts) as [e|tsrv]; [by intros [= <- _]|].
  destruct (fetchShards _ _ _); [by intros [= <- _]|done].
Qed.

Lemma onSrvVSchema_inv `{MapRange} ts localCell kss vs err :
  consistencyInv kss → consistencyInv (onSrvVSchema ts localCell kss vs err).1.1.
Proof.
  intros Hinv. unfold onSrvVSchema. destruct vs as [vs|]; [|done].
  destruct (getMoveTablesStatus ts kss vs) as [mtState kerr].
  case_bool_decide as Htyp; simpl.
  - intros Hc. destruct (Hinv Hc) as (primary & Hp & Hnames & Hstc & _).
    exists primary. split_and!; [done..|].
    unfold moveTablesInProgress. simpl. by rewrite bool_decide_eq_true_2.
  - match goal with
    | |- context [ensureConsistentLocked localCell ?k] =>
        pose proof (ensureConsistentLocked_inv localCell k) as Hens;
        destruct (ensureConsistentLocked localCell k) as [kss' ev]
    end.
    simpl in *. apply Hens. by apply consistencyInv_inconsistent.
Qed.

Lemma consistencyInv_run `{MapRange} cell ops :
  allKeyspaces consistencyInv (run (NewKeyspaceEventWatcher cell) ops).1.
Proof.
  apply run_keeps; [..|apply allKeyspaces_new].
  - intros k. by apply consistencyInv_inconsistent.
  - intros. by apply onHealthCheck_inv.
  - intros. by apply onSrvKeyspace_inv.
  - intros. by apply onSrvVSchema_inv.
  - intros. by apply consistencyInv_inconsistent.
Qed.

(** The invariant on a consistent keyspace as the specification words it,
    with [moveTablesState] nil. *)
Definition consistency_as_specified : Prop :=
  ∀ (R : MapRange) (cell : string) (ops : list (srvtopo.Server * Op))
    (k : string) (kss : keyspaceState),
    keyspaces (run (NewKeyspaceEventWatcher cell) ops).1 !! k = Some kss →
    consistent kss = true →
    ∃ primary,
      topoproto.SrvKeyspaceGetPartition (lastKeyspace kss) topodatapb.PRIMARY
        = Some primary
      ∧ (∀ s, s ∈ topodatapb.Name <$> topodatapb.ShardReferences primary
              ↔ ∃ sstate, shards kss !! s = Some sstate ∧ serving sstate = true)
      ∧ topodatapb.ShardTabletControls primary = []
      ∧ moveTablesState kss = None.

(** C2, as stated, fails: once both shards of ["ks"] serve the keyspace is
    consistent, and a delivery of a vschema without routing rules then
    stores a MoveTables state of type None, which is not nil, and leaves the
    keyspace consistent. *)
Lemma consistency_as_specified_fails : ¬ consistency_as_specified.
Proof.
  intros Hclaim.
  pose proof (Hclaim examples.forwardRange "aa"
    (examples.bothServing
       ++ [(examples.staticServer examples.plainRecords,
            OpSrvVSchema "ks" (Some examples.noRules) None)])%list
    "ks") as Hks.
  vm_compute in Hks.
  destruct (Hks _ eq_refl eq_refl) as (primary & _ & _ & _ & Hnil).
  discriminate Hnil.
Qed.

(** C2 (amended): in every state that the watcher reaches from its start by
    health-check, topology and vschema callbacks, calls of
    [MarkShardNotServing] and calls of the query surface, a keyspace that is
    marked consistent has a PRIMARY partition in its last snapshot whose
    shard names are exactly the shards with [serving = true], that partition
    carries no [ShardTabletControls], and [moveTablesState] is nil or of
    type None. *)
Theorem consistency_invariant `{MapRange} (cell : string)
    (ops : list (srvtopo.Server * Op)) (k : string) (kss : keyspaceState) :
  keyspaces (run (NewKeyspaceEventWatcher cell) ops).1 !! k = Some kss →
  consistent kss = true →
  ∃ primary,
    topoproto.SrvKeyspaceGetPartition (lastKeyspace kss) topodatapb.PRIMARY
      = Some primary
    ∧ (∀ s, s ∈ topodatapb.Name <$> topodatapb.ShardReferences primary
            ↔ ∃ sstate, shards kss !! s = Some sstate ∧ serving sstate = true)
    ∧ topodatapb.ShardTabletControls primary = []
    ∧ (moveTablesState kss = None
       ∨ ∃ mts, moveTablesState kss = Some mts ∧ Typ mts = MoveTablesNone).
Proof.
  intros Hl Hc.
  destruct (consistencyInv_run cell ops k kss Hl Hc)
    as (primary & Hp & Hnames & Hstc & Hmt).
  exists primary. split_and!; [done..|].
  unfold moveTablesInProgress in Hmt.
  destruct (moveTablesState kss) as [mts|]; [right|by left].
  exists mts. split; [done|].
  apply negb_false_iff in Hmt. by apply bool_decide_eq_true in Hmt.
Qed.

Lemma consistency_invariant_witness :
  ∃ kss,
    keyspaces (@run examples.forwardRange (NewKeyspaceEventWatcher "aa")
                 examples.bothServing).1 !! "ks" = Some kss
    ∧ consistent kss = true
    ∧ ∃ primary,
        topoproto.SrvKeyspaceGetPartition (lastKeyspace kss) topodatapb.PRIMARY
          = Some primary
        ∧ (∀ s, s ∈ topodatapb.Name <$> topodatapb.ShardReferences primary
                ↔ ∃ sstate, shards kss !! s = Some sstate ∧ serving sstate = true)
        ∧ topodatapb.ShardTabletControls primary = []
        ∧ (moveTablesState kss = None
           ∨ ∃ mts, moveTablesState kss = Some mts ∧ Typ mts = MoveTablesNone).
Proof.
  eexists. split; [vm_compute; reflexivity|]. split; [reflexivity|].
  apply (@consistency_invariant examples.forwardRange "aa" examples.bothServing "ks");
    [vm_compute; reflexivity|reflexivity].
Defined.

(** ** ShouldStartBufferingForTarget *)

Lemma ensureConsistentLocked_shards_empty `{MapRange} localCell kss :
  shards kss = ∅ → shards (ensureConsistentLocked localCell kss).1 = ∅.
Proof.
  intros Hemp. apply map_empty. intros s.
  destruct (shards _ !! s) as [sstate|] eqn:Hl; [|done].
  apply ensureConsistentLocked_shards in Hl. by rewrite Hemp, lookup_empty in Hl.
Qed.

(** A keyspace state that has just been allocated tracks no shard, whatever
    the topology server delivers while the watches are started. *)
Lemma newKeyspaceState_shards `{MapRange} ts cell k :
  shards (newKeyspaceState ts cell k).1 = ∅.
Proof.
  apply (newKeyspaceState_keeps (λ kss, shards kss = ∅)); [done|..].
  - intros c kss nk ne Hemp. unfold onSrvKeyspace.
    destruct (topo.IsErrType ne topo.NoNode); [done|].
    destruct ne; [done|]. case_bool_decide; [done|].
    match goal with
    | |- context [ensureConsistentLocked c ?k] =>
        pose proof (ensureConsistentLocked_shards_empty c k) as Hens;
        destruct (ensureConsistentLocked c k) as [kss' ev]
    end.
    simpl in *. apply Hens. by case_bool_decide.
  - intros ts' c kss vs err Hemp. unfold onSrvVSchema.
    destruct vs as [vs|]; [|done].
    destruct (getMoveTablesStatus ts' kss vs) as [mt kerr].
    case_bool_decide; simpl; [done|].
    match goal with
    | |- context [ensureConsistentLocked c ?k] =>
        pose proof (ensureConsistentLocked_shards_empty c k) as Hens;
        destruct (ensureConsistentLocked c k) as [kss' ev]
    end.
    simpl in *. by apply Hens.
Qed.

(** [getKeyspaceStatus] on a keyspace that is tracked and not deleted
    returns its state and changes nothing. *)
Lemma getKeyspaceStatus_tracked `{MapRange} ts kew k kss :
  keyspaces kew !! k = Some kss → deleted kss = false →
  getKeyspaceStatus ts kew k = (Some kss, kew, []).
Proof. intros Hl Hd. unfold getKeyspaceStatus. by rewrite Hl, Hd. Qed.

(** On a keyspace marked deleted it evicts the entry and returns nil. *)
Lemma getKeyspaceStatus_deleted `{MapRange} ts kew k kss :
  keyspaces kew !! k = Some kss → deleted kss = true →
  getKeyspaceStatus ts kew k
  = (None, set_keyspaces (delete k (keyspaces kew)) kew, []).
Proof. intros Hl Hd. unfold getKeyspaceStatus. by rewrite Hl, Hd. Qed.

(** On a keyspace that is not tracked it returns nil or a state without
    shards. *)
Lemma getKeyspaceStatus_untracked `{MapRange} ts kew k kss :
  keyspaces kew !! k = None →
  (getKeyspaceStatus ts kew k).1.1 = Some kss → shards kss = ∅.
Proof.
  intros Hl. unfold getKeyspaceStatus. rewrite Hl.
  pose proof (newKeyspaceState_shards ts (localCell kew) k) as Hemp.
  destruct (newKeyspaceState ts (localCell kew) k) as [kss' evs].
  destruct (deleted kss'); simpl; [done|]. by intros [= <-].
Qed.

(** The conditions under which buffering starts. *)
Definition bufferingConditions (kew : KeyspaceEventWatcher) (target_ : querypb.Target)
  : Prop :=
  querypb.TabletType target_ = topodatapb.PRIMARY
  ∧ ∃ ks state,
      keyspaces kew !! querypb.Keyspace target_ = Some ks
      ∧ deleted ks = false
      ∧ shards ks !! querypb.Shard target_ = Some state
      ∧ currentPrimary state ≠ None
      ∧ externallyReparented state ≠ 0%Z
      ∧ serving state = false
      ∧ consistent ks = false.

(** The claim on [ShouldStartBufferingForTarget] as the specification words
    it: the alias of every tracked shard is returned, whatever the target. *)
Definition ShouldStartBufferingForTarget_as_specified : Prop :=
  ∀ (R : MapRange) (ts : srvtopo.Server) (kew : KeyspaceEventWatcher)
    (target_ : querypb.Target),
    ((ShouldStartBufferingForTarget ts kew target_).1.1.2 = true
     ↔ bufferingConditions kew target_)
    ∧ ∀ ks state,
        keyspaces kew !! querypb.Keyspace target_ = Some ks →
        deleted ks = false →
        shards ks !! querypb.Shard target_ = Some state →
        (ShouldStartBufferingForTarget ts kew target_).1.1.1 = currentPrimary state.

(** C1, as stated, fails: for the REPLICA target of the tracked shard
    ["ks/-80"], whose stored primary is tablet 1, the alias returned is nil. *)
Lemma ShouldStartBufferingForTarget_as_specified_fails :
  ¬ ShouldStartBufferingForTarget_as_specified.
Proof.
  intros Hclaim.
  destruct (Hclaim examples.forwardRange (examples.staticServer examples.plainRecords)
              examples.failoverWatcher (examples.replicaTarget "ks" "-80"))
    as [_ Halias].
  specialize (Halias examples.failoverKeyspace
                (examples.shardOf "-80" 1 false true)).
  assert (Hnil : (@ShouldStartBufferingForTarget examples.forwardRange
                   (examples.staticServer examples.plainRecords)
                   examples.failoverWatcher
                   (examples.replicaTarget "ks" "-80")).1.1.1 = None)
    by reflexivity.
  rewrite Hnil in Halias.
  assert (Habs : None = currentPrimary (examples.shardOf "-80" 1 false true)).
  { apply Halias; [vm_compute; reflexivity|reflexivity|vm_compute; reflexivity]. }
  discriminate Habs.
Qed.

(** C1 (amended): the boolean of [ShouldStartBufferingForTarget] is true iff
    the target is PRIMARY, its keyspace is tracked and not deleted, its
    shard is in the shard map of the keyspace, and that shard state has a
    non-nil [currentPrimary], [externallyReparented != 0] and
    [serving = false] while the keyspace is not consistent.  For a PRIMARY
    target whose shard is tracked the alias returned is the stored
    [currentPrimary], whatever the boolean; for a target of another tablet
    type the alias is nil. *)
Theorem ShouldStartBufferingForTarget_spec `{MapRange} (ts : srvtopo.Server)
    (kew : KeyspaceEventWatcher) (target_ : querypb.Target) :
  ((ShouldStartBufferingForTarget ts kew target_).1.1.2 = true
   ↔ bufferingConditions kew target_)
  ∧ (∀ ks state,
       querypb.TabletType target_ = topodatapb.PRIMARY →
       keyspaces kew !! querypb.Keyspace target_ = Some ks →
       deleted ks = false →
       shards ks !! querypb.Shard target_ = Some state →
       (ShouldStartBufferingForTarget ts kew target_).1.1.1 = currentPrimary state)
  ∧ (querypb.TabletType target_ ≠ topodatapb.PRIMARY →
     (ShouldStartBufferingForTarget ts kew target_).1.1.1 = None).
Proof.
  unfold ShouldStartBufferingForTarget, bufferingConditions.
  case_bool_decide as Hprim; simpl.
  2:{ split_and!; [|done..]. split; [done|]. by intros [? _]. }
  split_and!; [|intros ks state _ Hl Hd Hs|done].
  - destruct (keyspaces kew !! querypb.Keyspace target_) as [ks|] eqn:Hl.
    + destruct (deleted ks) eqn:Hd.
      * rewrite (getKeyspaceStatus_deleted ts kew _ ks Hl Hd). simpl.
        split; [done|]. intros (_ & ks' & state & [= <-] & ? & _). congruence.
      * rewrite (getKeyspaceStatus_tracked ts kew _ ks Hl Hd).
        destruct (shards ks !! querypb.Shard target_) as [state|] eqn:Hs; simpl.
        -- rewrite !andb_true_iff, !negb_true_iff, bool_decide_eq_false,
             bool_decide_eq_true.
           split.
           ++ intros [[[? ?] ?] ?]. split; [done|]. by exists ks, state.
           ++ intros (_ & ks' & state' & [= <-] & _ & Hs' & ? & ? & ? & ?).
              rewrite Hs in Hs'. by injection Hs' as <-.
        -- split; [done|]. intros (_ & ks' & state' & [= <-] & _ & Hs' & _).
           congruence.
    + pose proof (λ ks, getKeyspaceStatus_untracked ts kew _ ks Hl) as Hemp.
      destruct (getKeyspaceStatus _ _ _) as [[[ks|] kew'] evs]; simpl in *.
      * rewrite (Hemp ks eq_refl), lookup_empty. simpl.
        split; [done|]. by intros (_ & ks' & state' & ? & _).
      * split; [done|]. by intros (_ & ks' & state' & ? & _).
  - rewrite (getKeyspaceStatus_tracked ts kew _ ks Hl Hd). by rewrite Hs.
Qed.

(** ** MarkShardNotServing *)

(** C10: for a keyspace that is tracked (in the map and not marked deleted)
    and a shard in its shard map, [MarkShardNotServing] without the reparent
    flag returns [true], sets [serving] and [consistent] to false and leaves
    [waitForReparent], [externallyReparented], [currentPrimary] and [target]
    of the shard, the other shards and the other fields of the keyspace as
    they are; when the shard is not in the map it returns [false] and
    changes nothing. *)
Theorem MarkShardNotServing_frame `{MapRange} (ts : srvtopo.Server)
    (kew : KeyspaceEventWatcher) (keyspace_ shard : string) (kss : keyspaceState) :
  keyspaces kew !! keyspace_ = Some kss →
  deleted kss = false →
  (∀ sstate,
     shards kss !! shard = Some sstate →
     ∃ kss' sstate',
       MarkShardNotServing ts kew keyspace_ shard false
       = (true, set_keyspaces (<[keyspace_ := kss']> (keyspaces kew)) kew, [])
       ∧ shards kss' = <[shard := sstate']> (shards kss)
       ∧ serving sstate' = false
       ∧ consistent kss' = false
       ∧ waitForReparent sstate' = waitForReparent sstate
       ∧ externallyReparented sstate' = externallyReparented sstate
       ∧ currentPrimary sstate' = currentPrimary sstate
       ∧ target sstate' = target sstate
       ∧ keyspace kss' = keyspace kss
       ∧ deleted kss' = deleted kss
       ∧ lastError kss' = lastError kss
       ∧ lastKeyspace kss' = lastKeyspace kss
       ∧ moveTablesState kss' = moveTablesState kss)
  ∧ (shards kss !! shard = None →
     MarkShardNotServing ts kew keyspace_ shard false = (false, kew, [])).
Proof.
  intros Hl Hd. unfold MarkShardNotServing.
  rewrite (getKeyspaceStatus_tracked ts kew _ kss Hl Hd). split.
  - intros sstate ->.
    exists (markNotServing kss shard sstate false), (set_serving false sstate).
    by split_and!.
  - by intros ->.
Qed.

Lemma MarkShardNotServing_frame_witness :
  keyspaces examples.failoverWatcher !! "ks" = Some examples.failoverKeyspace
  ∧ deleted examples.failoverKeyspace = false
  ∧ (∀ sstate,
       shards examples.failoverKeyspace !! "-80" = Some sstate →
       ∃ kss' sstate',
         @MarkShardNotServing examples.forwardRange
           (examples.staticServer examples.plainRecords)
           examples.failoverWatcher "ks" "-80" false
         = (true,
            set_keyspaces (<["ks" := kss']> (keyspaces examples.failoverWatcher))
              examples.failoverWatcher, [])
         ∧ shards kss' = <["-80" := sstate']> (shards examples.failoverKeyspace)
         ∧ serving sstate' = false
         ∧ consistent kss' = false
         ∧ waitForReparent sstate' = waitForReparent sstate
         ∧ externallyReparented sstate' = externallyReparented sstate
         ∧ currentPrimary sstate' = currentPrimary sstate
         ∧ target sstate' = target sstate
         ∧ keyspace kss' = keyspace examples.failoverKeyspace
         ∧ deleted kss' = deleted examples.failoverKeyspace
         ∧ lastError kss' = lastError examples.failoverKeyspace
         ∧ lastKeyspace kss' = lastKeyspace examples.failoverKeyspace
         ∧ moveTablesState kss' = moveTablesState examples.failoverKeyspace)
  ∧ (shards examples.failoverKeyspace !! "-80" = None →
     @MarkShardNotServing examples.forwardRange
       (examples.staticServer examples.plainRecords)
       examples.failoverWatcher "ks" "-80" false
     = (false, examples.failoverWatcher, [])).
Proof.
  split; [vm_compute; reflexivity|]. split; [reflexivity|].
  apply (@MarkShardNotServing_frame examples.forwardRange
           (examples.staticServer examples.plainRecords)
           examples.failoverWatcher "ks" "-80" examples.failoverKeyspace);
    [vm_compute; reflexivity|reflexivity].
Defined.

(** ** onSrvKeyspace *)

(** After a delivery without error the last snapshot is the one delivered. *)
Lemma onSrvKeyspace_lastKeyspace `{MapRange} localCell kss newKeyspace :
  lastKeyspace (onSrvKeyspace localCell kss newKeyspace None).1.1 = newKeyspace.
Proof.
  unfold onSrvKeyspace. simpl. case_bool_decide as Heq; [done|].
  match goal with
  | |- context [ensureConsistentLocked localCell ?k] =>
      pose proof (ensureConsistentLocked_frame localCell k) as (_ & _ & _ & Hlast);
      destruct (ensureConsistentLocked localCell k) as [kss' ev]
  end.
  simpl in *. by rewrite Hlast.
Qed.

Lemma onSrvKeyspace_same `{MapRange} localCell kss :
  onSrvKeyspace localCell kss (lastKeyspace kss) None = (kss, None, true).
Proof. unfold onSrvKeyspace. simpl. by rewrite bool_decide_eq_true_2. Qed.

(** C8: delivering the same snapshot (deep equality of the messages is
    their equality here) twice without error leaves the keyspace state
    after the second delivery equal to the state after the first, and the
    second delivery broadcasts no event; the same holds of the watcher
    when the two deliveries reach it one after the other. *)
Theorem onSrvKeyspace_replay `{MapRange} (cell : string) (kss : keyspaceState)
    (newKeyspace : option topodatapb.SrvKeyspace) :
  onSrvKeyspace cell
    (onSrvKeyspace cell kss newKeyspace None).1.1 newKeyspace None
  = ((onSrvKeyspace cell kss newKeyspace None).1.1, None, true)
  ∧ ∀ (ts ts' : srvtopo.Server) (kew : KeyspaceEventWatcher) (k : string),
      step ts' (step ts kew (OpSrvKeyspace k newKeyspace None)).1
        (OpSrvKeyspace k newKeyspace None)
      = ((step ts kew (OpSrvKeyspace k newKeyspace None)).1, []).
Proof.
  assert (Hkss : ∀ c kss0,
    onSrvKeyspace c (onSrvKeyspace c kss0 newKeyspace None).1.1
      newKeyspace None
    = ((onSrvKeyspace c kss0 newKeyspace None).1.1, None, true)).
  { intros c kss0.
    rewrite <-(onSrvKeyspace_lastKeyspace c kss0 newKeyspace) at 2.
    apply onSrvKeyspace_same. }
  split; [apply Hkss|].
  intros ts ts' kew k. simpl. unfold callback.
  destruct (keyspaces kew !! k) as [kss0|] eqn:Hl.
  - specialize (Hkss (localCell kew) kss0).
    destruct (onSrvKeyspace (localCell kew) kss0 newKeyspace None)
      as [[kss1 ev] b]. simpl in *.
    rewrite lookup_insert_eq, Hkss. simpl.
    by rewrite insert_insert_eq.
  - simpl. by rewrite Hl.
Qed.

(** ** onSrvVSchema and the move-tables detector *)

(** The claim on a detector error as the specification words it: the
    recorded state keeps its value. *)
Definition detector_error_as_specified : Prop :=
  ∀ (R : MapRange) (ts : srvtopo.Server) (cell : string) (kss : keyspaceState)
    (vs : vschemapb.SrvVSchema) (err : option topo.error)
    (mt : MoveTablesState) (kerr : topo.error),
    getMoveTablesStatus ts kss vs = (mt, Some kerr) →
    moveTablesState (onSrvVSchema ts cell kss (Some vs) err).1.1
    = moveTablesState kss.

(** C3, as stated, fails: a keyspace with a Regular MoveTables that is
    Switching receives a vschema with a routing rule while the shard records
    cannot be read; the detector returns an error and the recorded state
    becomes (None, Unknown). *)
Lemma detector_error_as_specified_fails : ¬ detector_error_as_specified.
Proof.
  intros Hclaim.
  specialize (Hclaim examples.forwardRange
                (examples.staticServer examples.noRecords) "aa"
                examples.migratingKeyspace (examples.routeTable "ks.t") None
                {| Typ := MoveTablesNone; State := MoveTablesUnknown |}
                (topo.TopoError topo.Timeout "deadline exceeded")).
  assert (Habs : Some {| Typ := MoveTablesNone; State := MoveTablesUnknown |}
                 = Some {| Typ := MoveTablesRegular; State := MoveTablesSwitching |}).
  { apply Hclaim. vm_compute. reflexivity. }
  discriminate Habs.
Qed.

(** C3 (amended): when the move-tables detector returns an error,
    [onSrvVSchema] replaces [moveTablesState] by a state of type None and
    status Unknown, whatever it held before; every other field of the
    keyspace state keeps its value and no event is broadcast. *)
Theorem onSrvVSchema_detector_error `{MapRange} (ts : srvtopo.Server) (cell : string)
    (kss : keyspaceState) (vs : vschemapb.SrvVSchema) (err : option topo.error)
    (mt : MoveTablesState) (kerr : topo.error) :
  getMoveTablesStatus ts kss vs = (mt, Some kerr) →
  onSrvVSchema ts cell kss (Some vs) err
  = (set_moveTablesState
       (Some {| Typ := MoveTablesNone; State := MoveTablesUnknown |}) kss,
     None, true).
Proof.
  intros Hget. unfold onSrvVSchema.
  by rewrite Hget, (getMoveTablesStatus_error _ _ _ _ _ Hget).
Qed.

Lemma onSrvVSchema_detector_error_witness :
  @getMoveTablesStatus examples.forwardRange
    (examples.staticServer examples.noRecords)
    examples.migratingKeyspace (examples.routeTable "ks.t")
  = ({| Typ := MoveTablesNone; State := MoveTablesUnknown |},
     Some (topo.TopoError topo.Timeout "deadline exceeded"))
  ∧ @onSrvVSchema examples.forwardRange
      (examples.staticServer examples.noRecords) "aa"
      examples.migratingKeyspace (Some (examples.routeTable "ks.t")) None
    = (set_moveTablesState
         (Some {| Typ := MoveTablesNone; State := MoveTablesUnknown |})
         examples.migratingKeyspace,
       None, true).
Proof.
  split; [vm_compute; reflexivity|].
  apply (@onSrvVSchema_detector_error examples.forwardRange
           (examples.staticServer examples.noRecords) "aa"
           examples.migratingKeyspace (examples.routeTable "ks.t") None
           {| Typ := MoveTablesNone; State := MoveTablesUnknown |}
           (topo.TopoError topo.Timeout "deadline exceeded")).
  vm_compute. reflexivity.
Defined.

(** What the scan for denied tables remembers: either some tablet control
    with denied tables was met, the remembered table is the first denied
    table of one of them and the list of shards is not empty, or none was
    met and the accumulator is returned as it was. *)
Lemma deniedInControls_spec name tcs acc :
  (∃ tc rest, tc ∈ tcs
     ∧ topodatapb.DeniedTables tc = (deniedInControls name tcs acc).2 :: rest
     ∧ (deniedInControls name tcs acc).1 ≠ [])
  ∨ (deniedInControls name tcs acc = acc
     ∧ ∀ tc, tc ∈ tcs → topodatapb.DeniedTables tc = []).
Proof.
  revert acc. induction tcs as [|tc rest IH]; intros acc; simpl.
  { right. split; [done|]. by intros tc Htc%elem_of_nil. }
  destruct (topodatapb.DeniedTables tc) as [|t ts] eqn:Hd.
  - destruct (IH acc) as [(tc' & rest' & Hin & Heq & Hne)|[Heq Hnone]].
    + left. exists tc', rest'. split_and!; [by right|done..].
    + right. split; [done|]. by intros tc' [->|Hin]%elem_of_cons; [|apply Hnone].
  - left. destruct (IH ((acc.1 ++ [name])%list, t))
      as [(tc' & rest' & Hin & Heq & Hne)|[Heq Hnone]].
    + exists tc', rest'. split_and!; [by right|done..].
    + exists tc, ts. rewrite Heq. simpl. split_and!; [by left|done|].
      by destruct (acc.1).
Qed.

Lemma deniedInControls_nonempty name tcs acc :
  acc.1 ≠ [] → (deniedInControls name tcs acc).1 ≠ [].
Proof.
  revert acc. induction tcs as [|tc rest IH]; intros acc Hne; simpl; [done|].
  apply IH. destruct (topodatapb.DeniedTables tc); [done|]. simpl.
  by destruct (acc.1).
Qed.

Lemma deniedInShards_nonempty shardInfos acc :
  acc.1 ≠ [] → (deniedInShards shardInfos acc).1 ≠ [].
Proof.
  revert acc. induction shardInfos as [|si rest IH]; intros acc Hne; simpl; [done|].
  by apply IH, deniedInControls_nonempty.
Qed.

Lemma deniedInShards_spec shardInfos acc :
  (∃ si tc rest, si ∈ shardInfos ∧ tc ∈ topo.TabletControls si
     ∧ topodatapb.DeniedTables tc = (deniedInShards shardInfos acc).2 :: rest
     ∧ (deniedInShards shardInfos acc).1 ≠ [])
  ∨ (deniedInShards shardInfos acc = acc
     ∧ ∀ si tc, si ∈ shardInfos → tc ∈ topo.TabletControls si →
         topodatapb.DeniedTables tc = []).
Proof.
  revert acc. induction shardInfos as [|si rest IH]; intros acc; simpl.
  { right. split; [done|]. by intros si tc Hsi%elem_of_nil. }
  destruct (IH (deniedInControls (topo.ShardName si) (topo.TabletControls si) acc))
    as [(si' & tc' & rest' & Hin & Htc & Heq & Hne)|[Heq Hnone]].
  - left. exists si', tc', rest'. split_and!; [by right|done..].
  - rewrite Heq.
    destruct (deniedInControls_spec (topo.ShardName si) (topo.TabletControls si) acc)
      as [(tc' & rest' & Htc & Heq' & Hne)|[Heq' Hnone']].
    + left. exists si, tc', rest'. split_and!; [by left|done..].
    + right. split; [done|].
      intros si' tc' [->|Hin]%elem_of_cons Htc; [by apply Hnone'|].
      by eapply Hnone.
Qed.

(** C9: when the shard records are fetched (the table routing rules are not
    empty) and at least one of them has denied tables while there is no
    shard routing rule, [getMoveTablesStatus] classifies the workflow as
    Regular.  Its state is Switching, and is raised to Switched iff the
    table routing map has a rule for the remembered denied table that is
    not empty and whose first target is not ["<keyspace>.<denied-table>"].
    The remembered table is the first denied table of a tablet control of a
    fetched shard. *)
Theorem getMoveTablesStatus_regular `{MapRange} (ts : srvtopo.Server)
    (kss : keyspaceState) (vs : vschemapb.SrvVSchema) (tsrv : topo.Server)
    (shardInfos : list topo.ShardInfo) :
  srvtopo.GetTopoServer ts = inr tsrv →
  fetchShards tsrv (keyspace kss) (rangeMap (shards kss)) = inr shardInfos →
  vschemapb.GetRules (vschemapb.GetRoutingRules vs) ≠ [] →
  vschemapb.GetShardRules (vschemapb.GetShardRoutingRules vs) = [] →
  (∃ si tc, si ∈ shardInfos ∧ tc ∈ topo.TabletControls si
            ∧ topodatapb.DeniedTables tc ≠ []) →
  let oneDeniedTable := (deniedInShards shardInfos ([], "")).2 in
  ∃ state,
    getMoveTablesStatus ts kss vs
    = ({| Typ := MoveTablesRegular; State := state |}, None)
    ∧ (state = MoveTablesSwitching ∨ state = MoveTablesSwitched)
    ∧ (state = MoveTablesSwitched
       ↔ ∃ rr first rest,
           topotools.GetRoutingRulesMap (vschemapb.GetRoutingRules vs) = Some rr
           ∧ rr !! oneDeniedTable = Some (first :: rest)
           ∧ first ≠ keyspace kss ++ "." ++ oneDeniedTable)
    ∧ ∃ si tc rest, si ∈ shardInfos ∧ tc ∈ topo.TabletControls si
        ∧ topodatapb.DeniedTables tc = oneDeniedTable :: rest.
Proof.
  intros Hts Hfetch Hrules Hsrr (si & tc & Hsi & Htc & Hdenied) oneDeniedTable.
  unfold getMoveTablesStatus. rewrite Hts, Hfetch, Hsrr.
  rewrite (bool_decide_eq_false_2 (length _ = 0%nat))
    by (by destruct (vschemapb.GetRules _)).
  simpl. unfold classifyMoveTables. rewrite Hsrr. simpl. rewrite andb_false_r.
  destruct (deniedInShards_spec shardInfos ([], ""))
    as [(si' & tc' & rest' & Hsi' & Htc' & Heq & Hne)|[_ Hnone]];
    [|by destruct Hdenied; eapply Hnone].
  fold oneDeniedTable in Heq.
  destruct (deniedInShards shardInfos ([], "")) as [names one] eqn:Hscan.
  simpl in Hne, oneDeniedTable. subst oneDeniedTable.
  rewrite bool_decide_eq_false_2 by (by destruct names).
  eexists. split; [reflexivity|].
  assert (Hfound : ∃ si tc rest, si ∈ shardInfos ∧ tc ∈ topo.TabletControls si
            ∧ topodatapb.DeniedTables tc = one :: rest)
    by (by exists si', tc', rest').
  destruct (topotools.GetRoutingRulesMap _) as [rr|];
    [|split_and!; [by left| |done]; split; [done|];
      by intros (? & ? & ? & ? & _)].
  destruct (rr !! one) as [[|first rest]|] eqn:Hrr;
    [split_and!; [by left| |done]; split; [done|];
      by intros (? & ? & ? & [= <-] & Hl & _); rewrite Hrr in Hl..| |].
  - case_bool_decide as Hfirst; simpl.
    + split_and!; [by left| |done]. split; [done|].
      intros (? & ? & ? & [= <-] & Hl & Hne'). rewrite Hrr in Hl.
      by injection Hl as <- <-.
    + split_and!; [by right| |done]. split; [|done].
      intros _. by exists rr, first, rest.
  - split_and!; [by left| |done]. split; [done|].
    intros (? & ? & ? & [= <-] & Hl & _). by rewrite Hrr in Hl.
Qed.

Lemma getMoveTablesStatus_regular_witness :
  srvtopo.GetTopoServer (examples.staticServer examples.deniedRecords)
  = inr {| topo.GetShard := examples.deniedRecords |}
  ∧ fetchShards {| topo.GetShard := examples.deniedRecords |}
      (keyspace examples.migratingKeyspace)
      (@rangeMap examples.forwardRange _ (shards examples.migratingKeyspace))
    = inr examples.deniedInfos
  ∧ vschemapb.GetRules (vschemapb.GetRoutingRules (examples.routeTable "otherks.t"))
    ≠ []
  ∧ vschemapb.GetShardRules
      (vschemapb.GetShardRoutingRules (examples.routeTable "otherks.t")) = []
  ∧ (∃ si tc, si ∈ examples.deniedInfos ∧ tc ∈ topo.TabletControls si
              ∧ topodatapb.DeniedTables tc ≠ [])
  ∧ ∃ state,
      @getMoveTablesStatus examples.forwardRange
        (examples.staticServer examples.deniedRecords)
        examples.migratingKeyspace (examples.routeTable "otherks.t")
      = ({| Typ := MoveTablesRegular; State := state |}, None)
      ∧ (state = MoveTablesSwitching ∨ state = MoveTablesSwitched)
      ∧ (state = MoveTablesSwitched
         ↔ ∃ rr first rest,
             topotools.GetRoutingRulesMap
               (vschemapb.GetRoutingRules (examples.routeTable "otherks.t"))
             = Some rr
             ∧ rr !! (deniedInShards examples.deniedInfos ([], "")).2
               = Some (first :: rest)
             ∧ first ≠ keyspace examples.migratingKeyspace ++ "."
                         ++ (deniedInShards examples.deniedInfos ([], "")).2)
      ∧ ∃ si tc rest, si ∈ examples.deniedInfos ∧ tc ∈ topo.TabletControls si
          ∧ topodatapb.DeniedTables tc
            = (deniedInShards examples.deniedInfos ([], "")).2 :: rest.
Proof.
  assert (Hdenied : ∃ si tc, si ∈ examples.deniedInfos ∧ tc ∈ topo.TabletControls si
                             ∧ topodatapb.DeniedTables tc ≠ []).
  { exists (examples.deniedInfo "-80"). eexists.
    split_and!; [by left|by left|discriminate]. }
  split_and!; [reflexivity|vm_compute; reflexivity|discriminate|reflexivity
              |exact Hdenied|].
  apply (@getMoveTablesStatus_regular examples.forwardRange
           (examples.staticServer examples.deniedRecords)
           examples.migratingKeyspace (examples.routeTable "otherks.t")
           {| topo.GetShard := examples.deniedRecords |} examples.deniedInfos);
    [reflexivity|vm_compute; reflexivity|discriminate|reflexivity|exact Hdenied].
Defined.

(** ** What an operation does to a shard state *)

(** The three ways in which the state of a tracked shard moves: it stays,
    a health report updates it, or [MarkShardNotServing] marks it. *)
Inductive shardStep : shardState → shardState → Prop :=
| shardStep_same sstate : shardStep sstate sstate
| shardStep_health th c sstate : shardStep sstate (updateShard th sstate c).1
| shardStep_mark (isReparentErr : bool) sstate :
    shardStep sstate
      (if isReparentErr then set_waitForReparent true (set_serving false sstate)
       else set_serving false sstate).

(** The state of a shard after [onHealthCheck], when the shard is still
    tracked: another shard keeps its state, the shard of the report is
    updated from its old state, or from a fresh one if it was unknown and
    the report says serving. *)
Lemma onHealthCheck_shard `{MapRange} cell kss th s sstate' :
  shards (onHealthCheck cell kss th).1 !! s = Some sstate' →
  (shards kss !! s = Some sstate'
   ∧ (querypb.TabletType (Target th) ≠ topodatapb.PRIMARY
      ∨ querypb.Shard (Target th) ≠ s))
  ∨ (querypb.TabletType (Target th) = topodatapb.PRIMARY
     ∧ querypb.Shard (Target th) = s
     ∧ ((∃ sstate, shards kss !! s = Some sstate
          ∧ sstate' = (updateShard th sstate (consistent kss)).1)
        ∨ (shards kss !! s = None ∧ Serving th = true
           ∧ sstate' = (updateShard th
                          {| target := Target th; serving := false;
                             waitForReparent := false; externallyReparented := 0;
                             currentPrimary := None |} (consistent kss)).1))).
Proof.
  unfold onHealthCheck. case_bool_decide as Hprim; simpl; [|by left; auto].
  set (shard := querypb.Shard (Target th)).
  assert (Hafter : ∀ sstate0,
    shards (let '(sstate1, c1) := updateShard th sstate0 (consistent kss) in
            ensureConsistentLocked cell
              (set_consistent c1
                 (set_shards (<[shard := sstate1]> (shards kss)) kss))).1 !! s
    = Some sstate' →
    (shards kss !! s = Some sstate' ∧ shard ≠ s)
    ∨ (shard = s ∧ sstate' = (updateShard th sstate0 (consistent kss)).1)).
  { intros sstate0. destruct (updateShard th sstate0 (consistent kss)) as [sstate1 c1].
    intros Hl%ensureConsistentLocked_shards. simpl in Hl.
    destruct (decide (shard = s)) as [Heq|Hne].
    - right. rewrite Heq, lookup_insert_eq in Hl. by injection Hl as <-.
    - left. by rewrite lookup_insert_ne in Hl. }
  destruct (shards kss !! shard) as [sstate|] eqn:Hl.
  - intros [[? ?]|[Heq ->]]%Hafter; [left; auto|].
    right. split_and!; [done..|]. left. exists sstate. by rewrite <-Heq.
  - destruct (Serving th) eqn:Hserving; simpl.
    + intros [[? ?]|[Heq ->]]%Hafter; [left; auto|].
      right. split_and!; [done..|]. right. by rewrite <-Heq.
    + intros Hs. left. split; [done|]. right. intros Heq. congruence.
Qed.

(** The topology callbacks change no shard state. *)
Lemma onSrvKeyspace_shards `{MapRange} cell kss newKeyspace newError s sstate :
  shards (onSrvKeyspace cell kss newKeyspace newError).1.1 !! s = Some sstate →
  shards kss !! s = Some sstate.
Proof.
  unfold onSrvKeyspace. destruct (topo.IsErrType newError topo.NoNode); [done|].
  destruct newError; [done|]. case_bool_decide; [done|].
  match goal with
  | |- context [ensureConsistentLocked cell ?k] =>
      pose proof (ensureConsistentLocked_shards cell k s sstate) as Hens;
      destruct (ensureConsistentLocked cell k) as [kss' ev]
  end.
  simpl in *. intros Hl%Hens. by case_bool_decide.
Qed.

Lemma onSrvVSchema_shards `{MapRange} ts cell kss vs err s sstate :
  shards (onSrvVSchema ts cell kss vs err).1.1 !! s = Some sstate →
  shards kss !! s = Some sstate.
Proof.
  unfold onSrvVSchema. destruct vs as [vs|]; [|done].
  destruct (getMoveTablesStatus ts kss vs) as [mt kerr].
  case_bool_decide; simpl; [done|].
  match goal with
  | |- context [ensureConsistentLocked cell ?k] =>
      pose proof (ensureConsistentLocked_shards cell k s sstate) as Hens;
      destruct (ensureConsistentLocked cell k) as [kss' ev]
  end.
  simpl in *. by intros Hl%Hens.
Qed.

(** A step of the watcher moves every shard that it tracks before and after
    by a [shardStep]; only a health report or [MarkShardNotServing] for
    that very shard changes its state. *)
Lemma step_shard `{MapRange} ts kew op k s sstate sstate' :
  shardAt kew k s = Some sstate →
  shardAt (step ts kew op).1 k s = Some sstate' →
  sstate' = sstate
  ∨ (∃ th c, op = OpHealthCheck th
       ∧ querypb.TabletType (Target th) = topodatapb.PRIMARY
       ∧ querypb.Keyspace (Target th) = k ∧ querypb.Shard (Target th) = s
       ∧ sstate' = (updateShard th sstate c).1)
  ∨ (∃ isReparentErr, op = OpMarkShardNotServing k s isReparentErr
       ∧ sstate' = if isReparentErr
                   then set_waitForReparent true (set_serving false sstate)
                   else set_serving false sstate).
Proof.
  unfold shardAt. destruct (keyspaces kew !! k) as [kss|] eqn:Hk; [|done].
  intros Hs.
  assert (Hget : ∀ k',
    match (getKeyspaceStatus ts kew k').1.1 with
    | Some kss' => keyspaces kew !! k' = Some kss' ∨ keyspaces kew !! k' = None
    | None => True
    end
    ∧ ∀ kss', keyspaces (getKeyspaceStatus ts kew k').1.2 !! k = Some kss' →
        kss' = kss).
  { intros k'. unfold getKeyspaceStatus.
    destruct (keyspaces kew !! k') as [kss0|] eqn:Hk'.
    - destruct (deleted kss0); simpl.
      + split; [done|]. intros kss' [_ Hl]%lookup_delete_Some. congruence.
      + split; [by left|]. intros kss' Hl. congruence.
    - destruct (newKeyspaceState ts (localCell kew) k') as [kss0 evs0].
      assert (k' ≠ k) by (intros ->; congruence).
      destruct (deleted kss0); simpl.
      + split; [done|]. intros kss' [_ Hl]%lookup_delete_Some.
        rewrite lookup_insert_ne in Hl by done. congruence.
      + split; [by right|]. intros kss'. rewrite lookup_insert_ne by done.
        congruence. }
  assert (Hsame : ∀ k' (r : option keyspaceState * KeyspaceEventWatcher
                            * list KeyspaceEvent),
    r = getKeyspaceStatus ts kew k' →
    match keyspaces r.1.2 !! k with
    | Some kss' => shards kss' !! s
    | None => None
    end = Some sstate' → sstate' = sstate).
  { intros k' r -> Hl. destruct (Hget k') as [_ Hk2].
    destruct (keyspaces (getKeyspaceStatus ts kew k').1.2 !! k)
      as [kss'|] eqn:Hk'; [|done].
    rewrite (Hk2 kss' eq_refl) in Hl. congruence. }
  destruct op as [th|k' nk ne|k' vs err|k' shard b|t|t|k']; simpl.
  - unfold processHealthCheck.
    destruct (Hget (querypb.Keyspace (Target th))) as [Hk1 Hk2].
    destruct (getKeyspaceStatus _ _ _) as [[[kss0|] kew'] evs]; simpl in *.
    + destruct (onHealthCheck (localCell kew') kss0 th) as [kss1 ev] eqn:Hhc.
      simpl. destruct (decide (querypb.Keyspace (Target th) = k)) as [Heq|Hne].
      * rewrite Heq, lookup_insert_eq. intros Hl.
        rewrite Heq, Hk in Hk1. destruct Hk1 as [[= <-]|?]; [|done].
        pose proof (onHealthCheck_shard (localCell kew') kss th s sstate') as Hsh.
        rewrite Hhc in Hsh.
        destruct (Hsh Hl) as [[Hl' _]|(Hp & Hshard & [(ss0 & Hl0 & ->)|(Hl0 & _)])].
        -- left. congruence.
        -- right. left. exists th, (consistent kss).
           assert (ss0 = sstate) as -> by congruence. by split_and!.
        -- congruence.
      * rewrite lookup_insert_ne by done. intros Hl. left.
        destruct (keyspaces kew' !! k) as [kss'|] eqn:Hk'; [|done].
        rewrite (Hk2 kss' eq_refl) in Hl. congruence.
    + intros Hl. left.
      destruct (keyspaces kew' !! k) as [kss'|] eqn:Hk'; [|done].
      rewrite (Hk2 kss' eq_refl) in Hl. congruence.
  - unfold callback. destruct (keyspaces kew !! k') as [kss0|] eqn:Hk'.
    + destruct (onSrvKeyspace (localCell kew) kss0 nk ne) as [[kss1 ev] b] eqn:Hcb.
      simpl. destruct (decide (k' = k)) as [->|Hne].
      * rewrite lookup_insert_eq. intros Hl. left.
        pose proof (onSrvKeyspace_shards (localCell kew) kss0 nk ne s sstate') as Hsh.
        rewrite Hcb in Hsh. specialize (Hsh Hl). congruence.
      * rewrite lookup_insert_ne by done. rewrite Hk. intros Hl. left. congruence.
    + simpl. rewrite Hk. intros Hl. left. congruence.
  - unfold callback. destruct (keyspaces kew !! k') as [kss0|] eqn:Hk'.
    + destruct (onSrvVSchema ts (localCell kew) kss0 vs err)
        as [[kss1 ev] b] eqn:Hcb.
      simpl. destruct (decide (k' = k)) as [->|Hne].
      * rewrite lookup_insert_eq. intros Hl. left.
        pose proof (onSrvVSchema_shards ts (localCell kew) kss0 vs err s sstate')
          as Hsh.
        rewrite Hcb in Hsh. specialize (Hsh Hl). congruence.
      * rewrite lookup_insert_ne by done. rewrite Hk. intros Hl. left. congruence.
    + simpl. rewrite Hk. intros Hl. left. congruence.
  - unfold MarkShardNotServing.
    destruct (Hget k') as [Hk1 Hk2].
    destruct (getKeyspaceStatus _ _ _) as [[[kss0|] kew'] evs]; simpl in *.
    + destruct (shards kss0 !! shard) as [ss0|] eqn:Hshard; simpl.
      * destruct (decide (k' = k)) as [->|Hne].
        -- rewrite lookup_insert_eq. simpl.
           rewrite Hk in Hk1. destruct Hk1 as [[= <-]|?]; [|done].
           destruct (decide (shard = s)) as [->|Hne].
           ++ rewrite lookup_insert_eq. intros [= <-]. right. right. exists b.
              assert (ss0 = sstate) as -> by congruence. by destruct b.
           ++ rewrite lookup_insert_ne by done. intros Hl. left. congruence.
        -- rewrite lookup_insert_ne by done. intros Hl. left.
           destruct (keyspaces kew' !! k) as [kss'|] eqn:Hk'; [|done].
           rewrite (Hk2 kss' eq_refl) in Hl. congruence.
      * intros Hl. left.
        destruct (keyspaces kew' !! k) as [kss'|] eqn:Hk'; [|done].
        rewrite (Hk2 kss' eq_refl) in Hl. congruence.
    + intros Hl. left.
      destruct (keyspaces kew' !! k) as [kss'|] eqn:Hk'; [|done].
      rewrite (Hk2 kss' eq_refl) in Hl. congruence.
  - unfold TargetIsBeingResharded. case_bool_decide; simpl.
    + intros Hl. left. apply (Hsame (querypb.Keyspace t) _ eq_refl).
      by destruct (getKeyspaceStatus _ _ _) as [[[?|] ?] ?].
    + simpl. rewrite Hk. intros Hl. left. congruence.
  - unfold ShouldStartBufferingForTarget. case_bool_decide; simpl.
    + intros Hl. left. apply (Hsame (querypb.Keyspace t) _ eq_refl).
      destruct (getKeyspaceStatus _ _ _) as [[[kss0|] ?] ?]; [|done].
      simpl in *. by destruct (shards kss0 !! _).
    + simpl. rewrite Hk. intros Hl. left. congruence.
  - intros Hl. left. apply (Hsame k' _ eq_refl).
    by destruct (getKeyspaceStatus _ _ _) as [[? ?] ?].
Qed.

(** ** The waitForReparent latch and the reparent timestamp *)

Lemma updateShard_stale th sstate c :
  waitForReparent sstate = true → serving sstate = false →
  Serving th = true →
  (PrimaryTermStartTime th ≤ externallyReparented sstate)%Z →
  updateShard th sstate c = (sstate, false).
Proof.
  unfold updateShard.
  destruct sstate as [tg sv wfr ext cp], th as [tb tgt thsv term]; simpl.
  intros -> -> -> Hle. simpl.
  assert (Hgt : (term >? ext)%Z = false) by lia.
  rewrite Hgt. simpl. by rewrite Hgt, andb_false_r.
Qed.

Lemma updateShard_latched th sstate c :
  waitForReparent sstate = true → serving sstate = false →
  serving (updateShard th sstate c).1 = true →
  Serving th = true
  ∧ (externallyReparented sstate < PrimaryTermStartTime th)%Z.
Proof.
  unfold updateShard.
  destruct sstate as [tg sv wfr ext cp], th as [tb tgt thsv term]; simpl.
  intros -> ->. destruct thsv; simpl.
  - destruct (term >? ext)%Z eqn:Hgt; simpl.
    + intros _. split; [done|lia].
    + by rewrite Hgt, andb_false_r.
  - by destruct (_ && _).
Qed.

(** A health report never sets the latch, and it raises [serving] on a
    latched shard only together with clearing the latch. *)
Lemma updateShard_latch th sstate c :
  (waitForReparent sstate = true → serving sstate = false) →
  waitForReparent (updateShard th sstate c).1 = true →
  serving (updateShard th sstate c).1 = false.
Proof.
  unfold updateShard.
  destruct sstate as [tg sv wfr ext cp], th as [tb tgt thsv term]; simpl.
  destruct sv, thsv, wfr; simpl; intros Hinv;
    repeat (case_bool_decide; simpl); try done;
    repeat (destruct (_ >? _)%Z; simpl); try done; by auto.
Qed.

(** A health report changes [externallyReparented] only to a term start that
    is not zero and strictly above the stored value. *)
Lemma updateShard_reparented th sstate c :
  externallyReparented (updateShard th sstate c).1 = externallyReparented sstate
  ∨ ((externallyReparented sstate < externallyReparented (updateShard th sstate c).1)%Z
     ∧ externallyReparented (updateShard th sstate c).1 = PrimaryTermStartTime th
     ∧ PrimaryTermStartTime th ≠ 0%Z).
Proof.
  unfold updateShard.
  destruct sstate as [tg sv wfr ext cp], th as [tb tgt thsv term]; simpl.
  destruct (bool_decide (term = 0%Z)) eqn:Hz, (term >? ext)%Z eqn:Hgt;
    destruct sv, thsv, wfr; simpl; rewrite ?Hgt, ?Hz; simpl; try (by left).
  all: right; apply bool_decide_eq_false in Hz.
  all: split; [lia|]. all: split; [reflexivity|assumption].
Qed.

(** The latch invariant of a keyspace: a shard that waits for a reparent is
    not serving. *)
Definition latchInv (kss : keyspaceState) : Prop :=
  ∀ s sstate, shards kss !! s = Some sstate →
    waitForReparent sstate = true → serving sstate = false.

Lemma latchInv_run `{MapRange} kew ops :
  allKeyspaces latchInv kew → allKeyspaces latchInv (run kew ops).1.
Proof.
  apply run_keeps.
  - intros k s sstate. simpl. by rewrite lookup_empty.
  - intros cell kss th Hinv s sstate'.
    intros [[Hl _]|(_ & _ & [(sstate & Hl & ->)|(_ & _ & ->)])]%onHealthCheck_shard.
    + by eapply Hinv.
    + apply updateShard_latch. by eapply Hinv.
    + by apply updateShard_latch.
  - intros cell kss nk ne Hinv s sstate Hl%onSrvKeyspace_shards. by eapply Hinv.
  - intros ts cell kss vs err Hinv s sstate Hl%onSrvVSchema_shards. by eapply Hinv.
  - intros kss shard sstate b Hinv Hshard s sstate'. simpl.
    destruct (decide (shard = s)) as [->|Hne].
    + rewrite lookup_insert_eq. intros [= <-]. by destruct b.
    + rewrite lookup_insert_ne by done. by eapply Hinv.
Qed.

(** C4: while [waitForReparent] is set, [serving] stays false until a
    health report arrives whose term start is strictly greater than the
    stored [externallyReparented].  The update that [onHealthCheck] applies
    to a shard state that is latched and not serving makes it serving only
    for a serving report with a strictly greater term start, and leaves it
    as it is, not serving and latched, for a serving report with a term
    start less than or equal to the stored value.  The same holds of the
    shard states that the watcher tracks, for every operation: a latched
    shard is found serving after a step only if the step is such a health
    report for that shard, and a stale serving report leaves its state
    unchanged.  Along every run of the watcher, from a state in which no
    latched shard serves, no latched shard ever serves. *)
Theorem waitForReparent_latch `{MapRange} :
  (∀ th sstate c,
     waitForReparent sstate = true → serving sstate = false →
     (serving (updateShard th sstate c).1 = true →
      Serving th = true
      ∧ (externallyReparented sstate < PrimaryTermStartTime th)%Z)
     ∧ (Serving th = true →
        (PrimaryTermStartTime th ≤ externallyReparented sstate)%Z →
        (updateShard th sstate c).1 = sstate))
  ∧ (∀ ts kew op k s sstate sstate',
     shardAt kew k s = Some sstate →
     waitForReparent sstate = true → serving sstate = false →
     shardAt (step ts kew op).1 k s = Some sstate' →
     serving sstate' = true →
     ∃ th, op = OpHealthCheck th
       ∧ querypb.TabletType (Target th) = topodatapb.PRIMARY
       ∧ querypb.Keyspace (Target th) = k ∧ querypb.Shard (Target th) = s
       ∧ Serving th = true
       ∧ (externallyReparented sstate < PrimaryTermStartTime th)%Z)
  ∧ (∀ ts kew th k s sstate sstate',
       shardAt kew k s = Some sstate →
       waitForReparent sstate = true → serving sstate = false →
       Serving th = true →
       (PrimaryTermStartTime th ≤ externallyReparented sstate)%Z →
       shardAt (step ts kew (OpHealthCheck th)).1 k s = Some sstate' →
       sstate' = sstate)
  ∧ (∀ kew ops,
       (∀ k s sstate, shardAt kew k s = Some sstate →
          waitForReparent sstate = true → serving sstate = false) →
       ∀ k s sstate, shardAt (run kew ops).1 k s = Some sstate →
         waitForReparent sstate = true → serving sstate = false).
Proof.
  split_and!.
  - intros th sstate c Hw Hsv. split.
    + by apply updateShard_latched.
    + intros Hth Hle. by rewrite updateShard_stale.
  - intros ts kew op k s sstate sstate' Hs Hw Hsv Hs' Hsv'.
    destruct (step_shard ts kew op k s sstate sstate' Hs Hs')
      as [->|[(th & c & -> & Hp & Hk & Hsh & ->)|(b & -> & ->)]].
    + congruence.
    + exists th. destruct (updateShard_latched th sstate c Hw Hsv Hsv').
      by split_and!.
    + by destruct b.
  - intros ts kew th k s sstate sstate' Hs Hw Hsv Hth Hle Hs'.
    destruct (step_shard ts kew _ k s sstate sstate' Hs Hs')
      as [->|[(th' & c & [= <-] & Hp & Hk & Hsh & ->)|(b & [=] & _)]]; [done|].
    by rewrite updateShard_stale.
  - intros kew ops Hinv k s sstate Hs.
    assert (Hall : allKeyspaces latchInv kew).
    { intros k' kss Hk s' ss' Hs'. apply (Hinv k' s'). unfold shardAt.
      by rewrite Hk. }
    apply (latchInv_run kew ops) in Hall. unfold shardAt in Hs.
    destruct (keyspaces (run kew ops).1 !! k) as [kss|] eqn:Hk; [|done].
    by eapply Hall.
Qed.

Lemma run_cons `{MapRange} kew ts op rest :
  (run kew ((ts, op) :: rest)).1 = (run (step ts kew op).1 rest).1.
Proof.
  simpl. destruct (step ts kew op) as [kew1 evs1]. simpl.
  by destruct (run kew1 rest).
Qed.

(** C7: [externallyReparented] of a shard state never decreases, and every
    change strictly increases it.  The update that [onHealthCheck] applies
    to a shard state leaves the field as it is unless the report carries a
    term start that is not zero and strictly greater than the stored value,
    which then becomes the new value; the writes of [MarkShardNotServing]
    leave it as it is.  So a step of the watcher on a tracked shard changes
    the field only by such a health report for that shard, and along a run
    of the watcher in which the shard state stays tracked the final value
    is at least the initial one. *)
Theorem externallyReparented_monotonic `{MapRange} :
  (∀ th sstate c,
     externallyReparented (updateShard th sstate c).1 = externallyReparented sstate
     ∨ ((externallyReparented sstate
         < externallyReparented (updateShard th sstate c).1)%Z
        ∧ externallyReparented (updateShard th sstate c).1 = PrimaryTermStartTime th
        ∧ PrimaryTermStartTime th ≠ 0%Z))
  ∧ (∀ kss shard sstate isReparentErr sstate',
       shards (markNotServing kss shard sstate isReparentErr) !! shard
       = Some sstate' →
       externallyReparented sstate' = externallyReparented sstate)
  ∧ (∀ ts kew op k s sstate sstate',
     shardAt kew k s = Some sstate →
     shardAt (step ts kew op).1 k s = Some sstate' →
     externallyReparented sstate' = externallyReparented sstate
     ∨ ((externallyReparented sstate < externallyReparented sstate')%Z
        ∧ ∃ th, op = OpHealthCheck th
            ∧ querypb.Keyspace (Target th) = k ∧ querypb.Shard (Target th) = s
            ∧ querypb.TabletType (Target th) = topodatapb.PRIMARY
            ∧ externallyReparented sstate' = PrimaryTermStartTime th
            ∧ PrimaryTermStartTime th ≠ 0%Z))
  ∧ (∀ kew ops k s sstate sstate',
       (∀ st, st ∈ states kew ops → is_Some (shardAt st k s)) →
       shardAt kew k s = Some sstate →
       shardAt (run kew ops).1 k s = Some sstate' →
       (externallyReparented sstate ≤ externallyReparented sstate')%Z).
Proof.
  assert (Hstep : ∀ ts kew op k s sstate sstate',
    shardAt kew k s = Some sstate →
    shardAt (step ts kew op).1 k s = Some sstate' →
    externallyReparented sstate' = externallyReparented sstate
    ∨ ((externallyReparented sstate < externallyReparented sstate')%Z
       ∧ ∃ th, op = OpHealthCheck th
           ∧ querypb.Keyspace (Target th) = k ∧ querypb.Shard (Target th) = s
           ∧ querypb.TabletType (Target th) = topodatapb.PRIMARY
           ∧ externallyReparented sstate' = PrimaryTermStartTime th
           ∧ PrimaryTermStartTime th ≠ 0%Z)).
  { intros ts kew op k s sstate sstate' Hs Hs'.
    destruct (step_shard ts kew op k s sstate sstate' Hs Hs')
      as [->|[(th & c & -> & Hp & Hk & Hsh & ->)|(b & -> & ->)]].
    - by left.
    - destruct (updateShard_reparented th sstate c) as [?|(? & ? & ?)];
        [by left|right].
      split; [done|]. exists th. by split_and!.
    - left. by destruct b. }
  split_and!; [apply updateShard_reparented| |exact Hstep|].
  { intros kss shard sstate b sstate'. simpl. rewrite lookup_insert_eq.
    intros [= <-]. by destruct b. }
  intros kew ops. revert kew. induction ops as [|[ts op] rest IH];
    intros kew k s sstate sstate' Htracked Hs Hs'.
  - simpl in Hs'. assert (sstate' = sstate) as -> by congruence. lia.
  - rewrite run_cons in Hs'.
    destruct (Htracked (step ts kew op).1) as [mid Hmid].
    { simpl. right. destruct rest as [|[??] ?]; by left. }
    assert (externallyReparented sstate ≤ externallyReparented mid)%Z.
    { destruct (Hstep ts kew op k s sstate mid Hs Hmid) as [?|[? _]]; lia. }
    assert (externallyReparented mid ≤ externallyReparented sstate')%Z; [|lia].
    apply (IH (step ts kew op).1 k s); [|done..].
    intros st Hst. apply Htracked. simpl. by right.
Qed.

(** ** WaitForConsistentKeyspaces *)

(** What the lookups of the keyspaces named in [names] may do to the
    watcher: every entry is left as it is, except that the entry of a named
    keyspace that was missing or marked deleted may end up missing or
    freshly allocated. *)
Definition lookupFrame `{MapRange} (ts : srvtopo.Server) (names : list string)
    (kew kew' : KeyspaceEventWatcher) : Prop :=
  localCell kew' = localCell kew
  ∧ ∀ k,
      keyspaces kew' !! k = keyspaces kew !! k
      ∨ (k ∈ names ∧ k ≠ ""
         ∧ (keyspaces kew !! k = None
            ∨ ∃ kss, keyspaces kew !! k = Some kss ∧ deleted kss = true)
         ∧ (keyspaces kew' !! k = None
            ∨ keyspaces kew' !! k
              = Some (newKeyspaceState ts (localCell kew) k).1)).

Lemma lookupFrame_refl `{MapRange} ts names kew : lookupFrame ts names kew kew.
Proof. split; [done|]. intros k. by left. Qed.

Lemma lookupFrame_trans `{MapRange} ts names kew kew1 kew2 :
  lookupFrame ts names kew kew1 → lookupFrame ts names kew1 kew2 →
  lookupFrame ts names kew kew2.
Proof.
  intros [Hc1 H1] [Hc2 H2]. split; [congruence|]. intros k.
  destruct (H1 k) as [Hs1|(Hin & Hne & Hold & Hnew)],
    (H2 k) as [Hs2|(Hin2 & Hne2 & Hold2 & Hnew2)].
  - left. congruence.
  - right. rewrite Hc1 in Hnew2. rewrite Hs1 in Hold2. by split_and!.
  - right. rewrite Hs2. by split_and!.
  - right. rewrite Hc1 in Hnew2. by split_and!.
Qed.

Lemma lookupFrame_mono `{MapRange} ts names names' kew kew' :
  (∀ k, k ∈ names → k ≠ "" → k ∈ names') →
  lookupFrame ts names kew kew' → lookupFrame ts names' kew kew'.
Proof.
  intros Hsub [Hc Hk]. split; [done|]. intros k.
  destruct (Hk k) as [?|(Hin & Hne & ? & ?)]; [by left|right].
  split_and!; [by apply Hsub|done..].
Qed.

Lemma getKeyspaceStatus_frame `{MapRange} ts kew k :
  k ≠ "" → lookupFrame ts [k] kew (getKeyspaceStatus ts kew k).1.2.
Proof.
  intros Hne. unfold getKeyspaceStatus.
  destruct (keyspaces kew !! k) as [kss|] eqn:Hl.
  - destruct (deleted kss) eqn:Hd; simpl; [|apply lookupFrame_refl].
    split; [done|]. intros k'. simpl. destruct (decide (k' = k)) as [->|Hne'].
    + right. rewrite lookup_delete_eq.
      split_and!; [by left|done| |by left]. right. by exists kss.
    + left. by rewrite lookup_delete_ne.
  - destruct (newKeyspaceState ts (localCell kew) k) as [kss evs] eqn:Hnew.
    destruct (deleted kss); simpl.
    + split; [done|]. intros k'. left. simpl.
      destruct (decide (k' = k)) as [->|Hne'].
      * by rewrite lookup_delete_eq.
      * by rewrite lookup_delete_ne, lookup_insert_ne.
    + split; [done|]. intros k'. simpl. destruct (decide (k' = k)) as [->|Hne'].
      * right. rewrite lookup_insert_eq, Hnew.
        split_and!; [by left|done|by left|by right].
      * left. by rewrite lookup_insert_ne.
Qed.

Lemma checkKeyspaces_frame `{MapRange} ts kew names :
  lookupFrame ts names kew (checkKeyspaces ts kew names).1.2
  ∧ ∀ k, k ∈ (checkKeyspaces ts kew names).1.1.1 → k ≠ "" → k ∈ names.
Proof.
  revert kew. induction names as [|k rest IH]; intros kew; simpl.
  { split; [apply lookupFrame_refl|]. by intros k Hk%elem_of_nil. }
  case_bool_decide as Hempty.
  - destruct (IH kew) as [Hframe Hnames].
    destruct (checkKeyspaces ts kew rest) as [[[rest' all] kew'] evs].
    simpl in *. split.
    + eapply lookupFrame_mono; [|done]. intros k' Hin _. by right.
    + intros k' [->|Hin]%elem_of_cons Hne; [done|]. right. by apply Hnames.
  - pose proof (getKeyspaceStatus_frame ts kew k Hempty) as Hget.
    destruct (getKeyspaceStatus ts kew k) as [[kss kew1] evs1]. simpl in Hget.
    destruct (IH kew1) as [Hframe Hnames].
    destruct (checkKeyspaces ts kew1 rest) as [[[rest' all] kew'] evs].
    simpl in *. split.
    + eapply lookupFrame_trans.
      * eapply lookupFrame_mono; [|exact Hget].
        intros k' ->%list_elem_of_singleton _. by left.
      * eapply lookupFrame_mono; [|exact Hframe]. intros k' Hin _. by right.
    + intros k' [Hk'|Hin]%elem_of_cons Hne.
      * subst k'. destruct (match kss with Some kss0 => isConsistent kss0
                              | None => true end); [done|by left].
      * right. by apply Hnames.
Qed.

Lemma run_nil `{MapRange} kew : run kew [] = (kew, []).
Proof. done. Qed.

(** A call that runs alone: no other goroutine acts while it sleeps. *)
Definition alone (schedule : list Select) : Prop :=
  ∀ concurrent, TimerFired concurrent ∈ schedule → concurrent = [].



Lemma getKeyspaceStatus_other `{MapRange} ts kew k k' :
  k' ≠ k →
  keyspaces (getKeyspaceStatus ts kew k).1.2 !! k' = keyspaces kew !! k'.
Proof.
  intros Hne. unfold getKeyspaceStatus.
  destruct (keyspaces kew !! k) as [kss|].
  - destruct (deleted kss); simpl; [|done]. by rewrite lookup_delete_ne.
  - destruct (newKeyspaceState ts (localCell kew) k) as [kss evs].
    destruct (deleted kss); simpl.
    + by rewrite lookup_delete_ne, lookup_insert_ne.
    + by rewrite lookup_insert_ne.
Qed.


Lemma checkKeyspaces_inconsistent `{MapRange} ts kew names k kss :
  k ∈ names → k ≠ "" → keyspaces kew !! k = Some kss →
  deleted kss = false → consistent kss = false →
  (checkKeyspaces ts kew names).1.1.2 = false.
Proof.
  revert kew. induction names as [|h rest IH]; intros kew Hin Hne Hl Hd Hc.
  { by apply elem_of_nil in Hin. }
  simpl. case_bool_decide as Hempty.
  - apply elem_of_cons in Hin as [->|Hin]; [done|].
    specialize (IH kew Hin Hne Hl Hd Hc).
    by destruct (checkKeyspaces ts kew rest) as [[[rest' all] kew'] evs].
  - destruct (decide (h = k)) as [->|Hhk].
    + rewrite (getKeyspaceStatus_tracked ts kew k kss Hl Hd).
      destruct (checkKeyspaces ts kew rest) as [[[rest' all] kew'] evs].
      simpl. unfold isConsistent. by rewrite Hc.
    + apply elem_of_cons in Hin as [->|Hin]; [done|].
      pose proof (getKeyspaceStatus_other ts kew h k (not_eq_sym Hhk)) as Hother.
      destruct (getKeyspaceStatus ts kew h) as [[kss0 kew1] evs1]. simpl in *.
      rewrite <-Hother in Hl. specialize (IH kew1 Hin Hne Hl Hd Hc).
      destruct (checkKeyspaces ts kew1 rest) as [[[rest' all] kew'] evs].
      simpl in *. by rewrite IH, andb_false_r.
Qed.




(** ** The claims on concrete runs *)

Lemma ShouldStartBufferingForTarget_spec_witness :
  bufferingConditions examples.failoverWatcher (examples.primaryTarget "ks" "-80")
  ∧ (@ShouldStartBufferingForTarget examples.forwardRange
       (examples.staticServer examples.plainRecords)
       examples.failoverWatcher (examples.primaryTarget "ks" "-80")).1.1.2 = true.
Proof.
  assert (Hcond : bufferingConditions examples.failoverWatcher
                    (examples.primaryTarget "ks" "-80")).
  { split; [reflexivity|].
    exists examples.failoverKeyspace, (examples.shardOf "-80" 1 false true).
    split_and!; [vm_compute; reflexivity|reflexivity|vm_compute; reflexivity
                |discriminate|discriminate|reflexivity..]. }
  split; [exact Hcond|].
  apply (proj1 (@ShouldStartBufferingForTarget_spec examples.forwardRange
                  (examples.staticServer examples.plainRecords)
                  examples.failoverWatcher (examples.primaryTarget "ks" "-80"))).
  exact Hcond.
Defined.

Lemma waitForReparent_latch_witness :
  shardAt examples.failoverWatcher "ks" "-80"
  = Some (examples.shardOf "-80" 1 false true)
  ∧ waitForReparent (examples.shardOf "-80" 1 false true) = true
  ∧ serving (examples.shardOf "-80" 1 false true) = false
  ∧ Serving (examples.health "-80" 1 true 100) = true
  ∧ (PrimaryTermStartTime (examples.health "-80" 1 true 100)
     ≤ externallyReparented (examples.shardOf "-80" 1 false true))%Z
  ∧ shardAt (@step examples.forwardRange
               (examples.staticServer examples.plainRecords)
               examples.failoverWatcher
               (OpHealthCheck (examples.health "-80" 1 true 100))).1 "ks" "-80"
    = Some (examples.shardOf "-80" 1 false true).
Proof.
  split_and!; [vm_compute; reflexivity|reflexivity..|done|].
  assert (Hafter : ∃ sstate',
    shardAt (@step examples.forwardRange
               (examples.staticServer examples.plainRecords)
               examples.failoverWatcher
               (OpHealthCheck (examples.health "-80" 1 true 100))).1 "ks" "-80"
    = Some sstate') by (eexists; vm_compute; reflexivity).
  destruct Hafter as [sstate' Hafter]. rewrite Hafter. f_equal.
  apply (proj1 (proj2 (proj2 (@waitForReparent_latch examples.forwardRange)))
           (examples.staticServer examples.plainRecords)
           examples.failoverWatcher (examples.health "-80" 1 true 100)
           "ks" "-80" (examples.shardOf "-80" 1 false true) sstate');
    [vm_compute; reflexivity|reflexivity..|done|exact Hafter].
Defined.

Lemma externallyReparented_monotonic_witness :
  shardAt examples.failoverWatcher "ks" "-80"
  = Some (examples.shardOf "-80" 1 false true)
  ∧ shardAt (@step examples.forwardRange
               (examples.staticServer examples.plainRecords)
               examples.failoverWatcher
               (OpHealthCheck (examples.health "-80" 3 true 150))).1 "ks" "-80"
    = Some {| target := examples.primaryTarget "ks" "-80"; serving := true;
              waitForReparent := false; externallyReparented := 150;
              currentPrimary := Some (examples.alias 3) |}
  ∧ (150%Z = externallyReparented (examples.shardOf "-80" 1 false true)
     ∨ ((externallyReparented (examples.shardOf "-80" 1 false true) < 150)%Z
        ∧ ∃ th, OpHealthCheck (examples.health "-80" 3 true 150) = OpHealthCheck th
            ∧ querypb.Keyspace (Target th) = "ks"
            ∧ querypb.Shard (Target th) = "-80"
            ∧ querypb.TabletType (Target th) = topodatapb.PRIMARY
            ∧ 150%Z = PrimaryTermStartTime th
            ∧ PrimaryTermStartTime th ≠ 0%Z)).
Proof.
  split_and!; [vm_compute; reflexivity..|].
  apply (proj1 (proj2 (proj2 (@externallyReparented_monotonic
                                examples.forwardRange)))
           (examples.staticServer examples.plainRecords)
           examples.failoverWatcher
           (OpHealthCheck (examples.health "-80" 3 true 150)) "ks" "-80"
           (examples.shardOf "-80" 1 false true)
           {| target := examples.primaryTarget "ks" "-80"; serving := true;
              waitForReparent := false; externallyReparented := 150;
              currentPrimary := Some (examples.alias 3) |});
    vm_compute; reflexivity.
Defined.


(** The planned reparent of shard ["-80"]: both shards serve and the
    keyspace is consistent; the routing layer marks ["-80"] not serving for
    a reparent and buffering starts; a stale serving report of the old
    primary changes nothing; the report of the new primary, with a greater
    term start, ends the incident with a second event. *)
Example planned_reparent :
  let ts := examples.staticServer examples.plainRecords in
  let target_ := examples.primaryTarget "ks" "-80" in
  let started := @run examples.forwardRange (NewKeyspaceEventWatcher "aa")
                   examples.bothServing in
  let marked := (@MarkShardNotServing examples.forwardRange ts started.1
                   "ks" "-80" true).1.2 in
  let stale := @step examples.forwardRange ts marked
                 (OpHealthCheck (examples.health "-80" 1 true 100)) in
  let promoted := @step examples.forwardRange ts stale.1
                    (OpHealthCheck (examples.health "-80" 3 true 150)) in
  length started.2 = 1%nat
  ∧ (@ShouldStartBufferingForTarget examples.forwardRange ts marked target_).1.1
    = (Some (examples.alias 1), true)
  ∧ stale.2 = []
  ∧ (@ShouldStartBufferingForTarget examples.forwardRange ts stale.1 target_).1.1
    = (Some (examples.alias 1), true)
  ∧ length promoted.2 = 1%nat
  ∧ (@ShouldStartBufferingForTarget examples.forwardRange ts promoted.1 target_).1.1
    = (Some (examples.alias 3), false).
Proof. vm_compute. by split_and!. Qed.

(** A MoveTables of table ["t"] with denied tables on ["-80"]: the detector
    says Switching while the rule still points to ["ks"], and Switched once
    the rule points to another keyspace. *)
Example move_tables_switch :
  let ts := examples.staticServer examples.deniedRecords in
  (@getMoveTablesStatus examples.forwardRange ts examples.migratingKeyspace
     (examples.routeTable "ks.t")).1
  = {| Typ := MoveTablesRegular; State := MoveTablesSwitching |}
  ∧ (@getMoveTablesStatus examples.forwardRange ts examples.migratingKeyspace
       (examples.routeTable "otherks.t")).1
    = {| Typ := MoveTablesRegular; State := MoveTablesSwitched |}.
Proof. vm_compute. by split. Qed.

(** * Further properties of the watcher *)

(** ** The resolution of an incident *)

(** The event of a shard state. *)
Definition shardEvent (entry : string * shardState) : ShardEvent :=
  {| evTablet := currentPrimary entry.2; evTarget := target entry.2;
     evServing := serving entry.2 |}.

Lemma resolveShards_events entries events shards_ :
  (resolveShards entries events shards_).1 = (events ++ (shardEvent <$> entries))%list.
Proof.
  revert events shards_. induction entries as [|[s ss] rest IH];
    intros events shards_; simpl.
  - by rewrite app_nil_r.
  - rewrite IH. by rewrite <-app_assoc.
Qed.

(** X1: [ensureConsistentLocked] broadcasts exactly when it turns [consistent]
    from false to true, and changes nothing when it does not broadcast. *)
Theorem ensureConsistentLocked_transition `{MapRange} (cell : string)
    (kss : keyspaceState) :
  ((ensureConsistentLocked cell kss).2 = None →
   (ensureConsistentLocked cell kss).1 = kss)
  ∧ (is_Some (ensureConsistentLocked cell kss).2
     ↔ consistent kss = false
       ∧ consistent (ensureConsistentLocked cell kss).1 = true).
Proof.
  destruct (ensureConsistentLocked_ensured cell kss)
    as [|primary active evs shards' Hc Hp Hprim Hstc Hact Hout Hres]; simpl.
  - split; [done|]. split.
    + by intros [? ?].
    + intros [? ?]. congruence.
  - split; [done|]. split; [done|]. intros _. by eexists.
Qed.

(** X2: The event that [ensureConsistentLocked] broadcasts names the cell and
    the keyspace, lists every shard that was tracked, each once, with its
    primary, target and serving bit, and carries the MoveTables state that
    was recorded, which is of type None or Switched.  After the broadcast
    the shards that are tracked are those that were serving, with their
    states unchanged, and no MoveTables state is recorded. *)
Theorem ensureConsistentLocked_event `{MapRange} (cell : string)
    (kss : keyspaceState) (ev : KeyspaceEvent) :
  (ensureConsistentLocked cell kss).2 = Some ev →
  Cell ev = cell
  ∧ Keyspace ev = keyspace kss
  ∧ Shards ev ≡ₚ shardEvent <$> map_to_list (shards kss)
  ∧ evMoveTablesState ev
    = default {| Typ := MoveTablesNone; State := MoveTablesUnknown |}
        (moveTablesState kss)
  ∧ (Typ (evMoveTablesState ev) = MoveTablesNone
     ∨ State (evMoveTablesState ev) = MoveTablesSwitched)
  ∧ (∀ s sstate,
       shards (ensureConsistentLocked cell kss).1 !! s = Some sstate
       ↔ shards kss !! s = Some sstate ∧ serving sstate = true)
  ∧ moveTablesState (ensureConsistentLocked cell kss).1 = None.
Proof.
  destruct (ensureConsistentLocked_ensured cell kss)
    as [|primary active evs shards' Hc Hp Hprim Hstc Hact Hout Hres]; [done|].
  simpl. intros [= <-]. simpl.
  pose proof (resolveShards_events (rangeMap (shards kss)) [] (shards kss)) as Hevs.
  rewrite Hres in Hevs. simpl in Hevs.
  split_and!; [done..| | | | |done].
  - rewrite Hevs. unfold rangeMap. by rewrite range_order_perm.
  - by destruct (moveTablesState kss).
  - unfold moveTablesPending in Hp. destruct (moveTablesState kss) as [mts|];
      [|by left].
    apply andb_false_iff in Hp as [Hp|Hp]; apply negb_false_iff in Hp;
      apply bool_decide_eq_true in Hp; [by left|by right].
  - intros s sstate.
    pose proof (resolveShards_rangeMap [] (shards kss) s sstate) as Hiff.
    by rewrite Hres in Hiff.
Qed.

Lemma ensureConsistentLocked_event_witness :
  ∃ ev,
    (@ensureConsistentLocked examples.forwardRange "aa"
       examples.switchedKeyspace).2 = Some ev
    ∧ Cell ev = "aa"
    ∧ Keyspace ev = keyspace examples.switchedKeyspace
    ∧ Shards ev ≡ₚ shardEvent <$> map_to_list (shards examples.switchedKeyspace)
    ∧ evMoveTablesState ev
      = default {| Typ := MoveTablesNone; State := MoveTablesUnknown |}
          (moveTablesState examples.switchedKeyspace)
    ∧ (Typ (evMoveTablesState ev) = MoveTablesNone
       ∨ State (evMoveTablesState ev) = MoveTablesSwitched)
    ∧ (∀ s sstate,
         shards (@ensureConsistentLocked examples.forwardRange "aa"
                   examples.switchedKeyspace).1 !! s = Some sstate
         ↔ shards examples.switchedKeyspace !! s = Some sstate
           ∧ serving sstate = true)
    ∧ moveTablesState (@ensureConsistentLocked examples.forwardRange "aa"
                         examples.switchedKeyspace).1 = None.
Proof.
  eexists. split; [vm_compute; reflexivity|].
  apply (@ensureConsistentLocked_event examples.forwardRange "aa"
           examples.switchedKeyspace).
  vm_compute. reflexivity.
Defined.

(** ** The events of a run *)














(** ** Invariants of the tracked shards *)

(** In a consistent keyspace every tracked shard serves. *)
Definition servingInv (kss : keyspaceState) : Prop :=
  consistent kss = true →
  ∀ s sstate, shards kss !! s = Some sstate → serving sstate = true.

Lemma ensureConsistentLocked_servingInv `{MapRange} cell kss :
  servingInv kss → servingInv (ensureConsistentLocked cell kss).1.
Proof.
  intros Hinv.
  destruct (ensureConsistentLocked_ensured cell kss)
    as [|primary active evs shards' Hc Hp Hprim Hstc Hact Hout Hres]; [done|].
  intros _ s sstate. simpl.
  pose proof (resolveShards_rangeMap [] (shards kss) s sstate) as Hiff.
  rewrite Hres in Hiff. by intros [_ ?]%Hiff.
Qed.

Lemma servingInv_run `{MapRange} cell ops :
  allKeyspaces servingInv (run (NewKeyspaceEventWatcher cell) ops).1.
Proof.
  apply run_keeps; [..|apply allKeyspaces_new].
  - by intros k ?.
  - intros c kss th Hinv. unfold onHealthCheck.
    case_bool_decide as Hprim; simpl; [|done].
    set (shard := querypb.Shard (Target th)).
    assert (Hmid : ∀ sstate0,
      (shards kss !! shard = Some sstate0
       ∨ (serving sstate0 = false ∧ Serving th = true)) →
      servingInv
        (let '(sstate1, c1) := updateShard th sstate0 (consistent kss) in
         ensureConsistentLocked c
           (set_consistent c1
              (set_shards (<[shard := sstate1]> (shards kss)) kss))).1).
    { intros sstate0 Hcase.
      pose proof (updateShard_consistent th sstate0 (consistent kss)) as Hupd.
      destruct (updateShard th sstate0 (consistent kss)) as [sstate1 c1].
      simpl in Hupd. apply ensureConsistentLocked_servingInv.
      destruct c1; [|by intros ?].
      destruct Hupd as (Hc & Hth & Hs & _); [done|].
      intros _ s sstate. simpl. destruct (decide (shard = s)) as [<-|Hne].
      - rewrite lookup_insert_eq. intros [= <-]. rewrite Hs.
        destruct Hcase as [Hl|[? ?]]; [by eapply Hinv|congruence].
      - rewrite lookup_insert_ne by done. by apply Hinv. }
    destruct (shards kss !! shard) as [sstate|] eqn:Hl.
    + apply Hmid. by left.
    + destruct (Serving th) eqn:Hth; simpl; [|done]. apply Hmid. by right.
  - intros c kss nk ne Hinv. unfold onSrvKeyspace.
    destruct (topo.IsErrType ne topo.NoNode); [done|].
    destruct ne; [done|]. case_bool_decide; [done|].
    match goal with
    | |- context [ensureConsistentLocked c ?k] =>
        pose proof (ensureConsistentLocked_servingInv c k) as Hens;
        destruct (ensureConsistentLocked c k) as [kss' ev]
    end.
    simpl in *. apply Hens. by case_bool_decide.
  - intros ts c kss vs err Hinv. unfold onSrvVSchema.
    destruct vs as [vs|]; [|done].
    destruct (getMoveTablesStatus ts kss vs) as [mt kerr].
    case_bool_decide; simpl; [done|].
    match goal with
    | |- context [ensureConsistentLocked c ?k] =>
        pose proof (ensureConsistentLocked_servingInv c k) as Hens;
        destruct (ensureConsistentLocked c k) as [kss' ev]
    end.
    simpl in *. apply Hens. by intros ?.
  - by intros kss shard sstate b _ _ ?.
Qed.

(** X4: In every state that the watcher reaches from its start, a keyspace with
    a tracked shard that is not serving is not consistent: the test of
    [consistent] in [ShouldStartBufferingForTarget] never decides. *)
Theorem not_serving_inconsistent `{MapRange} (cell : string)
    (ops : list (srvtopo.Server * Op)) (k s : string) (kss : keyspaceState)
    (sstate : shardState) :
  keyspaces (run (NewKeyspaceEventWatcher cell) ops).1 !! k = Some kss →
  shards kss !! s = Some sstate →
  serving sstate = false →
  consistent kss = false.
Proof.
  intros Hk Hs Hserving. destruct (consistent kss) eqn:Hc; [|done].
  pose proof (servingInv_run cell ops k kss Hk Hc s sstate Hs). congruence.
Qed.

Lemma not_serving_inconsistent_witness :
  ∃ kss sstate,
    keyspaces (@run examples.forwardRange (NewKeyspaceEventWatcher "aa")
                 examples.reparentStarted).1 !! "ks" = Some kss
    ∧ shards kss !! "-80" = Some sstate
    ∧ serving sstate = false
    ∧ consistent kss = false.
Proof.
  eexists _, _. split; [vm_compute; reflexivity|].
  split; [vm_compute; reflexivity|]. split; [reflexivity|].
  eapply (@not_serving_inconsistent examples.forwardRange "aa"
            examples.reparentStarted "ks" "-80");
    [vm_compute; reflexivity|vm_compute; reflexivity|reflexivity].
Defined.

(** What a health report keeps of the primary of a shard: the reparent
    timestamp is not negative, and it is positive once a primary is
    recorded. *)
Definition primaryInv (kss : keyspaceState) : Prop :=
  ∀ s sstate, shards kss !! s = Some sstate →
    (0 ≤ externallyReparented sstate)%Z
    ∧ (currentPrimary sstate ≠ None → (0 < externallyReparented sstate)%Z).

Lemma updateShard_primary th sstate c :
  (0 ≤ externallyReparented sstate)%Z
  ∧ (currentPrimary sstate ≠ None → (0 < externallyReparented sstate)%Z) →
  (0 ≤ externallyReparented (updateShard th sstate c).1)%Z
  ∧ (currentPrimary (updateShard th sstate c).1 ≠ None →
     (0 < externallyReparented (updateShard th sstate c).1)%Z).
Proof.
  unfold updateShard.
  destruct sstate as [tg sv wfr ext cp], th as [tb tgt thsv term]; simpl.
  intros [Hext Hcp].
  destruct (bool_decide (term = 0%Z)) eqn:Hz, (term >? ext)%Z eqn:Hgt;
    destruct sv, thsv, wfr; simpl; rewrite ?Hgt, ?Hz; simpl; try done.
  all: split; [lia|intros _; lia].
Qed.

Lemma primaryInv_run `{MapRange} cell ops :
  allKeyspaces primaryInv (run (NewKeyspaceEventWatcher cell) ops).1.
Proof.
  apply run_keeps; [..|apply allKeyspaces_new].
  - intros k s sstate. simpl. by rewrite lookup_empty.
  - intros c kss th Hinv s sstate'.
    intros [[Hl _]|(_ & _ & [(sstate & Hl & ->)|(_ & _ & ->)])]%onHealthCheck_shard.
    + by eapply Hinv.
    + apply updateShard_primary. by eapply Hinv.
    + apply updateShard_primary. simpl. split; [lia|done].
  - intros c kss nk ne Hinv s sstate Hl%onSrvKeyspace_shards. by eapply Hinv.
  - intros ts c kss vs err Hinv s sstate Hl%onSrvVSchema_shards. by eapply Hinv.
  - intros kss shard sstate b Hinv Hshard s sstate'. simpl.
    destruct (decide (shard = s)) as [->|Hne].
    + rewrite lookup_insert_eq. intros [= <-].
      destruct (Hinv s sstate Hshard). by destruct b.
    + rewrite lookup_insert_ne by done. by eapply Hinv.
Qed.

(** X5: In every state that the watcher reaches from its start, the reparent
    timestamp of a tracked shard is not negative, and a shard with a
    recorded primary has a positive timestamp: [currentPrimary] is only
    written together with a term start above the stored one. *)
Theorem primary_has_term_start `{MapRange} (cell : string)
    (ops : list (srvtopo.Server * Op)) (k s : string) (kss : keyspaceState)
    (sstate : shardState) :
  keyspaces (run (NewKeyspaceEventWatcher cell) ops).1 !! k = Some kss →
  shards kss !! s = Some sstate →
  (0 ≤ externallyReparented sstate)%Z
  ∧ (currentPrimary sstate ≠ None → (0 < externallyReparented sstate)%Z).
Proof. intros Hk Hs. by eapply (primaryInv_run cell ops). Qed.

Lemma primary_has_term_start_witness :
  ∃ kss sstate,
    keyspaces (@run examples.forwardRange (NewKeyspaceEventWatcher "aa")
                 examples.reparentStarted).1 !! "ks" = Some kss
    ∧ shards kss !! "-80" = Some sstate
    ∧ (0 ≤ externallyReparented sstate)%Z
    ∧ (currentPrimary sstate ≠ None → (0 < externallyReparented sstate)%Z).
Proof.
  eexists _, _. split; [vm_compute; reflexivity|].
  split; [vm_compute; reflexivity|].
  eapply (@primary_has_term_start examples.forwardRange "aa"
            examples.reparentStarted "ks" "-80");
    vm_compute; reflexivity.
Defined.

(** ** Properties of a keyspace state that depend on its name *)

Section keyed.
Context `{MapRange}.
Variable P : string → keyspaceState → Prop.
Hypothesis P_empty : ∀ k, P k (emptyKeyspaceState k).
Hypothesis P_onHealthCheck :
  ∀ cell kss th,
    P (querypb.Keyspace (Target th)) kss →
    P (querypb.Keyspace (Target th)) (onHealthCheck cell kss th).1.
Hypothesis P_onSrvKeyspace :
  ∀ k cell kss newKeyspace newError,
    P k kss → P k (onSrvKeyspace cell kss newKeyspace newError).1.1.
Hypothesis P_onSrvVSchema :
  ∀ k ts cell kss vs err, P k kss → P k (onSrvVSchema ts cell kss vs err).1.1.
Hypothesis P_markNotServing :
  ∀ k kss shard sstate isReparentErr,
    P k kss → shards kss !! shard = Some sstate →
    P k (markNotServing kss shard sstate isReparentErr).

Definition keyedKeyspaces (kew : KeyspaceEventWatcher) : Prop :=
  ∀ k kss, keyspaces kew !! k = Some kss → P k kss.

Lemma deliver_keyed {V : Type} k
    (cb : keyspaceState → V → keyspaceState * option KeyspaceEvent * bool) ds kss :
  (∀ kss d, P k kss → P k (cb kss d).1.1) → P k kss → P k (deliver cb kss ds).1.
Proof.
  intros Hcb. revert kss. induction ds as [|d rest IH]; intros kss HP; [done|].
  simpl. specialize (Hcb kss d HP).
  destruct (cb kss d) as [[kss1 ev] continue]. simpl in Hcb.
  destruct continue; [|done].
  specialize (IH kss1 Hcb). by destruct (deliver cb kss1 rest).
Qed.

Lemma newKeyspaceState_keyed ts cell k : P k (newKeyspaceState ts cell k).1.
Proof.
  unfold newKeyspaceState.
  pose proof (deliver_keyed k (λ kss d, onSrvKeyspace cell kss d.1 d.2)
                (srvtopo.WatchSrvKeyspace ts cell k) (emptyKeyspaceState k)) as H1.
  destruct (deliver _ (emptyKeyspaceState k) _) as [kss1 evs1].
  pose proof (deliver_keyed k (λ kss d, onSrvVSchema ts cell kss d.1 d.2)
                (srvtopo.WatchSrvVSchema ts cell) kss1) as H2.
  destruct (deliver _ kss1 _) as [kss2 evs2]. simpl in *.
  apply H2; [intros; by apply P_onSrvVSchema|].
  apply H1; [intros; by apply P_onSrvKeyspace|]. apply P_empty.
Qed.

Lemma keyedKeyspaces_insert kew k kss :
  keyedKeyspaces kew → P k kss →
  keyedKeyspaces (set_keyspaces (<[k := kss]> (keyspaces kew)) kew).
Proof.
  intros Hall HP k' kss'. simpl.
  destruct (decide (k = k')) as [->|Hne].
  - rewrite lookup_insert_eq. by intros [= <-].
  - rewrite lookup_insert_ne by done. apply Hall.
Qed.

Lemma getKeyspaceStatus_keyed ts kew k :
  keyedKeyspaces kew →
  keyedKeyspaces (getKeyspaceStatus ts kew k).1.2
  ∧ ∀ kss, (getKeyspaceStatus ts kew k).1.1 = Some kss → P k kss.
Proof.
  intros Hall. unfold getKeyspaceStatus.
  assert (Hdel : ∀ kew0, keyedKeyspaces kew0 →
    keyedKeyspaces (set_keyspaces (delete k (keyspaces kew0)) kew0)).
  { intros kew0 H0 k' kss'. simpl. intros [_ Hl]%lookup_delete_Some.
    by eapply H0. }
  destruct (keyspaces kew !! k) as [kss|] eqn:Hl.
  - destruct (deleted kss); simpl.
    + split; [by apply Hdel|done].
    + split; [done|]. intros ? [= <-]. by eapply Hall.
  - pose proof (newKeyspaceState_keyed ts (localCell kew) k) as Hnew.
    destruct (newKeyspaceState ts (localCell kew) k) as [kss evs]. simpl in Hnew.
    destruct (deleted kss); simpl.
    + split; [|done]. apply (Hdel (set_keyspaces _ kew)).
      by apply keyedKeyspaces_insert.
    + split; [by apply keyedKeyspaces_insert|]. by intros ? [= <-].
Qed.

Lemma step_keyed ts kew op : keyedKeyspaces kew → keyedKeyspaces (step ts kew op).1.
Proof.
  intros Hall. destruct op as [th|k nk ne|k vs err|k shard b|t|t|k]; simpl.
  - unfold processHealthCheck.
    destruct (getKeyspaceStatus_keyed ts kew (querypb.Keyspace (Target th)) Hall)
      as [Hall' Hkss].
    destruct (getKeyspaceStatus _ _ _) as [[[kss|] kew'] evs]; simpl in *; [|done].
    pose proof (P_onHealthCheck (localCell kew') kss th (Hkss _ eq_refl)) as HP.
    destruct (onHealthCheck _ kss th) as [kss' ev]. simpl in *.
    by apply keyedKeyspaces_insert.
  - unfold callback. destruct (keyspaces kew !! k) as [kss|] eqn:Hl; [|done].
    pose proof (P_onSrvKeyspace k (localCell kew) kss nk ne (Hall _ _ Hl)) as HP.
    destruct (onSrvKeyspace _ _ _ _) as [[kss' ev] b]. simpl in *.
    by apply keyedKeyspaces_insert.
  - unfold callback. destruct (keyspaces kew !! k) as [kss|] eqn:Hl; [|done].
    pose proof (P_onSrvVSchema k ts (localCell kew) kss vs err (Hall _ _ Hl)) as HP.
    destruct (onSrvVSchema _ _ _ _ _) as [[kss' ev] b]. simpl in *.
    by apply keyedKeyspaces_insert.
  - unfold MarkShardNotServing.
    destruct (getKeyspaceStatus_keyed ts kew k Hall) as [Hall' Hkss].
    destruct (getKeyspaceStatus _ _ _) as [[[kss|] kew'] evs]; simpl in *; [|done].
    destruct (shards kss !! shard) as [sstate|] eqn:Hl; simpl; [|done].
    apply keyedKeyspaces_insert; [done|]. apply P_markNotServing; [|done].
    by apply Hkss.
  - unfold TargetIsBeingResharded. case_bool_decide; simpl; [|done].
    destruct (getKeyspaceStatus_keyed ts kew (querypb.Keyspace t) Hall) as [Hall' _].
    by destruct (getKeyspaceStatus _ _ _) as [[[kss|] kew'] evs].
  - unfold ShouldStartBufferingForTarget. case_bool_decide; simpl; [|done].
    destruct (getKeyspaceStatus_keyed ts kew (querypb.Keyspace t) Hall) as [Hall' _].
    destruct (getKeyspaceStatus _ _ _) as [[[kss|] kew'] evs]; simpl in *; [|done].
    by destruct (shards kss !! _).
  - destruct (getKeyspaceStatus_keyed ts kew k Hall) as [Hall' _].
    by destruct (getKeyspaceStatus _ _ _) as [[? kew'] evs].
Qed.

Lemma run_keyed kew ops : keyedKeyspaces kew → keyedKeyspaces (run kew ops).1.
Proof.
  revert kew. induction ops as [|[ts op] rest IH]; intros kew Hall; [done|].
  simpl. pose proof (step_keyed ts kew op Hall) as Hstep.
  destruct (step ts kew op) as [kew1 evs1]. simpl in Hstep.
  specialize (IH kew1 Hstep). by destruct (run kew1 rest).
Qed.

End keyed.

(** The name of a keyspace state is its key, and the target of a tracked
    shard names that keyspace, the key of the shard and the PRIMARY type. *)
Definition targetInv (k : string) (kss : keyspaceState) : Prop :=
  keyspace kss = k
  ∧ ∀ s sstate, shards kss !! s = Some sstate →
      querypb.Keyspace (target sstate) = k
      ∧ querypb.Shard (target sstate) = s
      ∧ querypb.TabletType (target sstate) = topodatapb.PRIMARY.

Lemma updateShard_target th sstate c :
  target (updateShard th sstate c).1 = target sstate.
Proof.
  unfold updateShard.
  destruct sstate as [tg sv wfr ext cp], th as [tb tgt thsv term]; simpl.
  destruct (bool_decide (term = 0%Z)) eqn:Hz, (term >? ext)%Z eqn:Hgt;
    destruct sv, thsv, wfr; simpl; rewrite ?Hgt, ?Hz; by simpl.
Qed.

Lemma onHealthCheck_keyspace `{MapRange} cell kss th :
  keyspace (onHealthCheck cell kss th).1 = keyspace kss.
Proof.
  unfold onHealthCheck. case_bool_decide; simpl; [|done].
  destruct (shards kss !! _) as [sstate|].
  - destruct (updateShard th sstate (consistent kss)) as [sstate' c'].
    by rewrite (proj1 (ensureConsistentLocked_frame cell _)).
  - destruct (Serving th); simpl; [|done].
    destruct (updateShard th _ (consistent kss)) as [sstate' c'].
    by rewrite (proj1 (ensureConsistentLocked_frame cell _)).
Qed.

Lemma onSrvKeyspace_keyspace `{MapRange} cell kss newKeyspace newError :
  keyspace (onSrvKeyspace cell kss newKeyspace newError).1.1 = keyspace kss.
Proof.
  unfold onSrvKeyspace. destruct (topo.IsErrType newError topo.NoNode); [done|].
  destruct newError; [done|]. case_bool_decide; [done|].
  match goal with
  | |- context [ensureConsistentLocked cell ?k] =>
      pose proof (proj1 (ensureConsistentLocked_frame cell k)) as Hens;
      destruct (ensureConsistentLocked cell k) as [kss' ev]
  end.
  simpl in *. rewrite Hens. by case_bool_decide.
Qed.

Lemma onSrvVSchema_keyspace `{MapRange} ts cell kss vs err :
  keyspace (onSrvVSchema ts cell kss vs err).1.1 = keyspace kss.
Proof.
  unfold onSrvVSchema. destruct vs as [vs|]; [|done].
  destruct (getMoveTablesStatus ts kss vs) as [mt kerr].
  case_bool_decide; simpl; [done|].
  match goal with
  | |- context [ensureConsistentLocked cell ?k] =>
      pose proof (proj1 (ensureConsistentLocked_frame cell k)) as Hens;
      destruct (ensureConsistentLocked cell k) as [kss' ev]
  end.
  simpl in *. by rewrite Hens.
Qed.

Lemma targetInv_run `{MapRange} cell ops :
  keyedKeyspaces targetInv (run (NewKeyspaceEventWatcher cell) ops).1.
Proof.
  apply run_keyed.
  - intros k. split; [done|]. intros s sstate. simpl. by rewrite lookup_empty.
  - intros c kss th [Hname Hinv]. split; [by rewrite onHealthCheck_keyspace|].
    intros s sstate'.
    intros [[Hl _]|(Hp & Hs & [(sstate & Hl & ->)|(_ & _ & ->)])]%onHealthCheck_shard.
    + by eapply Hinv.
    + rewrite updateShard_target. by eapply Hinv.
    + by rewrite updateShard_target.
  - intros k c kss nk ne [Hname Hinv]. split; [by rewrite onSrvKeyspace_keyspace|].
    intros s sstate Hl%onSrvKeyspace_shards. by eapply Hinv.
  - intros k ts c kss vs err [Hname Hinv].
    split; [by rewrite onSrvVSchema_keyspace|].
    intros s sstate Hl%onSrvVSchema_shards. by eapply Hinv.
  - intros k kss shard sstate b [Hname Hinv] Hshard. split; [done|].
    intros s sstate'. simpl. destruct (decide (shard = s)) as [->|Hne].
    + rewrite lookup_insert_eq. intros [= <-].
      destruct (Hinv s sstate Hshard). by destruct b.
    + rewrite lookup_insert_ne by done. by eapply Hinv.
  - intros k kss. simpl. by rewrite lookup_empty.
Qed.

(** X6: In every state that the watcher reaches from its start, a keyspace
    state is stored under its own name, and a shard state is stored under
    the shard name of its target, which is a PRIMARY target of that
    keyspace. *)
Theorem tracked_target `{MapRange} (cell : string)
    (ops : list (srvtopo.Server * Op)) (k s : string) (kss : keyspaceState)
    (sstate : shardState) :
  keyspaces (run (NewKeyspaceEventWatcher cell) ops).1 !! k = Some kss →
  shards kss !! s = Some sstate →
  keyspace kss = k
  ∧ querypb.Keyspace (target sstate) = k
  ∧ querypb.Shard (target sstate) = s
  ∧ querypb.TabletType (target sstate) = topodatapb.PRIMARY.
Proof.
  intros Hk Hs. destruct (targetInv_run cell ops k kss Hk) as [Hname Hinv].
  split; [done|]. by apply Hinv.
Qed.

Lemma tracked_target_witness :
  ∃ kss sstate,
    keyspaces (@run examples.forwardRange (NewKeyspaceEventWatcher "aa")
                 examples.reparentStarted).1 !! "ks" = Some kss
    ∧ shards kss !! "-80" = Some sstate
    ∧ keyspace kss = "ks"
    ∧ querypb.Keyspace (target sstate) = "ks"
    ∧ querypb.Shard (target sstate) = "-80"
    ∧ querypb.TabletType (target sstate) = topodatapb.PRIMARY.
Proof.
  eexists _, _. split; [vm_compute; reflexivity|].
  split; [vm_compute; reflexivity|].
  eapply (@tracked_target examples.forwardRange "aa"
            examples.reparentStarted "ks" "-80");
    vm_compute; reflexivity.
Defined.

(** ** Health reports *)

Lemma updateShard_again th sstate c :
  (∀ c2, updateShard th (updateShard th sstate c).1 c2
         = ((updateShard th sstate c).1, c2))
  ∨ ((updateShard th sstate c).1 = sstate
     ∧ (updateShard th sstate c).2 = false
     ∧ serving sstate = false
     ∧ updateShard th sstate false = (sstate, false)).
Proof.
  unfold updateShard.
  destruct sstate as [tg sv wfr ext cp], th as [tb tgt thsv term]; simpl.
  assert (Hirr : (term >? term)%Z = false) by lia.
  destruct (bool_decide (term = 0%Z)) eqn:Hz, (term >? ext)%Z eqn:Hgt;
    destruct sv, thsv, wfr; simpl; rewrite ?Hgt, ?Hz; simpl;
    rewrite ?Hgt, ?Hz, ?Hirr, ?andb_false_r; simpl;
    first [by left; intros c2; simpl; rewrite ?Hgt, ?Hz, ?Hirr, ?andb_false_r
          |by right].
Qed.

Lemma updateShard_fresh th c (tg : querypb.Target) :
  Serving th = true →
  serving (updateShard th
             {| target := tg; serving := false; waitForReparent := false;
                externallyReparented := 0; currentPrimary := None |} c).1 = true
  ∧ (updateShard th
       {| target := tg; serving := false; waitForReparent := false;
          externallyReparented := 0; currentPrimary := None |} c).2 = false.
Proof.
  unfold updateShard. destruct th as [tb tgt thsv term]; simpl. intros ->. simpl.
  by destruct (_ && _).
Qed.

Lemma servingOutsidePartition_true active entries s sstate :
  (s, sstate) ∈ entries → serving sstate = true →
  default false (active !! s) = false →
  servingOutsidePartition active entries = true.
Proof.
  intros Hin Hs Hact.
  destruct (servingOutsidePartition active entries) eqn:Hout; [done|].
  pose proof (servingOutsidePartition_false _ _ Hout s sstate Hin Hs).
  congruence.
Qed.

(** X7: Delivering the same health report a second time broadcasts no event. *)
Theorem onHealthCheck_replay `{MapRange} (cell : string) (kss : keyspaceState)
    (th : TabletHealth) :
  (onHealthCheck cell (onHealthCheck cell kss th).1 th).2 = None.
Proof.
  set (shard := querypb.Shard (Target th)).
  (* the second delivery on a state in which the shard holds the updated
     state and the keyspace is left as the update left it *)
  assert (Hsame : ∀ kss1 s1 c1,
    querypb.TabletType (Target th) = topodatapb.PRIMARY →
    shards kss1 !! shard = Some s1 → consistent kss1 = c1 →
    updateShard th s1 c1 = (s1, c1) →
    ensureConsistentLocked cell kss1 = (kss1, None) →
    (onHealthCheck cell kss1 th).2 = None).
  { intros kss1 s1 c1 Hp Hl Hc Hupd Hens. unfold onHealthCheck.
    rewrite bool_decide_eq_true_2 by done. simpl. fold shard.
    rewrite Hl, Hc, Hupd, insert_id by done. subst c1.
    assert (set_consistent (consistent kss1) (set_shards (shards kss1) kss1) = kss1)
      as -> by (by destruct kss1).
    by rewrite Hens. }
  assert (Hmid : ∀ s0,
    querypb.TabletType (Target th) = topodatapb.PRIMARY →
    (shards kss !! shard = Some s0
     ∨ s0 = {| target := Target th; serving := false; waitForReparent := false;
               externallyReparented := 0; currentPrimary := None |}) →
    (onHealthCheck cell
       (let '(s1, c1) := updateShard th s0 (consistent kss) in
        ensureConsistentLocked cell
          (set_consistent c1 (set_shards (<[shard := s1]> (shards kss)) kss))).1
       th).2 = None).
  { intros s0 Hp Hs0.
    pose proof (updateShard_again th s0 (consistent kss)) as Hagain.
    destruct (updateShard th s0 (consistent kss)) as [s1 c1]. simpl in Hagain.
    set (mid := set_consistent c1 (set_shards (<[shard := s1]> (shards kss)) kss)).
    pose proof (ensureConsistentLocked_ensured cell mid) as Hens.
    destruct (ensureConsistentLocked cell mid) as [fin ev1] eqn:Heq.
    inversion Hens as [|primary active evs shards' Hc Hpend Hprim Hstc Hact Hout Hres];
      subst; simpl.
    - apply (Hsame mid s1 c1 Hp); [by simpl; rewrite lookup_insert_eq|done| |done].
      destruct Hagain as [Hfix|(-> & -> & _ & Hfix)]; [apply Hfix|done].
    - pose proof (λ s sstate, resolveShards_rangeMap [] (shards mid) s sstate)
        as Hleft.
      rewrite Hres in Hleft. simpl in Hleft.
      unfold onHealthCheck. rewrite bool_decide_eq_true_2 by done. simpl.
      fold shard. destruct (serving s1) eqn:Hs1.
      + assert (shards' !! shard = Some s1) as ->.
        { apply Hleft. by rewrite lookup_insert_eq. }
        destruct Hagain as [Hfix|(Heq0 & _ & Hserv & _)].
        * rewrite Hfix. by rewrite ensureConsistentLocked_consistent.
        * congruence.
      + assert (shards' !! shard = None) as ->.
        { destruct (shards' !! shard) as [s2|] eqn:Hl2; [|done].
          apply Hleft in Hl2 as [Hl2 Hs2]. rewrite lookup_insert_eq in Hl2.
          congruence. }
        destruct (Serving th) eqn:Hth; simpl; [|done].
        match goal with
        | |- context [updateShard th ?f true] =>
            destruct (updateShard_fresh th true (Target th) Hth) as [Hs2 Hc2];
            destruct (updateShard th f true) as [s2 c2]
        end.
        simpl in Hs2, Hc2. subst c2.
        unfold ensureConsistentLocked. simpl. simpl in Hprim.
        rewrite Hprim, Hstc. simpl.
        destruct (activeShards (<[shard := s2]> shards') _ _)
          as [active2|] eqn:Hact2; [|done].
        rewrite (servingOutsidePartition_true active2 _ shard s2); [done| |done|].
        * apply elem_of_rangeMap. by rewrite lookup_insert_eq.
        * apply activeShards_spec in Hact as [Hrefs _].
          apply activeShards_spec in Hact2 as [_ Hact2].
          destruct (default false (active2 !! shard)) eqn:Hd; [|done].
          apply Hact2 in Hd as [Hd|Hd]; [by rewrite lookup_empty in Hd|].
          apply list_elem_of_fmap in Hd as (r & Hname & Hr).
          destruct (Hrefs r Hr) as (ss & Hl & Hss). rewrite <-Hname in Hl.
          simpl in Hl. rewrite lookup_insert_eq in Hl. congruence. }
  unfold onHealthCheck at 2.
  case_bool_decide as Hp; simpl.
  2:{ unfold onHealthCheck. by rewrite bool_decide_eq_false_2. }
  fold shard. destruct (shards kss !! shard) as [s0|] eqn:Hl.
  - apply Hmid; [done|by left].
  - destruct (Serving th) eqn:Hth; simpl.
    + apply Hmid; [done|by right].
    + unfold onHealthCheck. rewrite bool_decide_eq_true_2 by done. simpl.
      fold shard. by rewrite Hl, Hth.
Qed.

(** The state of a shard seen for the first time (lines 370-371). *)
Definition freshShard (tg : querypb.Target) : shardState :=
  {| target := tg; serving := false; waitForReparent := false;
     externallyReparented := 0; currentPrimary := None |}.

Lemma onHealthCheck_primary `{MapRange} cell kss th sstate :
  querypb.TabletType (Target th) = topodatapb.PRIMARY →
  shards kss !! querypb.Shard (Target th) = Some sstate
  ∨ (shards kss !! querypb.Shard (Target th) = None ∧ Serving th = true
     ∧ sstate = freshShard (Target th)) →
  onHealthCheck cell kss th
  = ensureConsistentLocked cell
      (set_consistent (updateShard th sstate (consistent kss)).2
         (set_shards
            (<[querypb.Shard (Target th) := (updateShard th sstate (consistent kss)).1]>
               (shards kss)) kss)).
Proof.
  intros Hp Hs. unfold onHealthCheck. rewrite bool_decide_eq_true_2 by done.
  simpl. destruct Hs as [->|(-> & -> & ->)]; simpl; unfold freshShard;
    by destruct (updateShard _ _ _).
Qed.

Lemma updateShard_not_serving th sstate c :
  Serving th = false →
  serving (updateShard th sstate c).1 = false
  ∧ waitForReparent (updateShard th sstate c).1 = false.
Proof.
  unfold updateShard.
  destruct sstate as [tg sv wfr ext cp], th as [tb tgt thsv term]; simpl.
  intros ->.
  destruct (bool_decide (term = 0%Z)) eqn:Hz, (term >? ext)%Z eqn:Hgt;
    destruct sv, wfr; simpl; rewrite ?Hgt, ?Hz; simpl; done.
Qed.

Lemma updateShard_serving th sstate c :
  Serving th = true → waitForReparent sstate = false →
  serving (updateShard th sstate c).1 = true
  ∧ waitForReparent (updateShard th sstate c).1 = false.
Proof.
  unfold updateShard.
  destruct sstate as [tg sv wfr ext cp], th as [tb tgt thsv term]; simpl.
  intros -> ->.
  destruct (bool_decide (term = 0%Z)) eqn:Hz, (term >? ext)%Z eqn:Hgt;
    destruct sv; simpl; rewrite ?Hgt, ?Hz; simpl; done.
Qed.

(** X8: A report of a serving primary that follows a report of a primary not
    serving always brings the shard back: the report not serving clears
    the wait for a reparent, whatever the term start times. *)
Theorem onHealthCheck_recovers `{MapRange} (cell : string) (kss : keyspaceState)
    (th1 th2 : TabletHealth) :
  querypb.TabletType (Target th1) = topodatapb.PRIMARY →
  querypb.TabletType (Target th2) = topodatapb.PRIMARY →
  querypb.Shard (Target th2) = querypb.Shard (Target th1) →
  Serving th1 = false → Serving th2 = true →
  ∃ sstate,
    shards (onHealthCheck cell (onHealthCheck cell kss th1).1 th2).1
      !! querypb.Shard (Target th1) = Some sstate
    ∧ serving sstate = true ∧ waitForReparent sstate = false.
Proof.
  intros Hp1 Hp2 Hshard Hn Hs.
  set (mid := (onHealthCheck cell kss th1).1).
  assert (Hmid : ∀ s1, shards mid !! querypb.Shard (Target th1) = Some s1 →
                       waitForReparent s1 = false).
  { intros s1 Hl. apply onHealthCheck_shard in Hl as [[_ [?|?]]|(_ & _ & Hl)];
      [done|done|].
    destruct Hl as [(s0 & _ & ->)|(_ & Hs' & _)]; [|congruence].
    by apply updateShard_not_serving. }
  assert (∃ s1, (shards mid !! querypb.Shard (Target th2) = Some s1
                 ∨ (shards mid !! querypb.Shard (Target th2) = None
                    ∧ Serving th2 = true ∧ s1 = freshShard (Target th2)))
                ∧ waitForReparent s1 = false) as (s1 & Hs1 & Hw).
  { rewrite Hshard. destruct (shards mid !! querypb.Shard (Target th1)) as [s1|] eqn:Hl.
    - exists s1. split; [by left|by apply Hmid].
    - exists (freshShard (Target th2)). split; [by right|done]. }
  rewrite (onHealthCheck_primary cell mid th2 s1 Hp2 Hs1).
  destruct (updateShard_serving th2 s1 (consistent mid) Hs Hw) as [Hsv Hwf].
  exists (updateShard th2 s1 (consistent mid)).1. split; [|done].
  apply ensureConsistentLocked_serving; [|done].
  simpl. by rewrite <-Hshard, lookup_insert_eq.
Qed.

Lemma onHealthCheck_recovers_witness :
  ∃ sstate,
    shards (onHealthCheck (H := examples.forwardRange) "aa"
              (onHealthCheck (H := examples.forwardRange) "aa"
                 examples.failoverKeyspace
                 (examples.health "-80" 1 false 0)).1
              (examples.health "-80" 1 true 50)).1 !! "-80" = Some sstate
    ∧ serving sstate = true ∧ waitForReparent sstate = false.
Proof.
  apply (@onHealthCheck_recovers examples.forwardRange "aa"
           examples.failoverKeyspace
           (examples.health "-80" 1 false 0)
           (examples.health "-80" 1 true 50)); reflexivity.
Defined.

(** ** Lookups of a keyspace *)

Lemma getKeyspaceStatus_lookup `{MapRange} ts kew k :
  keyspaces (getKeyspaceStatus ts kew k).1.2 !! k = (getKeyspaceStatus ts kew k).1.1
  ∧ (∀ kss, (getKeyspaceStatus ts kew k).1.1 = Some kss → deleted kss = false)
  ∧ localCell (getKeyspaceStatus ts kew k).1.2 = localCell kew.
Proof.
  split_and!.
  all: unfold getKeyspaceStatus.
  all: destruct (keyspaces kew !! k) as [kss|] eqn:Hl.
  all: try destruct (newKeyspaceState ts (localCell kew) k) as [kss evs].
  all: destruct (deleted kss) eqn:Hd; simpl.
  all: rewrite ?lookup_delete_eq, ?lookup_insert_eq; try done.
  all: intros ?; congruence.
Qed.

(** X9: What [getKeyspaceStatus] returns is the entry of the map after the
    call, and it is never a keyspace that was reported deleted: a deleted
    keyspace is dropped from the map by the lookup that finds it.  No other
    keyspace is touched. *)
Theorem getKeyspaceStatus_entry `{MapRange} (ts : srvtopo.Server)
    (kew : KeyspaceEventWatcher) (k : string) :
  keyspaces (getKeyspaceStatus ts kew k).1.2 !! k = (getKeyspaceStatus ts kew k).1.1
  ∧ (∀ kss, (getKeyspaceStatus ts kew k).1.1 = Some kss → deleted kss = false)
  ∧ localCell (getKeyspaceStatus ts kew k).1.2 = localCell kew
  ∧ ∀ k', k' ≠ k →
      keyspaces (getKeyspaceStatus ts kew k).1.2 !! k' = keyspaces kew !! k'.
Proof.
  destruct (getKeyspaceStatus_lookup ts kew k) as (? & ? & ?).
  split_and!; [done..|]. intros k' Hne. by apply getKeyspaceStatus_other.
Qed.

(** ** Marking a shard and buffering *)

(** X10: [MarkShardNotServing] returns [true] exactly when the keyspace is
    tracked, not deleted, and tracks the shard.  It then leaves the shard
    not serving and the keyspace inconsistent, and a reparent error sets
    the wait for a reparent; when it returns [false] the watcher does not
    track the shard afterwards. *)
Theorem MarkShardNotServing_result `{MapRange} (ts : srvtopo.Server)
    (kew : KeyspaceEventWatcher) (k s : string) (isReparentErr : bool) :
  ((MarkShardNotServing ts kew k s isReparentErr).1.1 = true
   ↔ ∃ kss sstate, keyspaces kew !! k = Some kss ∧ deleted kss = false
                   ∧ shards kss !! s = Some sstate)
  ∧ ((MarkShardNotServing ts kew k s isReparentErr).1.1 = true →
     ∃ kss' sstate',
       keyspaces (MarkShardNotServing ts kew k s isReparentErr).1.2 !! k = Some kss'
       ∧ consistent kss' = false ∧ deleted kss' = false
       ∧ shards kss' !! s = Some sstate'
       ∧ serving sstate' = false
       ∧ (isReparentErr = true → waitForReparent sstate' = true))
  ∧ ((MarkShardNotServing ts kew k s isReparentErr).1.1 = false →
     shardAt (MarkShardNotServing ts kew k s isReparentErr).1.2 k s = None).
Proof.
  unfold MarkShardNotServing, shardAt.
  destruct (keyspaces kew !! k) as [kss|] eqn:Hl.
  - destruct (deleted kss) eqn:Hd.
    + rewrite (getKeyspaceStatus_deleted ts kew k kss Hl Hd). simpl.
      rewrite lookup_delete_eq. split_and!; [|done..].
      split; [done|]. intros (? & ? & ? & ? & ?). congruence.
    + rewrite (getKeyspaceStatus_tracked ts kew k kss Hl Hd).
      destruct (shards kss !! s) as [sstate|] eqn:Hs; simpl.
      * rewrite lookup_insert_eq. split_and!; [|intros _|done].
        -- split; [intros _; by exists kss, sstate|done].
        -- eexists _, _. split; [done|]. simpl. rewrite lookup_insert_eq.
           split_and!; [done|done|done| |].
           ++ by destruct isReparentErr.
           ++ by intros ->.
      * rewrite Hl, Hs. split_and!; [|done..].
        split; [done|]. intros (? & ? & ? & ? & ?). congruence.
  - pose proof (getKeyspaceStatus_lookup ts kew k) as (Hent & _ & _).
    pose proof (getKeyspaceStatus_untracked ts kew k) as Hempty.
    destruct (getKeyspaceStatus ts kew k) as [[[kss|] kew1] evs]; simpl in *.
    + rewrite (Hempty kss Hl eq_refl), lookup_empty. simpl. rewrite Hent.
      rewrite (Hempty kss Hl eq_refl), lookup_empty.
      split_and!; [|done..]. split; [done|]. intros (? & ? & ? & ? & ?). congruence.
    + rewrite Hent. split_and!; [|done..].
      split; [done|]. intros (? & ? & ? & ? & ?). congruence.
Qed.

(** X11: After [MarkShardNotServing] has marked a shard, the buffering query for
    the primary of that shard answers [true] with the recorded primary
    exactly when a primary with a term start is on record; a shard that
    never had one is not buffered for. *)
Theorem buffering_after_mark `{MapRange} (ts ts' : srvtopo.Server)
    (kew : KeyspaceEventWatcher) (target_ : querypb.Target)
    (isReparentErr : bool) (kss : keyspaceState) (sstate : shardState) :
  querypb.TabletType target_ = topodatapb.PRIMARY →
  keyspaces kew !! querypb.Keyspace target_ = Some kss →
  deleted kss = false →
  shards kss !! querypb.Shard target_ = Some sstate →
  (ShouldStartBufferingForTarget ts'
     (MarkShardNotServing ts kew (querypb.Keyspace target_)
        (querypb.Shard target_) isReparentErr).1.2 target_).1.1
  = (currentPrimary sstate,
     negb (bool_decide (externallyReparented sstate = 0%Z))
     && bool_decide (currentPrimary sstate ≠ None)).
Proof.
  intros Hp Hl Hd Hs. unfold MarkShardNotServing.
  rewrite (getKeyspaceStatus_tracked ts kew _ kss Hl Hd), Hs. simpl.
  unfold ShouldStartBufferingForTarget. rewrite bool_decide_eq_true_2 by done.
  simpl.
  erewrite getKeyspaceStatus_tracked;
    [|simpl; by rewrite lookup_insert_eq|done].
  simpl. rewrite lookup_insert_eq. by destruct isReparentErr.
Qed.

Lemma buffering_after_mark_witness :
  ∃ kss sstate,
    keyspaces (run (H := examples.forwardRange) (NewKeyspaceEventWatcher "aa")
                 examples.bothServing).1 !! "ks" = Some kss
    ∧ shards kss !! "-80" = Some sstate
    ∧ (ShouldStartBufferingForTarget (H := examples.forwardRange)
         (examples.staticServer examples.plainRecords)
         (MarkShardNotServing (H := examples.forwardRange)
            (examples.staticServer examples.plainRecords)
            (run (H := examples.forwardRange) (NewKeyspaceEventWatcher "aa")
               examples.bothServing).1
            "ks" "-80" true).1.2
         (examples.primaryTarget "ks" "-80")).1.1
      = (currentPrimary sstate,
         negb (bool_decide (externallyReparented sstate = 0%Z))
         && bool_decide (currentPrimary sstate ≠ None)).
Proof.
  eexists _, _. split; [vm_compute; reflexivity|].
  split; [vm_compute; reflexivity|].
  eapply (@buffering_after_mark examples.forwardRange
            (examples.staticServer examples.plainRecords)
            (examples.staticServer examples.plainRecords)
            (run (H := examples.forwardRange) (NewKeyspaceEventWatcher "aa")
               examples.bothServing).1
            (examples.primaryTarget "ks" "-80") true);
    vm_compute; reflexivity.
Defined.

(** ** The serving keyspaces *)

Lemma isServing_loop_spec entries :
  isServing_loop entries = true
  ↔ ∃ s sstate, (s, sstate) ∈ entries ∧ serving sstate = true.
Proof.
  induction entries as [|[s sstate] rest IH]; simpl.
  - split; [done|]. intros (? & ? & Hin & _). by apply elem_of_nil in Hin.
  - destruct (serving sstate) eqn:Hs.
    + split; [|done]. intros _. exists s, sstate. split; [left|done].
    + rewrite IH. split.
      * intros (s' & st' & Hin & Hs'). exists s', st'. split; [by right|done].
      * intros (s' & st' & Hin & Hs'). apply elem_of_cons in Hin as [Heq|Hin].
        -- inversion Heq; subst. congruence.
        -- by exists s', st'.
Qed.

Lemma isServing_spec `{MapRange} kss :
  isServing kss = true
  ↔ ∃ s sstate, shards kss !! s = Some sstate ∧ serving sstate = true.
Proof.
  unfold isServing. rewrite isServing_loop_spec.
  split; intros (s & sstate & Hin & Hs); exists s, sstate;
    (split; [by apply elem_of_rangeMap|done]).
Qed.

Lemma servingKeyspaces_loop_spec `{MapRange} entries k :
  k ∈ servingKeyspaces_loop entries
  ↔ ∃ kss, (k, kss) ∈ entries ∧ isServing kss = true.
Proof.
  induction entries as [|[k' kss'] rest IH]; simpl.
  - split; [by intros ?%elem_of_nil|]. intros (? & Hin & _).
    by apply elem_of_nil in Hin.
  - destruct (isServing kss') eqn:Hs.
    + rewrite elem_of_cons, IH. split.
      * intros [->|(kss & Hin & Hs')].
        -- exists kss'. split; [left|done].
        -- exists kss. split; [by right|done].
      * intros (kss & Hin & Hs'). apply elem_of_cons in Hin as [Heq|Hin].
        -- inversion Heq; subst. by left.
        -- right. by exists kss.
    + rewrite IH. split.
      * intros (kss & Hin & Hs'). exists kss. split; [by right|done].
      * intros (kss & Hin & Hs'). apply elem_of_cons in Hin as [Heq|Hin].
        -- inversion Heq; subst. congruence.
        -- by exists kss.
Qed.

Lemma servingKeyspaces_loop_NoDup `{MapRange} entries :
  NoDup entries.*1 → NoDup (servingKeyspaces_loop entries).
Proof.
  induction entries as [|[k kss] rest IH]; simpl; [constructor|].
  intros [Hnin Hnd]%NoDup_cons. destruct (isServing kss); [|by apply IH].
  apply NoDup_cons. split; [|by apply IH].
  intros (kss' & Hin & _)%servingKeyspaces_loop_spec. apply Hnin.
  apply list_elem_of_fmap. by exists (k, kss').
Qed.

(** X12: [GetServingKeyspaces] lists, each once and whatever the order of the
    visit, the keyspaces of the map in which some tracked shard serves.  A
    keyspace reported deleted that no lookup has dropped yet is listed as
    well. *)
Theorem GetServingKeyspaces_spec `{MapRange} (kew : KeyspaceEventWatcher) :
  (∀ k, k ∈ GetServingKeyspaces kew
        ↔ ∃ kss s sstate, keyspaces kew !! k = Some kss
            ∧ shards kss !! s = Some sstate ∧ serving sstate = true)
  ∧ NoDup (GetServingKeyspaces kew).
Proof.
  unfold GetServingKeyspaces. split.
  - intros k. rewrite servingKeyspaces_loop_spec. split.
    + intros (kss & Hin%elem_of_rangeMap & (s & sstate & ? & ?)%isServing_spec).
      by exists kss, s, sstate.
    + intros (kss & s & sstate & Hl & Hs & Hsv). exists kss.
      split; [by apply elem_of_rangeMap|]. apply isServing_spec. by exists s, sstate.
  - apply servingKeyspaces_loop_NoDup. unfold rangeMap.
    rewrite (range_order_perm _ (map_to_list (keyspaces kew))).
    apply NoDup_fst_map_to_list.
Qed.

(** X13: In a run from the empty watcher, a keyspace that is marked consistent
    is listed by [GetServingKeyspaces] exactly when the PRIMARY partition
    of its last snapshot names a shard. *)
Theorem consistent_keyspace_serving `{MapRange} (cell : string)
    (ops : list (srvtopo.Server * Op)) (k : string) (kss : keyspaceState) :
  keyspaces (run (NewKeyspaceEventWatcher cell) ops).1 !! k = Some kss →
  consistent kss = true →
  ∃ primary,
    topoproto.SrvKeyspaceGetPartition (lastKeyspace kss) topodatapb.PRIMARY
    = Some primary
    ∧ (k ∈ GetServingKeyspaces (run (NewKeyspaceEventWatcher cell) ops).1
       ↔ topodatapb.ShardReferences primary ≠ []).
Proof.
  intros Hl Hc.
  destruct (consistencyInv_run cell ops k kss Hl Hc) as (primary & Hp & Hrefs & _).
  exists primary. split; [done|].
  unfold GetServingKeyspaces. rewrite servingKeyspaces_loop_spec. split.
  - intros (kss' & Hin%elem_of_rangeMap & (s & sstate & Hs & Hsv)%isServing_spec).
    assert (kss' = kss) as -> by congruence.
    assert (s ∈ topodatapb.Name <$> topodatapb.ShardReferences primary) as Hin'
      by (apply Hrefs; by exists sstate).
    intros Hnil. rewrite Hnil in Hin'. by apply elem_of_nil in Hin'.
  - intros Hne. exists kss. split; [by apply elem_of_rangeMap|].
    apply isServing_spec.
    destruct (topodatapb.ShardReferences primary) as [|r rest] eqn:Hr; [done|].
    destruct (proj1 (Hrefs (topodatapb.Name r))) as (sstate & ? & ?).
    { simpl. left. }
    by exists (topodatapb.Name r), sstate.
Qed.

Lemma consistent_keyspace_serving_witness :
  ∃ kss primary,
    keyspaces (run (H := examples.forwardRange) (NewKeyspaceEventWatcher "aa")
                 examples.bothServing).1 !! "ks" = Some kss
    ∧ consistent kss = true
    ∧ topoproto.SrvKeyspaceGetPartition (lastKeyspace kss) topodatapb.PRIMARY
      = Some primary
    ∧ ("ks" ∈ GetServingKeyspaces (H := examples.forwardRange)
                (run (H := examples.forwardRange) (NewKeyspaceEventWatcher "aa")
                   examples.bothServing).1
       ↔ topodatapb.ShardReferences primary ≠ []).
Proof.
  eexists _.
  destruct (@consistent_keyspace_serving examples.forwardRange "aa"
              examples.bothServing "ks" _ ltac:(vm_compute; reflexivity)
              ltac:(vm_compute; reflexivity)) as (primary & Hp & Hiff).
  exists primary. split; [vm_compute; reflexivity|].
  split; [vm_compute; reflexivity|]. split; [exact Hp|exact Hiff].
Defined.

(** ** A keyspace deleted from the topology *)

Lemma delete_insert_same (m : gmap string keyspaceState) k kss :
  delete k (<[k := kss]> m) = delete k m.
Proof.
  apply map_eq. intros k'. destruct (decide (k' = k)) as [->|Hne].
  - by rewrite !lookup_delete_eq.
  - by rewrite !lookup_delete_ne, lookup_insert_ne.
Qed.

(** X14: A [NoNode] error on the watch of a tracked keyspace marks its entry
    deleted and broadcasts nothing.  The entry stays in the map until the
    next lookup of the keyspace: that lookup drops it, the health report,
    the mark or the query that made the lookup has no other effect, and
    the queries answer [false]. *)
Theorem deleted_keyspace_dropped `{MapRange} (ts ts' : srvtopo.Server)
    (kew : KeyspaceEventWatcher) (k : string) (kss : keyspaceState)
    (newKeyspace : option topodatapb.SrvKeyspace) (err : topo.error) :
  keyspaces kew !! k = Some kss →
  topo.IsErrType (Some err) topo.NoNode = true →
  let marked := (step ts kew (OpSrvKeyspace k newKeyspace (Some err))).1 in
  let dropped := set_keyspaces (delete k (keyspaces kew)) kew in
  step ts kew (OpSrvKeyspace k newKeyspace (Some err))
  = (set_keyspaces (<[k := set_deleted true kss]> (keyspaces kew)) kew, [])
  ∧ getKeyspaceStatus ts' marked k = (None, dropped, [])
  ∧ (∀ th, querypb.Keyspace (Target th) = k →
       processHealthCheck ts' marked th = (dropped, []))
  ∧ (∀ s isReparentErr,
       MarkShardNotServing ts' marked k s isReparentErr = (false, dropped, []))
  ∧ (∀ target_, querypb.Keyspace target_ = k →
       querypb.TabletType target_ = topodatapb.PRIMARY →
       TargetIsBeingResharded ts' marked target_ = (false, dropped, [])
       ∧ ShouldStartBufferingForTarget ts' marked target_
         = ((None, false), dropped, [])).
Proof.
  intros Hl Herr marked dropped.
  assert (Hstep : step ts kew (OpSrvKeyspace k newKeyspace (Some err))
                  = (set_keyspaces (<[k := set_deleted true kss]> (keyspaces kew)) kew,
                     [])).
  { simpl. unfold callback. rewrite Hl. unfold onSrvKeyspace. by rewrite Herr. }
  assert (Hget : getKeyspaceStatus ts' marked k = (None, dropped, [])).
  { subst marked. rewrite Hstep. simpl.
    erewrite getKeyspaceStatus_deleted;
      [|simpl; by rewrite lookup_insert_eq|done].
    simpl. unfold dropped, set_keyspaces. simpl. by rewrite delete_insert_same. }
  split_and!; [done|done|..].
  - intros th <-. unfold processHealthCheck. by rewrite Hget.
  - intros s b. unfold MarkShardNotServing. by rewrite Hget.
  - intros target_ <- Hp. unfold TargetIsBeingResharded, ShouldStartBufferingForTarget.
    rewrite bool_decide_eq_true_2 by done. simpl. by rewrite Hget.
Qed.

Lemma deleted_keyspace_dropped_witness :
  ∃ kss,
    keyspaces examples.failoverWatcher !! "ks" = Some kss
    ∧ getKeyspaceStatus (H := examples.forwardRange)
        (examples.staticServer examples.plainRecords)
        (step (H := examples.forwardRange)
           (examples.staticServer examples.plainRecords) examples.failoverWatcher
           (OpSrvKeyspace "ks" None (Some (topo.TopoError topo.NoNode "gone")))).1
        "ks"
      = (None,
         set_keyspaces (delete "ks" (keyspaces examples.failoverWatcher))
           examples.failoverWatcher, []).
Proof.
  eexists. split; [vm_compute; reflexivity|].
  eapply (@deleted_keyspace_dropped examples.forwardRange
            (examples.staticServer examples.plainRecords)
            (examples.staticServer examples.plainRecords)
            examples.failoverWatcher "ks" _ None
            (topo.TopoError topo.NoNode "gone")); vm_compute; reflexivity.
Defined.

(** ** The move-tables detector on shard routing rules *)

Lemma deniedInControls_names name tcs acc x :
  x ∈ (deniedInControls name tcs acc).1
  ↔ x ∈ acc.1
    ∨ (x = name ∧ ∃ tc, tc ∈ tcs ∧ topodatapb.DeniedTables tc ≠ []).
Proof.
  revert acc. induction tcs as [|tc rest IH]; intros acc; simpl.
  { split; [by left|]. intros [?|(_ & ? & Hin & _)]; [done|].
    by apply elem_of_nil in Hin. }
  rewrite IH. destruct (topodatapb.DeniedTables tc) as [|t ts] eqn:Hd; simpl.
  - split.
    + intros [?|(-> & tc' & Hin & Hne)]; [by left|].
      right. split; [done|]. exists tc'. split; [by right|done].
    + intros [?|(-> & tc' & Hin & Hne)]; [by left|].
      apply elem_of_cons in Hin as [->|Hin]; [congruence|].
      right. split; [done|]. by exists tc'.
  - rewrite elem_of_app, list_elem_of_singleton. split.
    + intros [[?| ->]|(-> & tc' & Hin & Hne)]; [by left| |].
      * right. split; [done|]. exists tc. split; [by left|]. by rewrite Hd.
      * right. split; [done|]. exists tc'. split; [by right|done].
    + intros [?|(-> & _)]; [by left; left|by left; right].
Qed.

Lemma deniedInShards_names shardInfos acc x :
  x ∈ (deniedInShards shardInfos acc).1
  ↔ x ∈ acc.1
    ∨ ∃ si tc, si ∈ shardInfos ∧ tc ∈ topo.TabletControls si
        ∧ topodatapb.DeniedTables tc ≠ [] ∧ x = topo.ShardName si.
Proof.
  revert acc. induction shardInfos as [|si rest IH]; intros acc; simpl.
  { split; [by left|]. intros [?|(? & ? & Hin & _)]; [done|].
    by apply elem_of_nil in Hin. }
  rewrite IH, deniedInControls_names. split.
  - intros [[?|(-> & tc & Hin & Hne)]|(si' & tc & Hin & Htc & Hne & ->)].
    + by left.
    + right. exists si, tc. split_and!; [by left|done..].
    + right. exists si', tc. split_and!; [by right|done..].
  - intros [?|(si' & tc & Hin & Htc & Hne & ->)]; [by left; left|].
    apply elem_of_cons in Hin as [->|Hin].
    + left. right. split; [done|]. by exists tc.
    + right. by exists si', tc.
Qed.

Lemma partialState_spec keyspace_ srr names :
  (partialState keyspace_ srr names = MoveTablesSwitching
   ∨ partialState keyspace_ srr names = MoveTablesSwitched)
  ∧ (partialState keyspace_ srr names = MoveTablesSwitching
     ↔ ∃ shard, shard ∈ names
         ∧ is_Some (srr !! topotools.GetShardRoutingRuleKey keyspace_ shard)).
Proof.
  induction names as [|shard rest [IH1 IH2]]; simpl.
  { split; [by right|]. split; [done|]. intros (? & Hin & _).
    by apply elem_of_nil in Hin. }
  destruct (srr !! topotools.GetShardRoutingRuleKey keyspace_ shard) as [to|] eqn:Hl.
  - split; [by left|]. split; [|done]. intros _. exists shard.
    split; [by left|]. by rewrite Hl.
  - split; [done|]. rewrite IH2. split.
    + intros (shard' & Hin & Hs). exists shard'. split; [by right|done].
    + intros (shard' & Hin & Hs). apply elem_of_cons in Hin as [->|Hin].
      * rewrite Hl in Hs. by destruct Hs.
      * by exists shard'.
Qed.

(** X15: When the vschema has shard routing rules and some fetched shard record
    has denied tables, [getMoveTablesStatus] classifies the workflow as
    ShardByShard, whatever the table routing rules say.  Its state is
    Switching iff the shard routing map still has a rule for a shard with
    denied tables, and Switched otherwise; the order in which the shard
    records arrive does not matter. *)
Theorem getMoveTablesStatus_partial `{MapRange} (ts : srvtopo.Server)
    (kss : keyspaceState) (vs : vschemapb.SrvVSchema) (tsrv : topo.Server)
    (shardInfos : list topo.ShardInfo) :
  srvtopo.GetTopoServer ts = inr tsrv →
  fetchShards tsrv (keyspace kss) (rangeMap (shards kss)) = inr shardInfos →
  vschemapb.GetShardRules (vschemapb.GetShardRoutingRules vs) ≠ [] →
  (∃ si tc, si ∈ shardInfos ∧ tc ∈ topo.TabletControls si
            ∧ topodatapb.DeniedTables tc ≠ []) →
  ∃ state srr,
    getMoveTablesStatus ts kss vs
    = ({| Typ := MoveTablesShardByShard; State := state |}, None)
    ∧ topotools.GetShardRoutingRulesMap (vschemapb.GetShardRoutingRules vs)
      = Some srr
    ∧ (state = MoveTablesSwitching ∨ state = MoveTablesSwitched)
    ∧ (state = MoveTablesSwitching
       ↔ ∃ si tc, si ∈ shardInfos ∧ tc ∈ topo.TabletControls si
           ∧ topodatapb.DeniedTables tc ≠ []
           ∧ is_Some (srr !! topotools.GetShardRoutingRuleKey (keyspace kss)
                               (topo.ShardName si))).
Proof.
  intros Hts Hfetch Hsrr (si & tc & Hsi & Htc & Hdenied).
  unfold getMoveTablesStatus. rewrite Hts, Hfetch.
  rewrite (bool_decide_eq_false_2
             (length (vschemapb.GetShardRules _) = 0%nat))
    by (by destruct (vschemapb.GetShardRules _)).
  rewrite andb_false_r. unfold classifyMoveTables.
  pose proof (deniedInShards_names shardInfos ([], "")) as Hnames.
  destruct (deniedInShards shardInfos ([], "")) as [names one]. simpl in Hnames.
  rewrite bool_decide_eq_false_2.
  2:{ intros Hlen. destruct names; [|done].
      eapply elem_of_nil, Hnames. right. by exists si, tc. }
  destruct (vschemapb.GetShardRoutingRules vs) as [rules|] eqn:Hrules; [|done].
  rewrite bool_decide_eq_true_2 by done. simpl.
  assert ((0 <? length (vschemapb.ShardRules rules))%nat = true) as ->.
  { simpl in Hsrr. destruct (vschemapb.ShardRules rules); [done|].
    by apply Nat.ltb_lt; simpl; lia. }
  eexists _, _. split; [reflexivity|]. split; [reflexivity|].
  destruct (partialState_spec (keyspace kss)
              (foldl (λ m rr,
                        <[topotools.GetShardRoutingRuleKey
                            (vschemapb.FromKeyspace rr) (vschemapb.Shard rr)
                          := vschemapb.ToKeyspace rr]> m) ∅
                 (vschemapb.ShardRules rules)) names) as [Hor Hiff].
  split; [done|]. rewrite Hiff. split.
  - intros (shard & Hin & Hs). apply Hnames in Hin as [Hin|Hin];
      [by apply elem_of_nil in Hin|].
    destruct Hin as (si' & tc' & ? & ? & ? & ->). by exists si', tc'.
  - intros (si' & tc' & ? & ? & ? & ?). exists (topo.ShardName si').
    split; [|done]. apply Hnames. right. by exists si', tc'.
Qed.

Lemma getMoveTablesStatus_partial_witness :
  let vs :=
    {| vschemapb.RoutingRules_ := None;
       vschemapb.ShardRoutingRules_ :=
         Some {| vschemapb.ShardRules :=
                   [{| vschemapb.FromKeyspace := "ks";
                       vschemapb.ToKeyspace := "otherks";
                       vschemapb.Shard := "-80" |}] |} |} in
  fetchShards {| topo.GetShard := examples.deniedRecords |}
    (keyspace examples.migratingKeyspace)
    (@rangeMap examples.forwardRange _ (shards examples.migratingKeyspace))
  = inr examples.deniedInfos
  ∧ ∃ state srr,
      @getMoveTablesStatus examples.forwardRange
        (examples.staticServer examples.deniedRecords)
        examples.migratingKeyspace vs
      = ({| Typ := MoveTablesShardByShard; State := state |}, None)
      ∧ topotools.GetShardRoutingRulesMap (vschemapb.GetShardRoutingRules vs)
        = Some srr
      ∧ (state = MoveTablesSwitching ∨ state = MoveTablesSwitched)
      ∧ (state = MoveTablesSwitching
         ↔ ∃ si tc, si ∈ examples.deniedInfos ∧ tc ∈ topo.TabletControls si
             ∧ topodatapb.DeniedTables tc ≠ []
             ∧ is_Some (srr !! topotools.GetShardRoutingRuleKey
                                 (keyspace examples.migratingKeyspace)
                                 (topo.ShardName si))).
Proof.
  intros vs. split; [vm_compute; reflexivity|].
  apply (@getMoveTablesStatus_partial examples.forwardRange
           (examples.staticServer examples.deniedRecords)
           examples.migratingKeyspace vs
           {| topo.GetShard := examples.deniedRecords |} examples.deniedInfos);
    [reflexivity|vm_compute; reflexivity|discriminate|].
  exists (examples.deniedInfo "-80"). eexists.
  split_and!; [by left|by left|discriminate].
Defined.

(** X16: Whatever the topology server answers, the state that
    [getMoveTablesStatus] returns is Unknown exactly when its type is None;
    an error comes with the type None; a type other than None is
    ShardByShard exactly when the vschema has shard routing rules; and a
    vschema without any routing rule gives the type None without error,
    whatever the topology server is. *)
Theorem getMoveTablesStatus_shape `{MapRange} (ts : srvtopo.Server)
    (kss : keyspaceState) (vs : vschemapb.SrvVSchema) :
  (Typ (getMoveTablesStatus ts kss vs).1 = MoveTablesNone
   ↔ State (getMoveTablesStatus ts kss vs).1 = MoveTablesUnknown)
  ∧ ((getMoveTablesStatus ts kss vs).2 ≠ None →
     Typ (getMoveTablesStatus ts kss vs).1 = MoveTablesNone)
  ∧ (Typ (getMoveTablesStatus ts kss vs).1 ≠ MoveTablesNone →
     (Typ (getMoveTablesStatus ts kss vs).1 = MoveTablesShardByShard
      ↔ vschemapb.GetShardRules (vschemapb.GetShardRoutingRules vs) ≠ []))
  ∧ (vschemapb.GetRules (vschemapb.GetRoutingRules vs) = [] →
     vschemapb.GetShardRules (vschemapb.GetShardRoutingRules vs) = [] →
     getMoveTablesStatus ts kss vs
     = ({| Typ := MoveTablesNone; State := MoveTablesUnknown |}, None)).
Proof.
  assert (Hclass : ∀ shardInfos,
    (Typ (classifyMoveTables (keyspace kss) vs shardInfos) = MoveTablesNone
     ↔ State (classifyMoveTables (keyspace kss) vs shardInfos) = MoveTablesUnknown)
    ∧ (Typ (classifyMoveTables (keyspace kss) vs shardInfos) ≠ MoveTablesNone →
       (Typ (classifyMoveTables (keyspace kss) vs shardInfos)
        = MoveTablesShardByShard
        ↔ vschemapb.GetShardRules (vschemapb.GetShardRoutingRules vs) ≠ []))).
  { intros shardInfos. unfold classifyMoveTables.
    destruct (deniedInShards shardInfos ([], "")) as [names one].
    case_bool_decide; simpl; [done|].
    destruct (bool_decide (vschemapb.GetShardRoutingRules vs ≠ None)
              && (0 <? length (vschemapb.GetShardRules
                                 (vschemapb.GetShardRoutingRules vs)))%nat)
      eqn:Hpartial; simpl.
    - apply andb_true_iff in Hpartial as [_ Hlen%Nat.ltb_lt].
      destruct (partialState_spec (keyspace kss)
                  (default ∅ (topotools.GetShardRoutingRulesMap
                                (vschemapb.GetShardRoutingRules vs)))
                  names) as [[Hs|Hs] _]; rewrite Hs.
      all: split; [done|]. all: intros _. all: split; [intros _|done].
      all: intros Hnil; rewrite Hnil in Hlen; simpl in Hlen; lia.
    - assert (vschemapb.GetShardRules (vschemapb.GetShardRoutingRules vs) = [])
        as Hnil.
      { apply andb_false_iff in Hpartial as [Hn|Hlen].
        - apply bool_decide_eq_false in Hn.
          destruct (vschemapb.GetShardRoutingRules vs); [by destruct Hn|done].
        - apply Nat.ltb_ge in Hlen.
          destruct (vschemapb.GetShardRules _); [done|simpl in Hlen; lia]. }
      split; [|done]. split; [done|].
      destruct (topotools.GetRoutingRulesMap _) as [rr|]; [|done].
      destruct (rr !! one) as [[|r0 ?]|]; [done| |done].
      by destruct (negb _). }
  unfold getMoveTablesStatus.
  destruct (bool_decide (length (vschemapb.GetRules _) = 0%nat)
            && bool_decide (length (vschemapb.GetShardRules _) = 0%nat)) eqn:Hnone.
  { simpl. split_and!; done. }
  assert (Hnot : vschemapb.GetRules (vschemapb.GetRoutingRules vs) = [] →
                 vschemapb.GetShardRules (vschemapb.GetShardRoutingRules vs) = [] →
                 False).
  { intros H1 H2. rewrite H1, H2 in Hnone. done. }
  destruct (srvtopo.GetTopoServer ts) as [err|tsrv]; simpl.
  { split_and!; [done|done|done|]. intros H1 H2. by destruct (Hnot H1 H2). }
  destruct (fetchShards tsrv (keyspace kss) (rangeMap (shards kss)))
    as [err|shardInfos]; simpl.
  { split_and!; [done|done|done|]. intros H1 H2. by destruct (Hnot H1 H2). }
  destruct (Hclass shardInfos) as [Hiff Hsbs].
  split_and!; [done|done|done|]. intros H1 H2. by destruct (Hnot H1 H2).
Qed.

(** ** Waiting without a concurrent event *)

Lemma lookupFrame_live `{MapRange} ts names kew kew' k kss :
  lookupFrame ts names kew kew' →
  keyspaces kew !! k = Some kss → deleted kss = false →
  keyspaces kew' !! k = Some kss.
Proof.
  intros [_ Hk] Hl Hd.
  destruct (Hk k) as [->|(_ & _ & [Hnone|(kss' & Hl' & Hd')] & _)];
    [done|congruence|congruence].
Qed.

Lemma checkKeyspaces_pending `{MapRange} ts kew names k kss :
  k ∈ names → k ≠ "" → keyspaces kew !! k = Some kss →
  deleted kss = false → consistent kss = false →
  k ∈ (checkKeyspaces ts kew names).1.1.1.
Proof.
  revert kew. induction names as [|h rest IH]; intros kew Hin Hne Hl Hd Hc.
  { by apply elem_of_nil in Hin. }
  simpl. case_bool_decide as Hempty.
  - apply elem_of_cons in Hin as [->|Hin]; [done|].
    specialize (IH kew Hin Hne Hl Hd Hc).
    destruct (checkKeyspaces ts kew rest) as [[[rest' all] kew'] evs].
    simpl in *. by right.
  - destruct (decide (h = k)) as [->|Hhk].
    + rewrite (getKeyspaceStatus_tracked ts kew k kss Hl Hd).
      destruct (checkKeyspaces ts kew rest) as [[[rest' all] kew'] evs].
      simpl. unfold isConsistent. rewrite Hc. by left.
    + apply elem_of_cons in Hin as [->|Hin]; [done|].
      pose proof (getKeyspaceStatus_other ts kew h k (not_eq_sym Hhk)) as Hother.
      destruct (getKeyspaceStatus ts kew h) as [[kss0 kew1] evs1]. simpl in *.
      rewrite <-Hother in Hl. specialize (IH kew1 Hin Hne Hl Hd Hc).
      destruct (checkKeyspaces ts kew1 rest) as [[[rest' all] kew'] evs].
      simpl in *. by right.
Qed.

(** The error of the first [select] at which the context is done. *)
Fixpoint firstDone (schedule : list Select) : option ctxError :=
  match schedule with
  | [] => None
  | CtxDone err :: _ => Some err
  | TimerFired _ :: schedule => firstDone schedule
  end.

Lemma waitLoop_idle `{MapRange} ts kew names schedule k kss :
  alone schedule →
  k ∈ names → k ≠ "" → keyspaces kew !! k = Some kss →
  deleted kss = false → consistent kss = false →
  (waitLoop ts kew names schedule).1.1 = Some <$> firstDone schedule.
Proof.
  revert kew names. induction schedule as [|sel schedule IH];
    intros kew names Halone Hin Hne Hl Hd Hc; simpl.
  - rewrite (surjective_pairing (checkKeyspaces ts kew names)).
    rewrite (surjective_pairing (checkKeyspaces ts kew names).1).
    rewrite (surjective_pairing (checkKeyspaces ts kew names).1.1).
    by rewrite (checkKeyspaces_inconsistent ts kew names k kss).
  - pose proof (checkKeyspaces_inconsistent ts kew names k kss Hin Hne Hl Hd Hc)
      as Hall.
    pose proof (checkKeyspaces_pending ts kew names k kss Hin Hne Hl Hd Hc)
      as Hpending.
    destruct (checkKeyspaces_frame ts kew names) as [Hframe _].
    pose proof (lookupFrame_live _ _ _ _ _ _ Hframe Hl Hd) as Hl1.
    destruct (checkKeyspaces ts kew names) as [[[rest all] kew1] evs1].
    simpl in *. subst all.
    destruct sel as [err|concurrent]; simpl; [done|].
    rewrite (Halone concurrent) by (by left). simpl.
    specialize (IH kew1 rest).
    destruct (waitLoop ts kew1 rest schedule) as [[r kew2] evs2]. simpl in *.
    apply IH; [|done..]. intros c Hc'. apply Halone. by right.
Qed.

(** X17: While no other goroutine acts, [WaitForConsistentKeyspaces] never
    returns nil when it is asked for a tracked keyspace that is
    inconsistent: it polls until its context is done and returns the error
    of the context, and it blocks for as long as the context is not
    done. *)
Theorem WaitForConsistentKeyspaces_idle `{MapRange} (ts : srvtopo.Server)
    (kew : KeyspaceEventWatcher) (ksList : list string) (schedule : list Select)
    (k : string) (kss : keyspaceState) :
  alone schedule →
  k ∈ ksList → k ≠ "" → keyspaces kew !! k = Some kss →
  deleted kss = false → consistent kss = false →
  (WaitForConsistentKeyspaces ts kew ksList schedule).1.1
  = Some <$> firstDone schedule.
Proof. apply waitLoop_idle. Qed.

Lemma WaitForConsistentKeyspaces_idle_witness :
  (WaitForConsistentKeyspaces (H := examples.forwardRange)
     (examples.staticServer examples.plainRecords) examples.failoverWatcher
     ["ks"] [TimerFired []; TimerFired []; CtxDone DeadlineExceeded]).1.1
  = Some (Some DeadlineExceeded).
Proof.
  apply (@WaitForConsistentKeyspaces_idle examples.forwardRange
           (examples.staticServer examples.plainRecords) examples.failoverWatcher
           ["ks"] [TimerFired []; TimerFired []; CtxDone DeadlineExceeded]
           "ks" examples.failoverKeyspace).
  - intros c Hc. repeat (apply elem_of_cons in Hc as [Hc|Hc]; [by inversion Hc|]).
    by apply elem_of_nil in Hc.
  - by left.
  - done.
  - vm_compute; reflexivity.
  - reflexivity.
  - reflexivity.
Defined.

(** ** Keyspaces do not interfere *)

(** The keyspace an operation is about. *)
Definition opKeyspace (op : Op) : string :=
  match op with
  | OpHealthCheck th => querypb.Keyspace (Target th)
  | OpSrvKeyspace k _ _ => k
  | OpSrvVSchema k _ _ => k
  | OpMarkShardNotServing k _ _ => k
  | OpTargetIsBeingResharded target_ => querypb.Keyspace target_
  | OpShouldStartBufferingForTarget target_ => querypb.Keyspace target_
  | OpGetKeyspaceStatus k => k
  end.

Lemma step_other `{MapRange} ts kew op k :
  opKeyspace op ≠ k →
  keyspaces (step ts kew op).1 !! k = keyspaces kew !! k.
Proof.
  intros Hne. destruct op as [th|k' nk ne|k' vs err|k' s b|tg|tg|k']; simpl in *.
  - unfold processHealthCheck.
    pose proof (getKeyspaceStatus_other ts kew _ k (not_eq_sym Hne)) as Hother.
    destruct (getKeyspaceStatus ts kew _) as [[[kss|] kew1] evs]; simpl in *;
      [|done].
    destruct (onHealthCheck _ kss th) as [kss' ev]. simpl.
    by rewrite lookup_insert_ne.
  - unfold callback. destruct (keyspaces kew !! k') as [kss|]; [|done].
    destruct (onSrvKeyspace _ kss nk ne) as [[kss' ev] c]. simpl.
    by rewrite lookup_insert_ne.
  - unfold callback. destruct (keyspaces kew !! k') as [kss|]; [|done].
    destruct (onSrvVSchema ts _ kss vs err) as [[kss' ev] c]. simpl.
    by rewrite lookup_insert_ne.
  - unfold MarkShardNotServing.
    pose proof (getKeyspaceStatus_other ts kew k' k (not_eq_sym Hne)) as Hother.
    destruct (getKeyspaceStatus ts kew k') as [[[kss|] kew1] evs]; simpl in *;
      [|done].
    destruct (shards kss !! s); simpl; [|done]. by rewrite lookup_insert_ne.
  - unfold TargetIsBeingResharded. destruct (negb _); [done|].
    pose proof (getKeyspaceStatus_other ts kew _ k (not_eq_sym Hne)) as Hother.
    by destruct (getKeyspaceStatus ts kew _) as [[[kss|] kew1] evs].
  - unfold ShouldStartBufferingForTarget. destruct (negb _); [done|].
    pose proof (getKeyspaceStatus_other ts kew _ k (not_eq_sym Hne)) as Hother.
    destruct (getKeyspaceStatus ts kew _) as [[[kss|] kew1] evs]; [|done].
    by destruct (shards kss !! _).
  - pose proof (getKeyspaceStatus_other ts kew k' k (not_eq_sym Hne)) as Hother.
    by destruct (getKeyspaceStatus ts kew k') as [[o kew1] evs].
Qed.

(** X18: A run whose operations are all about other keyspaces leaves the entry
    of a keyspace as it is: health reports, topology deliveries, marks and
    queries of one keyspace never touch the state of another. *)
Theorem run_isolated `{MapRange} (kew : KeyspaceEventWatcher)
    (ops : list (srvtopo.Server * Op)) (k : string) :
  (∀ ts op, (ts, op) ∈ ops → opKeyspace op ≠ k) →
  keyspaces (run kew ops).1 !! k = keyspaces kew !! k.
Proof.
  revert kew. induction ops as [|[ts op] rest IH]; intros kew Hops; [done|].
  rewrite run_cons, IH.
  - apply step_other. apply (Hops ts). by left.
  - intros ts' op' Hin. apply (Hops ts'). by right.
Qed.

Lemma run_isolated_witness :
  keyspaces (run (H := examples.forwardRange) examples.failoverWatcher
               [(examples.staticServer examples.plainRecords,
                 OpGetKeyspaceStatus "other");
                (examples.staticServer examples.plainRecords,
                 OpMarkShardNotServing "other" "-80" true)]).1 !! "ks"
  = keyspaces examples.failoverWatcher !! "ks".
Proof.
  apply (@run_isolated examples.forwardRange).
  intros ts op Hin.
  repeat (apply elem_of_cons in Hin as [Hin|Hin];
          [by inversion Hin; subst|]).
  by apply elem_of_nil in Hin.
Defined.

(** ** Seeding at startup *)

(** The loop of the seeding goroutine of [run] (lines 251-253). *)
Fixpoint seedKeyspaces `{MapRange} (ts : srvtopo.Server) (kew : KeyspaceEventWatcher)
    (names : list string) : KeyspaceEventWatcher * list KeyspaceEvent :=
  match names with
  | [] => (kew, [])
  | ks :: rest =>
      let '(_, kew, evs1) := getKeyspaceStatus ts kew ks in
      let '(kew, evs2) := seedKeyspaces ts kew rest in
      (kew, (evs1 ++ evs2)%list)
  end.

(** The seeding goroutine of [run] (lines 243-254): nothing is seeded when
    the names of the keyspaces cannot be read. *)
Definition seed `{MapRange} (ts : srvtopo.Server) (kew : KeyspaceEventWatcher)
  : KeyspaceEventWatcher * list KeyspaceEvent :=
  match srvtopo.GetSrvKeyspaceNames ts (localCell kew) true with
  | inl _ => (kew, [])
  | inr names => seedKeyspaces ts kew names
  end.

(** The entry that a first lookup of keyspace [k] leaves in the map. *)
Definition seeded `{MapRange} (ts : srvtopo.Server) (cell k : string)
  : option keyspaceState :=
  if deleted (newKeyspaceState ts cell k).1 then None
  else Some (newKeyspaceState ts cell k).1.

Lemma seedKeyspaces_lookup `{MapRange} ts kew names k :
  (∀ k', keyspaces kew !! k' = None
         ∨ keyspaces kew !! k' = seeded ts (localCell kew) k') →
  localCell (seedKeyspaces ts kew names).1 = localCell kew
  ∧ keyspaces (seedKeyspaces ts kew names).1 !! k
    = if bool_decide (k ∈ names) then seeded ts (localCell kew) k
      else keyspaces kew !! k.
Proof.
  revert kew. induction names as [|h rest IH]; intros kew Hinv;
    cbn [seedKeyspaces].
  { split; [done|]. by rewrite bool_decide_eq_false_2 by (by intros ?%elem_of_nil). }
  assert (Hget : localCell (getKeyspaceStatus ts kew h).1.2 = localCell kew
                 ∧ keyspaces (getKeyspaceStatus ts kew h).1.2 !! h
                   = seeded ts (localCell kew) h).
  { destruct (keyspaces kew !! h) as [kss|] eqn:Hl.
    - assert (seeded ts (localCell kew) h = Some kss) as Hseed
        by (destruct (Hinv h) as [?|?]; congruence).
      assert (deleted kss = false) as Hd.
      { unfold seeded in Hseed.
        destruct (deleted (newKeyspaceState ts (localCell kew) h).1) eqn:Hd;
          [done|]. by injection Hseed as <-. }
      rewrite (getKeyspaceStatus_tracked ts kew h kss Hl Hd). simpl.
      by rewrite Hseed.
    - unfold getKeyspaceStatus, seeded. rewrite Hl.
      destruct (newKeyspaceState ts (localCell kew) h) as [kss evs]. simpl.
      destruct (deleted kss); simpl; [by rewrite lookup_delete_eq|].
      by rewrite lookup_insert_eq. }
  pose proof (λ k', getKeyspaceStatus_other ts kew h k') as Hother.
  destruct (getKeyspaceStatus ts kew h) as [[o kew1] evs1]. simpl in *.
  destruct Hget as [Hcell Hh].
  destruct (IH kew1) as [Hcell' Hk].
  { intros k'. rewrite Hcell. destruct (decide (k' = h)) as [->|Hne].
    - by right.
    - rewrite Hother by done. apply Hinv. }
  destruct (seedKeyspaces ts kew1 rest) as [kew2 evs2]. simpl in *.
  split; [congruence|]. rewrite Hk, Hcell.
  destruct (decide (k = h)) as [->|Hne].
  - rewrite (bool_decide_eq_true_2 (h ∈ h :: rest)) by (by left).
    by destruct (bool_decide (h ∈ rest)).
  - rewrite Hother by done.
    destruct (bool_decide (k ∈ rest)) eqn:Hin.
    + apply bool_decide_eq_true in Hin.
      by rewrite bool_decide_eq_true_2 by (by right).
    + apply bool_decide_eq_false in Hin.
      rewrite bool_decide_eq_false_2; [done|].
      by intros [?|?]%elem_of_cons.
Qed.

(** X19: Seeding a new watcher tracks exactly the keyspaces that the topology
    server names and does not report deleted, each in the state its first
    lookup gives it and without any shard; when the names cannot be read
    the watcher stays empty. *)
Theorem seed_spec `{MapRange} (ts : srvtopo.Server) (cell : string) :
  (∀ err, srvtopo.GetSrvKeyspaceNames ts cell true = inl err →
     seed ts (NewKeyspaceEventWatcher cell) = (NewKeyspaceEventWatcher cell, []))
  ∧ (∀ names k, srvtopo.GetSrvKeyspaceNames ts cell true = inr names →
       keyspaces (seed ts (NewKeyspaceEventWatcher cell)).1 !! k
       = if bool_decide (k ∈ names) then seeded ts cell k else None)
  ∧ (∀ k kss, keyspaces (seed ts (NewKeyspaceEventWatcher cell)).1 !! k = Some kss →
       deleted kss = false ∧ shards kss = ∅).
Proof.
  assert (Hnames : ∀ names k,
    srvtopo.GetSrvKeyspaceNames ts cell true = inr names →
    keyspaces (seed ts (NewKeyspaceEventWatcher cell)).1 !! k
    = if bool_decide (k ∈ names) then seeded ts cell k else None).
  { intros names k Hn. unfold seed. simpl. rewrite Hn.
    destruct (seedKeyspaces_lookup ts (NewKeyspaceEventWatcher cell) names k)
      as [_ ->]; [by left|done]. }
  split_and!; [|done|].
  - intros err Herr. unfold seed. simpl. by rewrite Herr.
  - intros k kss Hl.
    destruct (srvtopo.GetSrvKeyspaceNames ts cell true) as [err|names] eqn:Hn.
    + unfold seed in Hl. simpl in Hl. by rewrite Hn in Hl.
    + rewrite (Hnames names k eq_refl) in Hl.
      destruct (bool_decide (k ∈ names)); [|done]. unfold seeded in Hl.
      destruct (deleted (newKeyspaceState ts cell k).1) eqn:Hd; [done|].
      injection Hl as <-. split; [done|]. apply newKeyspaceState_shards.
Qed.

(** ** When an incident is resolved *)

Lemma activeShards_complete shards_ refs acc :
  (∀ r, r ∈ refs →
     ∃ sstate, shards_ !! topodatapb.Name r = Some sstate ∧ serving sstate = true) →
  is_Some (activeShards shards_ refs acc).
Proof.
  revert acc. induction refs as [|r rest IH]; intros acc Hrefs; simpl; [done|].
  destruct (Hrefs r) as (sstate & -> & ->); [by left|].
  apply IH. intros r' Hin. apply Hrefs. by right.
Qed.

Lemma servingOutsidePartition_inv active entries :
  servingOutsidePartition active entries = true →
  ∃ s sstate, (s, sstate) ∈ entries ∧ serving sstate = true
              ∧ default false (active !! s) = false.
Proof.
  induction entries as [|[s sstate] rest IH]; simpl; [done|].
  destruct (serving sstate && negb (default false (active !! s))) eqn:Hhere.
  - intros _. apply andb_true_iff in Hhere as [Hs Ha%negb_true_iff].
    exists s, sstate. split; [by left|done].
  - intros (s' & st' & Hin & ? & ?)%IH. exists s', st'. split; [by right|done].
Qed.

(** X20: [ensureConsistentLocked] declares the keyspace consistent and
    broadcasts an event exactly when the keyspace is inconsistent, no
    MoveTables is pending, the last snapshot has a PRIMARY partition
    without [ShardTabletControls], every shard the partition names is
    tracked and serving, and every tracked shard that serves is named by
    the partition.  The order in which the shards are visited plays no
    part. *)
Theorem ensureConsistentLocked_resolves `{MapRange} (cell : string)
    (kss : keyspaceState) :
  is_Some (ensureConsistentLocked cell kss).2
  ↔ consistent kss = false ∧ moveTablesPending kss = false
    ∧ ∃ primary,
        topoproto.SrvKeyspaceGetPartition (lastKeyspace kss) topodatapb.PRIMARY
        = Some primary
        ∧ topodatapb.ShardTabletControls primary = []
        ∧ (∀ r, r ∈ topodatapb.ShardReferences primary →
             ∃ sstate, shards kss !! topodatapb.Name r = Some sstate
                       ∧ serving sstate = true)
        ∧ (∀ s sstate, shards kss !! s = Some sstate → serving sstate = true →
             s ∈ topodatapb.Name <$> topodatapb.ShardReferences primary).
Proof.
  split.
  - intros Hev.
    destruct (ensureConsistentLocked_ensured cell kss)
      as [|primary active evs shards' Hc Hp Hprim Hstc Hact Hout Hres];
      [by destruct Hev|].
    split; [done|]. split; [done|]. exists primary.
    apply activeShards_spec in Hact as [Hrefs Hactive].
    split_and!; [done..|]. intros s sstate Hl Hs.
    pose proof (servingOutsidePartition_false _ _ Hout s sstate
                  (proj2 (elem_of_rangeMap _ _ _) Hl) Hs) as Hin.
    apply Hactive in Hin as [Hin|Hin]; [by rewrite lookup_empty in Hin|done].
  - intros (Hc & Hp & primary & Hprim & Hstc & Hrefs & Hserving).
    unfold ensureConsistentLocked. rewrite Hc, Hp, Hprim, Hstc. simpl.
    destruct (activeShards_complete (shards kss)
                (topodatapb.ShardReferences primary) ∅ Hrefs) as [active Hact].
    rewrite Hact.
    destruct (servingOutsidePartition active (rangeMap (shards kss))) eqn:Hout.
    + apply servingOutsidePartition_inv in Hout
        as (s & sstate & Hin%elem_of_rangeMap & Hs & Hna).
      apply activeShards_spec in Hact as [_ Hactive].
      assert (default false (active !! s) = true) as Ha
        by (apply Hactive; right; by eapply Hserving).
      congruence.
    + by destruct (resolveShards _ _ _).
Qed.

(** ** Snapshots that leave the PRIMARY partition as it is *)

(** X21: A new snapshot whose PRIMARY partition equals that of the last one does
    not disturb a consistent keyspace: only the snapshot is replaced, the
    keyspace stays consistent and nothing is broadcast. *)
Theorem onSrvKeyspace_unchanged_primary `{MapRange} (cell : string)
    (kss : keyspaceState) (newKeyspace : option topodatapb.SrvKeyspace) :
  consistent kss = true →
  topoproto.SrvKeyspaceGetPartition newKeyspace topodatapb.PRIMARY
  = topoproto.SrvKeyspaceGetPartition (lastKeyspace kss) topodatapb.PRIMARY →
  onSrvKeyspace cell kss newKeyspace None
  = (set_lastKeyspace newKeyspace kss, None, true).
Proof.
  intros Hc Hsame. unfold onSrvKeyspace. simpl.
  case_bool_decide as Heq.
  { subst newKeyspace. by destruct kss. }
  assert (match lastKeyspace kss with
          | Some _ =>
              topoproto.SrvKeyspaceGetPartition (lastKeyspace kss) topodatapb.PRIMARY
          | None => None
          end
          = match newKeyspace with
            | Some _ => topoproto.SrvKeyspaceGetPartition newKeyspace topodatapb.PRIMARY
            | None => None
            end) as ->.
  { rewrite Hsame. by destruct (lastKeyspace kss), newKeyspace. }
  rewrite bool_decide_eq_true_2 by done. simpl.
  by rewrite ensureConsistentLocked_consistent.
Qed.

Lemma onSrvKeyspace_unchanged_primary_witness :
  ∃ kss,
    keyspaces (run (H := examples.forwardRange) (NewKeyspaceEventWatcher "aa")
                 examples.bothServing).1 !! "ks" = Some kss
    ∧ consistent kss = true
    ∧ onSrvKeyspace (H := examples.forwardRange) "aa" kss
        (Some {| topodatapb.Partitions :=
                   (topodatapb.Partitions examples.twoShards
                    ++ [{| topodatapb.ServedType := topodatapb.REPLICA;
                           topodatapb.ShardReferences := [];
                           topodatapb.ShardTabletControls := [] |}])%list |})
        None
      = (set_lastKeyspace
           (Some {| topodatapb.Partitions :=
                      (topodatapb.Partitions examples.twoShards
                       ++ [{| topodatapb.ServedType := topodatapb.REPLICA;
                              topodatapb.ShardReferences := [];
                              topodatapb.ShardTabletControls := [] |}])%list |})
           kss, None, true).
Proof.
  eexists. split; [vm_compute; reflexivity|]. split; [vm_compute; reflexivity|].
  apply (@onSrvKeyspace_unchanged_primary examples.forwardRange);
    vm_compute; reflexivity.
Defined.

(** ** The primary on record *)

Lemma updateShard_term th sstate c :
  (PrimaryTermStartTime th ≠ 0%Z
   ∧ (externallyReparented sstate < PrimaryTermStartTime th)%Z →
   externallyReparented (updateShard th sstate c).1 = PrimaryTermStartTime th
   ∧ currentPrimary (updateShard th sstate c).1 = topodatapb.Alias (Tablet th)
   ∧ (updateShard th sstate c).2 = false)
  ∧ (PrimaryTermStartTime th = 0%Z
     ∨ (PrimaryTermStartTime th ≤ externallyReparented sstate)%Z →
     externallyReparented (updateShard th sstate c).1 = externallyReparented sstate
     ∧ currentPrimary (updateShard th sstate c).1 = currentPrimary sstate).
Proof.
  unfold updateShard.
  destruct sstate as [tg sv wfr ext cp], th as [tb tgt thsv term]; simpl.
  destruct (bool_decide (term = 0%Z)) eqn:Hz, (term >? ext)%Z eqn:Hgt;
    destruct sv, thsv, wfr; simpl; rewrite ?Hgt, ?Hz; simpl.
  all: first [apply bool_decide_eq_true in Hz|apply bool_decide_eq_false in Hz].
  all: split; [intros [? ?]|intros [?|?]]; first [done|lia].
Qed.

(** X22: The primary on record for a shard changes only with a strictly newer
    term: a report of a primary whose term start time is not zero and above
    the recorded one records that time and the alias of its tablet and
    leaves the keyspace to be resolved again; any other report leaves the
    recorded time and primary as they are. *)
Theorem onHealthCheck_primary_term `{MapRange} (cell : string) (kss : keyspaceState)
    (th : TabletHealth) (sstate sstate' : shardState) :
  querypb.TabletType (Target th) = topodatapb.PRIMARY →
  shards kss !! querypb.Shard (Target th) = Some sstate →
  shards (onHealthCheck cell kss th).1 !! querypb.Shard (Target th) = Some sstate' →
  (PrimaryTermStartTime th ≠ 0%Z
   ∧ (externallyReparented sstate < PrimaryTermStartTime th)%Z →
   externallyReparented sstate' = PrimaryTermStartTime th
   ∧ currentPrimary sstate' = topodatapb.Alias (Tablet th))
  ∧ (PrimaryTermStartTime th = 0%Z
     ∨ (PrimaryTermStartTime th ≤ externallyReparented sstate)%Z →
     externallyReparented sstate' = externallyReparented sstate
     ∧ currentPrimary sstate' = currentPrimary sstate).
Proof.
  intros Hp Hl Hl'.
  apply onHealthCheck_shard in Hl' as [[_ [?|?]]|(_ & _ & Hcase)]; [done|done|].
  destruct Hcase as [(s0 & Hl0 & ->)|(Hnone & _)]; [|congruence].
  assert (s0 = sstate) as -> by congruence.
  destruct (updateShard_term th sstate (consistent kss)) as [Hnew Hold].
  split; [|done]. intros Hterm. by destruct (Hnew Hterm) as (? & ? & _).
Qed.

Lemma onHealthCheck_primary_term_witness :
  ∃ sstate sstate',
    shards examples.failoverKeyspace !! "-80" = Some sstate
    ∧ shards (onHealthCheck (H := examples.forwardRange) "aa"
                examples.failoverKeyspace (examples.health "-80" 7 true 200)).1
        !! "-80" = Some sstate'
    ∧ externallyReparented sstate' = 200%Z
    ∧ currentPrimary sstate' = Some (examples.alias 7).
Proof.
  eexists _, _. split; [vm_compute; reflexivity|].
  split; [vm_compute; reflexivity|].
  eapply (@onHealthCheck_primary_term examples.forwardRange "aa"
            examples.failoverKeyspace (examples.health "-80" 7 true 200));
    [reflexivity|vm_compute; reflexivity|vm_compute; reflexivity|].
  split; [discriminate|reflexivity].
Defined.

(** ** The resharding query *)

Lemma beingResharded_no_shards `{MapRange} kss currentShard :
  shards kss = ∅ → beingResharded kss currentShard = false.
Proof.
  intros Hempty. unfold beingResharded. destruct (_ || _); [done|].
  destruct (validKeyRange currentShard); [|done].
  by rewrite Hempty, rangeMap_empty.
Qed.

(** X23: [TargetIsBeingResharded] answers [true] exactly for a PRIMARY target
    whose keyspace is tracked, not deleted, and found being resharded
    around the shard of the target.  A keyspace that is looked up for the
    first time has no shard yet, so the answer for it is [false]. *)
Theorem TargetIsBeingResharded_result `{MapRange} (ts : srvtopo.Server)
    (kew : KeyspaceEventWatcher) (target_ : querypb.Target) :
  (TargetIsBeingResharded ts kew target_).1.1 = true
  ↔ querypb.TabletType target_ = topodatapb.PRIMARY
    ∧ ∃ kss, keyspaces kew !! querypb.Keyspace target_ = Some kss
        ∧ deleted kss = false
        ∧ beingResharded kss (querypb.Shard target_) = true.
Proof.
  unfold TargetIsBeingResharded. case_bool_decide as Hp; simpl.
  2:{ split; [done|]. by intros [? _]. }
  destruct (keyspaces kew !! querypb.Keyspace target_) as [kss|] eqn:Hl.
  - destruct (deleted kss) eqn:Hd.
    + rewrite (getKeyspaceStatus_deleted ts kew _ kss Hl Hd). simpl.
      split; [done|]. intros (_ & kss' & ? & ? & _). congruence.
    + rewrite (getKeyspaceStatus_tracked ts kew _ kss Hl Hd). simpl. split.
      * intros Hb. split; [done|]. by exists kss.
      * intros (_ & kss' & ? & _ & ?). congruence.
  - pose proof (getKeyspaceStatus_untracked ts kew (querypb.Keyspace target_))
      as Hempty.
    destruct (getKeyspaceStatus ts kew (querypb.Keyspace target_))
      as [[[kss|] kew1] evs]; simpl in *.
    + rewrite (beingResharded_no_shards kss _ (Hempty kss Hl eq_refl)).
      split; [done|]. intros (_ & kss' & ? & _). congruence.
    + split; [done|]. intros (_ & kss' & ? & _). congruence.
Qed.
